(** * A shallow embedding of the todo command-line application (app.py)

    The program keeps tasks, notes, events and document references in a
    SQLite file, regenerates [calendar.ics] after every event insertion and
    copies documents below the [storage] directory.

    The development is organised like the program and its dependencies:

    - [Text]      decimal formatting and parsing of fixed-width fields;
    - [Datetime]  the part of Python's [datetime] module used by app.py
                  ([fromisoformat], [isoformat], [date], comparison);
    - [Sqlite]    tables with AUTOINCREMENT keys and [ORDER BY];
    - [Fs]        paths ([pathlib]), directories and files ([mkdir],
                  [shutil.copy], [open]);
    - [Ics]       the calendar container of the [ics] package;
    - [Argparse]  the command line accepted by [build_parser];
    - [App]       the functions of app.py, one definition per function,
                  over a world that holds the database, the files, the
                  clock, the console and the trace of a run;
    - [Spec]      the notions the statements are written with;
    - the properties of the program, module by module. *)

From stdpp Require Import gmap strings list sorting.
From Stdlib Require Import ZArith Ascii String Lia.

Set Default Proof Using "Type".

(* ===================================================================== *)
(** * Decimal fields *)
(* ===================================================================== *)

Module Text.
Local Open Scope Z_scope.

(** The character of a decimal digit [0 <= k <= 9]. *)
Definition digit_char (k : Z) : ascii := ascii_of_N (Z.to_N (48 + k)).

(** The value of an ASCII decimal digit, [None] for any other byte. *)
Definition digit_val (c : ascii) : option Z :=
  let n := Z.of_N (N_of_ascii c) in
  if (48 <=? n) && (n <=? 57) then Some (n - 48) else None.

(** ["%0<w>d" % v] for a field [0 <= v < 10^w]: exactly [w] digits, most
    significant first.  Every field printed by app.py comes out of a
    validated [date] or [datetime], hence is in range. *)
Fixpoint zfill (w : nat) (v : Z) : string :=
  match w with
  | O => ""
  | S w' => String (digit_char (v / 10 ^ Z.of_nat w'))
                   (zfill w' (v mod 10 ^ Z.of_nat w'))
  end.

(** Reads exactly [w] decimal digits from the front of [s]. *)
Fixpoint parse_digits (w : nat) (s : string) : option (Z * string) :=
  match w with
  | O => Some (0, s)
  | S w' =>
      match s with
      | EmptyString => None
      | String c s' =>
          d ← digit_val c;
          '(v, rest) ← parse_digits w' s';
          Some (d * 10 ^ Z.of_nat w' + v, rest)
      end
  end.

(** Consumes the byte [c] at the front of [s]. *)
Definition expect (c : ascii) (s : string) : option string :=
  match s with
  | String c' s' => if Ascii.eqb c c' then Some s' else None
  | EmptyString => None
  end.

(** [s.find(c)]: the text before and after the first occurrence of [c]. *)
Fixpoint find (c : ascii) (s : string) : option (string * string) :=
  match s with
  | EmptyString => None
  | String c' s' =>
      if Ascii.eqb c c' then Some (EmptyString, s')
      else '(a, b) ← find c s'; Some (String c' a, b)
  end.

(** Decimal rendering of a natural number, as [str(n)] prints a row id. *)
Fixpoint dec_digits (fuel : nat) (n : Z) (acc : string) : string :=
  match fuel with
  | O => acc
  | S fuel' =>
      let acc' := String (digit_char (n mod 10)) acc in
      if n / 10 =? 0 then acc' else dec_digits fuel' (n / 10) acc'
  end.

Definition str_of_nat (n : nat) : string :=
  dec_digits (S n) (Z.of_nat n) "".

End Text.

(* ===================================================================== *)
(** * Dates and times (Python's [datetime]) *)
(* ===================================================================== *)

Module Datetime.
Import Text.
Local Open Scope Z_scope.

Record date := Date { year : Z; month : Z; day : Z }.

(** [utcoffset] is kept in microseconds; [None] is a naive datetime. *)
Record datetime := Mk_datetime {
  dt_date : date;
  hour : Z;
  minute : Z;
  second : Z;
  microsecond : Z;
  tzinfo : option Z
}.

Definition is_leap (y : Z) : bool :=
  (y mod 4 =? 0) && (negb (y mod 100 =? 0) || (y mod 400 =? 0)).

Definition DAYS_IN_MONTH : list Z :=
  [-1; 31; 28; 31; 30; 31; 30; 31; 31; 30; 31; 30; 31].

Definition DAYS_BEFORE_MONTH : list Z :=
  [-1; 0; 31; 59; 90; 120; 151; 181; 212; 243; 273; 304; 334].

Definition days_in_month (y m : Z) : Z :=
  if (m =? 2) && is_leap y then 29
  else nth (Z.to_nat m) DAYS_IN_MONTH 0.

Definition days_before_year (y : Z) : Z :=
  let y' := y - 1 in y' * 365 + y' / 4 - y' / 100 + y' / 400.

Definition days_before_month (y m : Z) : Z :=
  nth (Z.to_nat m) DAYS_BEFORE_MONTH 0
  + (if (2 <? m) && is_leap y then 1 else 0).

(** Proleptic Gregorian ordinal: 0001-01-01 is day 1. *)
Definition ymd2ord (y m d : Z) : Z :=
  days_before_year y + days_before_month y m + d.

Definition check_date_fields (y m d : Z) : bool :=
  (1 <=? y) && (y <=? 9999) && (1 <=? m) && (m <=? 12)
  && (1 <=? d) && (d <=? days_in_month y m).

Definition check_time_fields (h mi s us : Z) : bool :=
  (0 <=? h) && (h <=? 23) && (0 <=? mi) && (mi <=? 59)
  && (0 <=? s) && (s <=? 59) && (0 <=? us) && (us <=? 999999).

Definition DAY_US : Z := 86400000000.

(** [timezone(offset)] requires an offset strictly between -24h and 24h. *)
Definition check_tzinfo (tz : option Z) : bool :=
  match tz with
  | None => true
  | Some off => (- DAY_US <? off) && (off <? DAY_US)
  end.

Definition valid_date (d : date) : bool :=
  check_date_fields (year d) (month d) (day d).

(** The checks of the constructors [datetime(...)] and [timezone(...)]. *)
Definition check_datetime (dt : datetime) : bool :=
  valid_date (dt_date dt)
  && check_time_fields (hour dt) (minute dt) (second dt) (microsecond dt)
  && check_tzinfo (tzinfo dt).

(** An offset is zero, or a second and more: [fromisoformat] builds no
    other (see [parse_isoformat_time]). *)
Definition whole_offset (tz : option Z) : bool :=
  match tz with
  | None => true
  | Some off => (off =? 0) || (1000000 <=? Z.abs off)
  end.

(** The datetimes that [fromisoformat] builds, the only ones the program
    holds. *)
Definition valid_datetime (dt : datetime) : bool :=
  check_datetime dt && whole_offset (tzinfo dt).

(** ** Printing *)

(** [date.isoformat()], which is also [str(date)]: ["%04d-%02d-%02d"]. *)
Definition date_isoformat (d : date) : string :=
  zfill 4 (year d) +:+ "-" +:+ zfill 2 (month d) +:+ "-" +:+ zfill 2 (day d).

(** [_format_time] with [timespec='auto']. *)
Definition format_time (h mi s us : Z) : string :=
  zfill 2 h +:+ ":" +:+ zfill 2 mi +:+ ":" +:+ zfill 2 s
  +:+ (if us =? 0 then "" else "." +:+ zfill 6 us).

(** [_format_offset]: sign, hours and minutes, then seconds and
    microseconds only when they are not zero. *)
Definition format_offset (tz : option Z) : string :=
  match tz with
  | None => ""
  | Some off =>
      let a := Z.abs off in
      let hh := a / 3600000000 in
      let mm := (a mod 3600000000) / 60000000 in
      let ss := a mod 60000000 in
      (if off <? 0 then "-" else "+") +:+ zfill 2 hh +:+ ":" +:+ zfill 2 mm
      +:+ (if ss =? 0 then ""
           else ":" +:+ zfill 2 (ss / 1000000)
                +:+ (if ss mod 1000000 =? 0 then ""
                     else "." +:+ zfill 6 (ss mod 1000000)))
  end.

(** [datetime.isoformat()] with the default separator ['T']. *)
Definition datetime_isoformat (dt : datetime) : string :=
  date_isoformat (dt_date dt) +:+ "T"
  +:+ format_time (hour dt) (minute dt) (second dt) (microsecond dt)
  +:+ format_offset (tzinfo dt).

(** ** Parsing

    [fromisoformat] on the grammar that Python 3.7 to 3.10 document, the
    texts written by [isoformat]:
    [YYYY-MM-DD[*HH[:MM[:SS[.fff[fff]]]][+HH:MM[:SS[.ffffff]]]]], where [*]
    is one byte.  Later versions read a text of this grammar in the same
    way, so [Some dt] is the datetime whatever the version.

    [None] is the [ValueError] of the versions 3.7 to 3.10 only.  Later ones
    read more texts (the basic format without separators, a trailing [Z],
    fractions of any length, week dates), and every version takes a
    separator of several bytes.  The statements on rejected texts are
    therefore made over any [fromisoformat] (see [App.add_task_with]). *)

Definition parse_fraction (s : string) : option Z :=
  match String.length s with
  | 3%nat => '(v, _) ← parse_digits 3 s; Some (v * 1000)
  | 6%nat => '(v, _) ← parse_digits 6 s; Some v
  | _ => None
  end.

(** [_parse_hh_mm_ss_ff]: [HH[:MM[:SS[.fff[fff]]]]], nothing after it. *)
Definition parse_hh_mm_ss_ff (s : string) : option (Z * Z * Z * Z) :=
  '(hh, s1) ← parse_digits 2 s;
  match s1 with
  | EmptyString => Some (hh, 0, 0, 0)
  | String c1 s2 =>
      if negb (Ascii.eqb c1 ":") then None else
      '(mm, s3) ← parse_digits 2 s2;
      match s3 with
      | EmptyString => Some (hh, mm, 0, 0)
      | String c2 s4 =>
          if negb (Ascii.eqb c2 ":") then None else
          '(ss, s5) ← parse_digits 2 s4;
          match s5 with
          | EmptyString => Some (hh, mm, ss, 0)
          | String c3 s6 =>
              if negb (Ascii.eqb c3 ".") then None else
              us ← parse_fraction s6;
              Some (hh, mm, ss, us)
          end
      end
  end.

(** A byte that cannot occur in [HH:MM:SS.ffffff]. *)
Definition time_char (c : ascii) : Prop :=
  digit_val c = None ∧ Ascii.eqb c ":" = false ∧ Ascii.eqb c "." = false.

(** The time text is cut at the first ['-'], or else at the first ['+']. *)
Definition split_tz (tstr : string) : string * option (bool * string) :=
  match find "-" tstr with
  | Some (a, b) => (a, Some (true, b))
  | None =>
      match find "+" tstr with
      | Some (a, b) => (a, Some (false, b))
      | None => (tstr, None)
      end
  end.

(** [_parse_isoformat_time].  The offset is counted in whole seconds
    ([tzoffset]) and microseconds; as the C implementation has it, an
    offset of no whole second is UTC, whatever its microseconds. *)
Definition parse_isoformat_time (tstr : string)
  : option (Z * Z * Z * Z * option Z) :=
  let '(timestr, tz) := split_tz tstr in
  '(hh, mm, ss, us) ← parse_hh_mm_ss_ff timestr;
  match tz with
  | None => Some (hh, mm, ss, us, None)
  | Some (neg, tzstr) =>
      let n := String.length tzstr in
      if negb ((n =? 5)%nat || (n =? 8)%nat || (n =? 15)%nat) then None else
      '(th, tm, ts, tu) ← parse_hh_mm_ss_ff tzstr;
      let tzoffset := th * 3600 + tm * 60 + ts in
      let td := if tzoffset =? 0 then 0 else tzoffset * 1000000 + tu in
      Some (hh, mm, ss, us, Some (if neg then - td else td))
  end.

Definition parse_isoformat_date (s : string) : option (Z * Z * Z * string) :=
  '(y, s1) ← parse_digits 4 s;
  s2 ← expect "-" s1;
  '(m, s3) ← parse_digits 2 s2;
  s4 ← expect "-" s3;
  '(d, s5) ← parse_digits 2 s4;
  Some (y, m, d, s5).

(** [datetime.datetime.fromisoformat]. *)
Definition datetime_fromisoformat (s : string) : option datetime :=
  '(y, m, d, rest) ← parse_isoformat_date s;
  '(h, mi, sec, us, tz) ←
    match rest with
    | EmptyString => Some (0, 0, 0, 0, None)
    | String _ tstr => parse_isoformat_time tstr
    end;
  let dt := Mk_datetime (Date y m d) h mi sec us tz in
  if check_datetime dt then Some dt else None.

(** [datetime.date.fromisoformat]: exactly [YYYY-MM-DD]. *)
Definition date_fromisoformat (s : string) : option date :=
  '(y, m, d, rest) ← parse_isoformat_date s;
  match rest with
  | EmptyString =>
      if check_date_fields y m d then Some (Date y m d) else None
  | String _ _ => None
  end.

(** ** Comparison *)

(** [date.__gt__]: comparison of the triples (year, month, day). *)
Definition date_compare (a b : date) : comparison :=
  match year a ?= year b with
  | Eq => match month a ?= month b with
          | Eq => day a ?= day b
          | c => c
          end
  | c => c
  end.

Definition date_gt (a b : date) : bool :=
  match date_compare a b with Gt => true | _ => false end.

(** [datetime.__lt__] and friends on two datetimes with the same [tzinfo]:
    comparison of the tuples (year, month, day, hour, minute, second,
    microsecond). *)
Definition naive_compare (a b : datetime) : comparison :=
  match date_compare (dt_date a) (dt_date b) with
  | Eq => match hour a ?= hour b with
          | Eq => match minute a ?= minute b with
                  | Eq => match second a ?= second b with
                          | Eq => microsecond a ?= microsecond b
                          | c => c
                          end
                  | c => c
                  end
          | c => c
          end
  | c => c
  end.

(** The point on the time line, in microseconds since 0001-01-01T00:00 UTC.
    A naive datetime is read on the UTC clock, as the calendar export
    does. *)
Definition instant (dt : datetime) : Z :=
  let d := dt_date dt in
  ((ymd2ord (year d) (month d) (day d) - 1) * 86400
   + hour dt * 3600 + minute dt * 60 + second dt) * 1000000
  + microsecond dt
  - default 0 (tzinfo dt).

End Datetime.

(* ===================================================================== *)
(** * The SQLite store *)
(* ===================================================================== *)

Module Sqlite.

(** A table with an [INTEGER PRIMARY KEY AUTOINCREMENT] column: the rows in
    rowid order and the largest rowid handed out so far. *)
Record table (A : Type) := Table { rows : list (nat * A); seq : nat }.
Arguments Table {A} _ _.
Arguments rows {A} _.
Arguments seq {A} _.

Definition empty {A} : table A := Table [] 0.

(** [INSERT INTO t(...) VALUES (...)]: the new row gets rowid [seq + 1]. *)
Definition insert {A} (r : A) (t : table A) : table A :=
  Table (rows t ++ [(S (seq t), r)]) (S (seq t)).

(** [ORDER BY col] on a TEXT value: ascending in the BINARY collation, which
    compares the bytes of the two texts.  Rows with equal keys keep their
    rowid order. *)
Fixpoint sort_insert {A} (key : A → string) (x : A) (l : list A) : list A :=
  match l with
  | [] => [x]
  | y :: l' =>
      if String.leb (key x) (key y) then x :: y :: l'
      else y :: sort_insert key x l'
  end.

Definition order_by {A} (key : A → string) (l : list A) : list A :=
  foldr (sort_insert key) [] l.

Record task_row := Task { description : string; expires : string }.
Record event_row := Event { name : string; time : string }.
Record document_row :=
  Document { label : string; path : string; storage : option string }.

(** The four tables created by [init_db]. *)
Record database := Database {
  tasks : table task_row;
  notes : table string;
  events : table event_row;
  documents : table document_row
}.

Definition empty_database : database :=
  Database empty empty empty empty.

End Sqlite.

(* ===================================================================== *)
(** * The calendar of the [ics] package *)
(* ===================================================================== *)

Module Ics.

(** An [Event] carries the uid drawn when it is constructed, its name and
    its begin time. *)
Record event := Event {
  uid : nat;
  name : string;
  begin : Datetime.datetime
}.

(** [Calendar.events] is a set of events; two events are the same element
    when their uids are equal.  The set is kept as a map from uid. *)
Abbreviation calendar := (gmap nat event).

Definition empty : calendar := ∅.

(** [calendar.events.add(e)]: a set keeps the element it already has. *)
Definition add (e : event) (c : calendar) : calendar :=
  match c !! uid e with
  | Some _ => c
  | None => <[uid e := e]> c
  end.

(** What [f.writelines(calendar)] puts in the file: one VEVENT component per
    element of the set, in the iteration order of the set. *)
Definition serialize (c : calendar) : list event :=
  (map_to_list c).*2.

End Ics.

(* ===================================================================== *)
(** * Exceptions *)
(* ===================================================================== *)

Module Py.

(** The exceptions the program can end with. *)
Inductive exn :=
  | ValueError
  | OperationalError
  | FileNotFoundError
  | FileExistsError
  | NotADirectoryError
  | IsADirectoryError
  | SameFileError
  | SystemExit (code : Z).

Inductive result (A : Type) :=
  | Ok (a : A)
  | Raise (e : exn).
Arguments Ok {A} _.
Arguments Raise {A} _.

End Py.

(* ===================================================================== *)
(** * Paths and the file system *)
(* ===================================================================== *)

Module Fs.

(** A path is the list of its [pathlib] parts; an absolute path starts with
    the part ["/"].  Parts are compared literally: [..] and symbolic links
    are not interpreted. *)
Abbreviation path := (list string).

Fixpoint split_on (c : ascii) (s : string) : list string :=
  match s with
  | EmptyString => [EmptyString]
  | String c' s' =>
      if Ascii.eqb c c' then EmptyString :: split_on c s'
      else match split_on c s' with
           | h :: t => String c' h :: t
           | [] => [String c' EmptyString]
           end
  end.

Definition is_part (p : string) : bool :=
  negb (String.eqb p "") && negb (String.eqb p ".").

(** [Path(s)]: empty and [.] components are dropped; a text that starts
    with a slash is below the root. *)
Definition Path (s : string) : path :=
  let parts := List.filter is_part (split_on "/" s) in
  match s with
  | String c _ => if Ascii.eqb c "/" then "/"%string :: parts else parts
  | EmptyString => parts
  end.

Definition is_absolute (p : path) : bool :=
  match p with
  | r :: _ => String.eqb r "/"
  | [] => false
  end.

(** [p / s]: an absolute right operand replaces the left one. *)
Definition joinpath (p : path) (s : string) : path :=
  let q := Path s in
  if is_absolute q then q else p ++ q.

(** [p.name]: the last part, empty for the root and for [Path('.')]. *)
Definition name (p : path) : string :=
  match reverse p with
  | [] => ""
  | x :: rest =>
      match rest with
      | [] => if String.eqb x "/" then "" else x
      | _ => x
      end
  end.

(** [p.parent]. *)
Definition parent (p : path) : path :=
  match p with
  | [r] => if String.eqb r "/" then p else []
  | _ => removelast p
  end.

Fixpoint join_parts (l : list string) : string :=
  match l with
  | [] => ""
  | [x] => x
  | x :: l' => x +:+ "/" +:+ join_parts l'
  end.

(** [str(p)]. *)
Definition str (p : path) : string :=
  match p with
  | [] => "."
  | r :: rest =>
      if String.eqb r "/" then "/" +:+ join_parts rest else join_parts p
  end.

(** A regular file holds bytes, or the components of a calendar. *)
Inductive content :=
  | Bytes (b : string)
  | Calendar_text (entries : list Ics.event).

Inductive node :=
  | File (c : content)
  | Dir.

(** The nodes below the working directory (relative paths) and below the
    root (absolute paths); both of these always exist. *)
Abbreviation fs := (gmap path node).

Definition is_anchor (p : path) : bool :=
  match p with
  | [] => true
  | [r] => String.eqb r "/"
  | _ => false
  end.

Definition node_at (f : fs) (p : path) : option node :=
  if is_anchor p then Some Dir else f !! p.

Inductive stat_result :=
  | Found (n : node)
  | ENOENT
  | ENOTDIR.

(** Path resolution: every part before the last must be a directory. *)
Fixpoint walk (f : fs) (cur : path) (rest : list string) : stat_result :=
  match node_at f cur with
  | None => ENOENT
  | Some n =>
      match rest with
      | [] => Found n
      | c :: rest' =>
          match n with
          | Dir => walk f (cur ++ [c]) rest'
          | File _ => ENOTDIR
          end
      end
  end.

Definition stat (f : fs) (p : path) : stat_result :=
  if is_absolute p then walk f (take 1 p) (drop 1 p) else walk f [] p.

Definition is_dir (f : fs) (p : path) : bool :=
  match stat f p with
  | Found Dir => true
  | _ => false
  end.

(** [os.mkdir(p)]. *)
Definition os_mkdir (p : path) (f : fs) : Py.result fs :=
  match stat f p with
  | Found _ => Py.Raise Py.FileExistsError
  | ENOTDIR => Py.Raise Py.NotADirectoryError
  | ENOENT =>
      if is_dir f (parent p) then Py.Ok (<[p := Dir]> f)
      else Py.Raise Py.FileNotFoundError
  end.

(** [p.mkdir(parents=True, exist_ok=True)], on the reversed parts of [p]:
    [os.mkdir] is tried first; when a parent is missing the parent is made
    the same way and [os.mkdir] is tried again; any other error is dropped
    when [p] is a directory already. *)
Fixpoint mkdir_parents (rp : list string) (f : fs) : Py.result fs :=
  let p := reverse rp in
  match os_mkdir p f with
  | Py.Ok f' => Py.Ok f'
  | Py.Raise Py.FileNotFoundError =>
      match rp with
      | [] => Py.Raise Py.FileNotFoundError
      | _ :: rp' =>
          if bool_decide (parent p = p) then Py.Raise Py.FileNotFoundError
          else
            match mkdir_parents rp' f with
            | Py.Raise e => Py.Raise e
            | Py.Ok f1 =>
                match os_mkdir p f1 with
                | Py.Ok f2 => Py.Ok f2
                | Py.Raise Py.FileNotFoundError =>
                    Py.Raise Py.FileNotFoundError
                | Py.Raise e =>
                    if is_dir f1 p then Py.Ok f1 else Py.Raise e
                end
            end
      end
  | Py.Raise e => if is_dir f p then Py.Ok f else Py.Raise e
  end.

Definition mkdir (p : path) (f : fs) : Py.result fs :=
  mkdir_parents (reverse p) f.

(** [open(p, 'rb').read()]. *)
Definition read_file (p : path) (f : fs) : Py.result content :=
  match stat f p with
  | Found (File c) => Py.Ok c
  | Found Dir => Py.Raise Py.IsADirectoryError
  | ENOENT => Py.Raise Py.FileNotFoundError
  | ENOTDIR => Py.Raise Py.NotADirectoryError
  end.

(** [open(p, 'w')] followed by writing [c]: the file is created in an
    existing directory, or truncated and rewritten. *)
Definition write_file (p : path) (c : content) (f : fs) : Py.result fs :=
  match stat f p with
  | Found (File _) => Py.Ok (<[p := File c]> f)
  | Found Dir => Py.Raise Py.IsADirectoryError
  | ENOTDIR => Py.Raise Py.NotADirectoryError
  | ENOENT =>
      if is_dir f (parent p) then Py.Ok (<[p := File c]> f)
      else Py.Raise Py.FileNotFoundError
  end.

(** [os.path.samefile], with its errors read as "no". *)
Definition samefile (f : fs) (p q : path) : bool :=
  bool_decide (p = q) &&
  match stat f p with Found _ => true | _ => false end.

(** Where [shutil.copy(src, dst)] writes: into [dst] when it is a
    directory. *)
Definition copy_target (src dst : path) (f : fs) : path :=
  if is_dir f dst then joinpath dst (name src) else dst.

(** [shutil.copy(src, dst)]. *)
Definition copy (src dst : path) (f : fs) : Py.result fs :=
  let dst' := copy_target src dst f in
  if samefile f src dst' then Py.Raise Py.SameFileError
  else
    match read_file src f with
    | Py.Raise e => Py.Raise e
    | Py.Ok c => write_file dst' c f
    end.

End Fs.

(* ===================================================================== *)
(** * The command line ([build_parser]) *)
(* ===================================================================== *)

Module Argparse.

(** The object returned by [parse_args]: [command] is [None] when no
    sub-command was given; a sub-parser fills the fields it declares. *)
Record namespace := Namespace {
  command : option string;
  description : string;
  expires : string;
  content : string;
  name : string;
  time : string;
  label : string;
  file_path : string;
  storage : option string
}.

Definition no_command : namespace :=
  Namespace None "" "" "" "" "" "" "" None.

(** The sub-commands declared by [build_parser], with their positional
    arguments and whether they take [--storage]. *)
Definition subparsers : list (string * (list string * bool)) :=
  [ ("add-task", (["description"; "expires"], false));
    ("list-tasks", ([], false));
    ("add-note", (["content"], false));
    ("list-notes", ([], false));
    ("add-event", (["name"; "time"], false));
    ("list-events", ([], false));
    ("add-storage", (["name"], false));
    ("add-doc", (["label"; "file_path"], true));
    ("list-docs", ([], false)) ]%string.

Fixpoint lookup_sub (c : string) (l : list (string * (list string * bool)))
  : option (list string * bool) :=
  match l with
  | [] => None
  | (k, v) :: l' => if String.eqb c k then Some v else lookup_sub c l'
  end.

(** How [parse_args] ends: with a namespace, or by leaving the process
    after the help text (status 0) or after a usage error (status 2). *)
Inductive outcome :=
  | Parsed (ns : namespace)
  | Help
  | Usage_error.

Inductive token :=
  | Positional (v : string)
  | Separator
  | Opt_help
  | Opt_storage (explicit : option string)
  | Opt_unknown.

(** Classification of one argument.  Modelled: plain words, [-h],
    [--help], [--storage V], [--storage=V] and the [--] separator.  Any
    other argument that starts with [-] is reported as unrecognised
    (argparse also accepts abbreviated long options and reads negative
    numbers and arguments with blanks as plain words). *)
Definition classify (has_storage : bool) (a : string) : token :=
  match a with
  | String "-" (String _ _) =>
      if String.eqb a "--" then Separator
      else if String.eqb a "-h" || String.eqb a "--help" then Opt_help
      else if has_storage && String.eqb a "--storage" then Opt_storage None
      else if has_storage && String.prefix "--storage=" a
           then Opt_storage (Some (String.substring 10 (String.length a - 10) a))
      else Opt_unknown
  | _ => Positional a
  end.

Definition set_field (field value : string) (ns : namespace) : namespace :=
  let 'Namespace c d e n nm t l f s := ns in
  if String.eqb field "description" then Namespace c value e n nm t l f s
  else if String.eqb field "expires" then Namespace c d value n nm t l f s
  else if String.eqb field "content" then Namespace c d e value nm t l f s
  else if String.eqb field "name" then Namespace c d e n value t l f s
  else if String.eqb field "time" then Namespace c d e n nm value l f s
  else if String.eqb field "label" then Namespace c d e n nm t value f s
  else if String.eqb field "file_path" then Namespace c d e n nm t l value s
  else ns.

Definition set_storage (v : string) (ns : namespace) : namespace :=
  let 'Namespace c d e n nm t l f _ := ns in Namespace c d e n nm t l f (Some v).

Definition set_command (v : string) (ns : namespace) : namespace :=
  let 'Namespace _ d e n nm t l f s := ns in Namespace (Some v) d e n nm t l f s.

(** The arguments of a sub-command, left to right.  [todo] are the
    positional arguments still to be filled, [extras] records an
    unrecognised argument (reported at the end), [sep] that [--] was
    seen. *)
Fixpoint parse_sub (has_storage : bool) (args : list string)
    (todo : list string) (extras sep : bool) (ns : namespace) : outcome :=
  match args with
  | [] =>
      match todo with
      | [] => if extras then Usage_error else Parsed ns
      | _ :: _ => Usage_error
      end
  | a :: rest =>
      match (if sep then Positional a else classify has_storage a) with
      | Separator => parse_sub has_storage rest todo extras true ns
      | Opt_help => Help
      | Opt_unknown => parse_sub has_storage rest todo true sep ns
      | Opt_storage (Some v) =>
          parse_sub has_storage rest todo extras sep (set_storage v ns)
      | Opt_storage None =>
          match rest with
          | v :: rest' =>
              match classify has_storage v with
              | Positional _ =>
                  parse_sub has_storage rest' todo extras sep
                            (set_storage v ns)
              | _ => Usage_error
              end
          | [] => Usage_error
          end
      | Positional v =>
          match todo with
          | field :: todo' =>
              parse_sub has_storage rest todo' extras sep
                        (set_field field v ns)
          | [] => parse_sub has_storage rest todo true sep ns
          end
      end
  end.

(** [parser.parse_args()] on the arguments after the program name. *)
Fixpoint parse_top (args : list string) (extras : bool) : outcome :=
  match args with
  | [] => if extras then Usage_error else Parsed no_command
  | a :: rest =>
      match classify false a with
      | Opt_help => Help
      | Opt_unknown => parse_top rest true
      | Positional c =>
          match lookup_sub c subparsers with
          | None => Usage_error
          | Some (fields, has_storage) =>
              parse_sub has_storage rest fields extras false
                        (set_command c no_command)
          end
      | _ => Usage_error
      end
  end.

Definition parse_args (argv : list string) : outcome :=
  parse_top argv false.

End Argparse.

(* ===================================================================== *)
(** * The application (app.py) *)
(* ===================================================================== *)

Module App.
Import Py.

(** The functions of app.py, to name them in the trace. *)
Inductive func :=
  | F_init_db | F_add_task | F_list_tasks | F_add_note | F_list_notes
  | F_add_event | F_list_events | F_generate_calendar | F_add_storage
  | F_add_document | F_list_documents.

Inductive table_name := T_tasks | T_notes | T_events | T_documents.

(** What a run does, in order: the functions it enters, the rows it
    inserts, the files it writes. *)
Inductive effect :=
  | Call (f : func)
  | Sql_insert (t : table_name)
  | File_write (p : Fs.path).

(** What the process prints: a line of [print], the help text, or the
    usage message that goes with an argument error. *)
Inductive output :=
  | Line (s : string)
  | Help_text
  | Usage_text.

(** Everything the program reads or changes.  [db] is [None] as long as
    todo.db has no tables; [today] is the date of the system clock;
    [uid_next] counts the uids drawn so far (every draw is fresh). *)
Record world := World {
  db : option Sqlite.database;
  files : Fs.fs;
  today : Datetime.date;
  uid_next : nat;
  console : list output;
  trace : list effect
}.

Definition DB_PATH : Fs.path := Fs.Path "todo.db".
Definition STORAGE_DIR : Fs.path := Fs.Path "storage".
Definition CALENDAR_PATH : Fs.path := Fs.Path "calendar.ics".

(** ** Computations: a state that survives a raised exception *)

Definition M (A : Type) : Type := world → result A * world.

Definition ret {A} (a : A) : M A := λ w, (Ok a, w).
Definition raise {A} (e : exn) : M A := λ w, (Raise e, w).
Definition bind {A B} (m : M A) (k : A → M B) : M B :=
  λ w, match m w with
       | (Ok a, w') => k a w'
       | (Raise e, w') => (Raise e, w')
       end.

Notation "'let*' x ':=' m 'in' k" := (bind m (λ x, k))
  (at level 10, x pattern, m at level 100, k at level 200).

Fixpoint for_each {A} (l : list A) (body : A → M unit) : M unit :=
  match l with
  | [] => ret tt
  | x :: l' => let* _ := body x in for_each l' body
  end.

Fixpoint fold_each {A S} (l : list A) (body : S → A → M S) (s : S) : M S :=
  match l with
  | [] => ret s
  | x :: l' => let* s' := body s x in fold_each l' body s'
  end.

(** ** Primitive effects *)

Definition log (e : effect) : M unit :=
  λ w, (Ok tt, World (db w) (files w) (today w) (uid_next w) (console w)
                     (trace w ++ [e])).

Definition print (o : output) : M unit :=
  λ w, (Ok tt, World (db w) (files w) (today w) (uid_next w)
                     (console w ++ [o]) (trace w)).

Definition date_today : M Datetime.date := λ w, (Ok (today w), w).

(** [uid_gen()], called by the constructor of [Event]. *)
Definition uid_gen : M nat :=
  λ w, (Ok (uid_next w),
        World (db w) (files w) (today w) (S (uid_next w)) (console w)
              (trace w)).

Definition set_db (d : Sqlite.database) (w : world) : world :=
  World (Some d) (files w) (today w) (uid_next w) (console w) (trace w).

Definition set_files (f : Fs.fs) (w : world) : world :=
  World (db w) f (today w) (uid_next w) (console w) (trace w).

(** A statement on a table that does not exist raises
    [sqlite3.OperationalError]. *)
Definition get_db : M Sqlite.database :=
  λ w, match db w with
       | Some d => (Ok d, w)
       | None => (Raise OperationalError, w)
       end.

Definition put_db (d : Sqlite.database) : M unit :=
  λ w, (Ok tt, set_db d w).

Definition lift_fs (op : Fs.fs → result Fs.fs) : M unit :=
  λ w, match op (files w) with
       | Ok f => (Ok tt, set_files f w)
       | Raise e => (Raise e, w)
       end.

Definition from_option {A} (e : exn) (o : option A) : M A :=
  match o with
  | Some a => ret a
  | None => raise e
  end.

Definition insert_task (r : Sqlite.task_row) : M unit :=
  let* d := get_db in
  let* _ := put_db (Sqlite.Database (Sqlite.insert r (Sqlite.tasks d))
                      (Sqlite.notes d) (Sqlite.events d)
                      (Sqlite.documents d)) in
  log (Sql_insert T_tasks).

Definition insert_note (r : string) : M unit :=
  let* d := get_db in
  let* _ := put_db (Sqlite.Database (Sqlite.tasks d)
                      (Sqlite.insert r (Sqlite.notes d)) (Sqlite.events d)
                      (Sqlite.documents d)) in
  log (Sql_insert T_notes).

Definition insert_event (r : Sqlite.event_row) : M unit :=
  let* d := get_db in
  let* _ := put_db (Sqlite.Database (Sqlite.tasks d) (Sqlite.notes d)
                      (Sqlite.insert r (Sqlite.events d))
                      (Sqlite.documents d)) in
  log (Sql_insert T_events).

Definition insert_document (r : Sqlite.document_row) : M unit :=
  let* d := get_db in
  let* _ := put_db (Sqlite.Database (Sqlite.tasks d) (Sqlite.notes d)
                      (Sqlite.events d)
                      (Sqlite.insert r (Sqlite.documents d))) in
  log (Sql_insert T_documents).

(** ** The functions of app.py *)

(** [CREATE TABLE IF NOT EXISTS], four times. *)
Definition init_db : M unit :=
  let* _ := log (Call F_init_db) in
  λ w, (Ok tt, set_db (default Sqlite.empty_database (db w)) w).

Definition add_task (description expires : string) : M unit :=
  let* _ := log (Call F_add_task) in
  let* dt := from_option ValueError
               (Datetime.datetime_fromisoformat expires) in
  let date := Datetime.dt_date dt in
  insert_task (Sqlite.Task description (Datetime.date_isoformat date)).

Definition task_line (task_id : nat) (desc exp status : string) : string :=
  Text.str_of_nat task_id +:+ ": " +:+ desc +:+ " (due " +:+ exp +:+ ") "
  +:+ status.

Definition list_tasks : M unit :=
  let* _ := log (Call F_list_tasks) in
  let* d := get_db in
  for_each
    (Sqlite.order_by (λ r, Sqlite.expires r.2) (Sqlite.rows (Sqlite.tasks d)))
    (λ row,
       let '(task_id, Sqlite.Task desc exp) := row in
       let* now := date_today in
       let* due := from_option ValueError (Datetime.date_fromisoformat exp) in
       let status := if Datetime.date_gt now due then "EXPIRED" else "" in
       print (Line (task_line task_id desc exp status))).

Definition add_note (content : string) : M unit :=
  let* _ := log (Call F_add_note) in
  insert_note content.

Definition list_notes : M unit :=
  let* _ := log (Call F_list_notes) in
  let* d := get_db in
  for_each (Sqlite.rows (Sqlite.notes d))
    (λ row, print (Line (Text.str_of_nat row.1 +:+ ": " +:+ row.2))).

(** The body of the loop of [generate_calendar]: a new [Event] for the
    row, its begin time, and the event added to the calendar. *)
Definition calendar_step (calendar : Ics.calendar)
    (row : nat * Sqlite.event_row) : M Ics.calendar :=
  let '(_, Sqlite.Event name time) := row in
  let* uid := uid_gen in
  let* begin := from_option ValueError
                  (Datetime.datetime_fromisoformat time) in
  ret (Ics.add (Ics.Event uid name begin) calendar).

Definition generate_calendar : M unit :=
  let* _ := log (Call F_generate_calendar) in
  let* d := get_db in
  let* calendar :=
    fold_each (Sqlite.rows (Sqlite.events d)) calendar_step Ics.empty in
  let* _ := lift_fs (Fs.write_file CALENDAR_PATH
                       (Fs.Calendar_text (Ics.serialize calendar))) in
  log (File_write CALENDAR_PATH).

Definition add_event (name time : string) : M unit :=
  let* _ := log (Call F_add_event) in
  let* dt := from_option ValueError (Datetime.datetime_fromisoformat time) in
  let* _ := insert_event
              (Sqlite.Event name (Datetime.datetime_isoformat dt)) in
  generate_calendar.

Definition event_line (r : nat * Sqlite.event_row) : string :=
  Text.str_of_nat r.1 +:+ ": " +:+ Sqlite.name r.2 +:+ " at "
  +:+ Sqlite.time r.2.

Definition list_events : M unit :=
  let* _ := log (Call F_list_events) in
  let* d := get_db in
  for_each
    (Sqlite.order_by (λ r, Sqlite.time r.2) (Sqlite.rows (Sqlite.events d)))
    (λ row, print (Line (event_line row))).

Definition add_storage (name : string) : M unit :=
  let* _ := log (Call F_add_storage) in
  let path := Fs.joinpath STORAGE_DIR name in
  let* _ := lift_fs (Fs.mkdir path) in
  print (Line ("Created storage: " +:+ Fs.str path)).

Definition add_document (label file_path : string) (storage : option string)
  : M unit :=
  let* _ := log (Call F_add_document) in
  let storage_path := Fs.joinpath STORAGE_DIR (default "" storage) in
  let* _ := lift_fs (Fs.mkdir storage_path) in
  let src := Fs.Path file_path in
  let dest := Fs.joinpath storage_path (Fs.name src) in
  let* target := (λ w, (Ok (Fs.copy_target src dest (files w)), w)) in
  let* _ := lift_fs (Fs.copy src dest) in
  let* _ := log (File_write target) in
  let* _ := insert_document (Sqlite.Document label (Fs.str dest) storage) in
  print (Line ("Stored document at " +:+ Fs.str dest)).

Definition document_line (r : nat * Sqlite.document_row) : string :=
  Text.str_of_nat r.1 +:+ ": " +:+ Sqlite.label r.2 +:+ " -> "
  +:+ Sqlite.path r.2 +:+ " (storage: "
  +:+ match Sqlite.storage r.2 with
      | Some s => if String.eqb s "" then "root" else s
      | None => "root"
      end +:+ ")".

Definition list_documents : M unit :=
  let* _ := log (Call F_list_documents) in
  let* d := get_db in
  for_each (Sqlite.rows (Sqlite.documents d))
    (λ row, print (Line (document_line row))).

(** [parser.parse_args()]: the help text and status 0, the usage message
    and status 2, or the namespace. *)
Definition parse_args (argv : list string) : M Argparse.namespace :=
  match Argparse.parse_args argv with
  | Argparse.Parsed ns => ret ns
  | Argparse.Help => let* _ := print Help_text in raise (SystemExit 0)
  | Argparse.Usage_error =>
      let* _ := print Usage_text in raise (SystemExit 2)
  end.

Definition command_is (args : Argparse.namespace) (c : string) : bool :=
  match Argparse.command args with
  | Some c' => String.eqb c' c
  | None => false
  end.

(** The chain of [if]/[elif] of [main]. *)
Definition dispatch (args : Argparse.namespace) : M unit :=
  if command_is args "add-task" then
    add_task (Argparse.description args) (Argparse.expires args)
  else if command_is args "list-tasks" then list_tasks
  else if command_is args "add-note" then add_note (Argparse.content args)
  else if command_is args "list-notes" then list_notes
  else if command_is args "add-event" then
    add_event (Argparse.name args) (Argparse.time args)
  else if command_is args "list-events" then list_events
  else if command_is args "add-storage" then
    add_storage (Argparse.name args)
  else if command_is args "add-doc" then
    add_document (Argparse.label args) (Argparse.file_path args)
                 (Argparse.storage args)
  else if command_is args "list-docs" then list_documents
  else print Help_text.

Definition main (argv : list string) : M unit :=
  let* _ := init_db in
  let* args := parse_args argv in
  dispatch args.

(** The status the process exits with: 0 when [main] returns, the code of
    [SystemExit], 1 for an exception that reaches the top. *)
Definition exit_status (r : result unit) : Z :=
  match r with
  | Ok _ => 0
  | Raise (SystemExit code) => code
  | Raise _ => 1
  end.

Definition run (argv : list string) (w : world) : Z * world :=
  let '(r, w') := main argv w in (exit_status r, w').

(** ** The callers of [datetime.fromisoformat], over any such function

    Which texts [datetime.fromisoformat] reads depends on the version of
    Python; what the program does with its answer does not.  Here the
    function is a parameter: [None] stands for its [ValueError].  With
    [Datetime.datetime_fromisoformat] for it, these are [add_task],
    [calendar_step], [generate_calendar] and [add_event] above. *)
Section fromisoformat.
Variable fromisoformat : string → option Datetime.datetime.

Definition add_task_with (description expires : string) : M unit :=
  let* _ := log (Call F_add_task) in
  let* dt := from_option ValueError (fromisoformat expires) in
  let date := Datetime.dt_date dt in
  insert_task (Sqlite.Task description (Datetime.date_isoformat date)).

Definition calendar_step_with (calendar : Ics.calendar)
    (row : nat * Sqlite.event_row) : M Ics.calendar :=
  let '(_, Sqlite.Event name time) := row in
  let* uid := uid_gen in
  let* begin := from_option ValueError (fromisoformat time) in
  ret (Ics.add (Ics.Event uid name begin) calendar).

Definition generate_calendar_with : M unit :=
  let* _ := log (Call F_generate_calendar) in
  let* d := get_db in
  let* calendar :=
    fold_each (Sqlite.rows (Sqlite.events d)) calendar_step_with
              Ics.empty in
  let* _ := lift_fs (Fs.write_file CALENDAR_PATH
                       (Fs.Calendar_text (Ics.serialize calendar))) in
  log (File_write CALENDAR_PATH).

Definition add_event_with (name time : string) : M unit :=
  let* _ := log (Call F_add_event) in
  let* dt := from_option ValueError (fromisoformat time) in
  let* _ := insert_event
              (Sqlite.Event name (Datetime.datetime_isoformat dt)) in
  generate_calendar_with.
End fromisoformat.

End App.

(* ===================================================================== *)
(** * Notions used in the statements *)
(* ===================================================================== *)

Module Spec.
Import Datetime App.
Local Open Scope Z_scope.

(** The rows in the order [list_tasks] and [list_events] go through
    them. *)
Definition listed_tasks (d : Sqlite.database) : list (nat * Sqlite.task_row) :=
  Sqlite.order_by (λ r, Sqlite.expires r.2) (Sqlite.rows (Sqlite.tasks d)).

Definition listed_events (d : Sqlite.database)
  : list (nat * Sqlite.event_row) :=
  Sqlite.order_by (λ r, Sqlite.time r.2) (Sqlite.rows (Sqlite.events d)).

(** Every task row holds the text of a valid date, as [add_task] stores
    it. *)
Definition tasks_canonical (d : Sqlite.database) : Prop :=
  Forall (λ r : nat * Sqlite.task_row,
            ∃ due, valid_date due = true
                   ∧ Sqlite.expires r.2 = date_isoformat due)
         (Sqlite.rows (Sqlite.tasks d)).

(** Every event row holds the text of a valid datetime, as [add_event]
    stores it. *)
Definition events_canonical (d : Sqlite.database) : Prop :=
  Forall (λ r : nat * Sqlite.event_row,
            ∃ dt, valid_datetime dt = true
                  ∧ Sqlite.time r.2 = datetime_isoformat dt)
         (Sqlite.rows (Sqlite.events d)).

(** The same, with one UTC offset [tz] (or none) for all events. *)
Definition events_with_offset (tz : option Z) (d : Sqlite.database) : Prop :=
  Forall (λ r : nat * Sqlite.event_row,
            ∃ dt, valid_datetime dt = true ∧ tzinfo dt = tz
                  ∧ Sqlite.time r.2 = datetime_isoformat dt)
         (Sqlite.rows (Sqlite.events d)).

(** The instant an event row stands for. *)
Definition event_instant (r : nat * Sqlite.event_row) : Z :=
  match datetime_fromisoformat (Sqlite.time r.2) with
  | Some dt => instant dt
  | None => 0
  end.

(** Ascending chronological order. *)
Definition chronological (l : list (nat * Sqlite.event_row)) : Prop :=
  Sorted Z.le (map event_instant l).

(** The annotation printed after a task whose stored date is [exp]. *)
Definition annotation (now : date) (exp : string) : string :=
  match date_fromisoformat exp with
  | Some due => if date_gt now due then "EXPIRED" else ""
  | None => ""
  end.

(** The world after the lines [os] were printed. *)
Definition printed (os : list output) (w : world) : world :=
  World (db w) (files w) (today w) (uid_next w) (console w ++ os) (trace w).

(** The world after the effects [es] were recorded. *)
Definition traced (es : list effect) (w : world) : world :=
  World (db w) (files w) (today w) (uid_next w) (console w) (trace w ++ es).

(** A fresh installation: no database, an empty directory, the clock at
    2024-06-01. *)
Definition initial_world : world :=
  World None ∅ (Date 2024 6 1) 0 [] [].

(** The program run once per command line, one after the other. *)
Definition runs (argvs : list (list string)) (w : world) : world :=
  foldl (λ w argv, (run argv w).2) w argvs.
(** The same installation once [init_db] has run. *)
Definition ready_world : world :=
  World (Some Sqlite.empty_database) ∅ (Date 2024 6 1) 0 [] [].

(** The two events of the specification's example, entered out of order. *)
Definition standup_world : world :=
  runs [ ["add-event"; "Standup"; "2024-01-02 09:00"];
         ["add-event"; "Retro"; "2024-01-01 15:00"] ]%string initial_world.

(** Two events given with different UTC offsets: A is at 05:00 UTC, B at
    09:00 UTC. *)
Definition offsets_world : world :=
  runs [ ["add-event"; "A"; "2024-01-01T10:00:00+05:00"];
         ["add-event"; "B"; "2024-01-01T09:00:00+00:00"] ]%string
       initial_world.

(** A task that expired long ago, one that expires on the day of the
    clock, and one that is far from due. *)
Definition tasks_world : world :=
  runs [ ["add-task"; "Pay rent"; "2020-01-01"];
         ["add-task"; "File taxes"; "2024-06-01"];
         ["add-task"; "Renew passport"; "2999-01-01"] ]%string initial_world.

Definition standup_db : Sqlite.database :=
  Eval vm_compute in default Sqlite.empty_database (db standup_world).

Definition offsets_db : Sqlite.database :=
  Eval vm_compute in default Sqlite.empty_database (db offsets_world).

Definition tasks_db : Sqlite.database :=
  Eval vm_compute in default Sqlite.empty_database (db tasks_world).
(** The components [generate_calendar] builds from the event rows when the
    first uid drawn is [u]: one per row, [None] when a stored time does not
    parse. *)
Fixpoint entries_from (u : nat) (rows : list (nat * Sqlite.event_row))
  : option (list Ics.event) :=
  match rows with
  | [] => Some []
  | (_, Sqlite.Event name time) :: rows' =>
      begin ← datetime_fromisoformat time;
      es ← entries_from (S u) rows';
      Some (Ics.Event u name begin :: es)
  end.

(** The world after uids were drawn up to [u]. *)
Definition with_uid (u : nat) (w : world) : world :=
  World (db w) (files w) (today w) u (console w) (trace w).

(** The event of the example entered once, and the program asked to enter
    it a second time. *)
Definition once_world : world :=
  runs [ ["add-event"; "Standup"; "2024-01-02 09:00"] ]%string initial_world.

Definition again_world : world :=
  Eval vm_compute in (add_event "Standup" "2024-01-02 09:00" once_world).2.
(** A path below the storage directory or below the root. *)
Definition rooted (p : Fs.path) : Prop :=
  ∃ h rest, p = h :: rest ∧ (h = "/" ∨ h = "storage")%string.

Local Open Scope Z_scope.
(** The first argument is a plain word that names no sub-command. *)
Definition unknown_command (argv : list string) : Prop :=
  ∃ c rest, argv = c :: rest
            ∧ Argparse.classify false c = Argparse.Positional c
            ∧ Argparse.lookup_sub c Argparse.subparsers = None.

(** The world once [init_db] has run: the tables exist, with the rows
    they had. *)
Definition started (w : world) : world :=
  traced [Call F_init_db] (set_db (default Sqlite.empty_database (db w)) w).
(** No regular file stands at [p] or at one of its parents. *)
Definition unobstructed (f : Fs.fs) (p : Fs.path) : Prop :=
  ∀ q c, q `prefix_of` p → f !! q ≠ Some (Fs.File c).
(** The directory and the destination [add_document] computes. *)
Definition storage_path (storage : option string) : Fs.path :=
  Fs.joinpath STORAGE_DIR (default "" storage).

Definition dest (file_path : string) (storage : option string) : Fs.path :=
  Fs.joinpath (storage_path storage) (Fs.name (Fs.Path file_path)).

(** Where [shutil.copy] puts the copy of [file_path] in the file system
    [f]. *)
Definition stored_at (file_path : string) (storage : option string)
    (f : Fs.fs) : Fs.path :=
  Fs.copy_target (Fs.Path file_path) (dest file_path storage) f.

(** The rows of the document table; none as long as it does not exist. *)
Definition document_rows (w : world) : list (nat * Sqlite.document_row) :=
  match db w with
  | Some d => Sqlite.rows (Sqlite.documents d)
  | None => []
  end.

(** An installation whose tables exist, with two files called inv.pdf
    outside of the storage directory. *)
Definition office_world : world :=
  World (Some Sqlite.empty_database)
        {[ ["/"; "tmp"] := Fs.Dir;
           ["/"; "tmp"; "inv.pdf"] := Fs.File (Fs.Bytes "invoice of May");
           ["/"; "tmp"; "new"] := Fs.Dir;
           ["/"; "tmp"; "new"; "inv.pdf"]
             := Fs.File (Fs.Bytes "invoice of June") ]}%string
        (Date 2024 6 1) 0 [] [].

(** The same after the first file was stored in the area finance. *)
Definition stored_world : world :=
  Eval vm_compute in
    (add_document "Invoice" "/tmp/inv.pdf" (Some "finance") office_world).2.
(** What a listing may not change: everything but the console and the
    trace. *)
Definition state (w : world)
  : option Sqlite.database * Fs.fs * date * nat :=
  (db w, files w, today w, uid_next w).

(** What one run may do to the tables: nothing, or one row more at the end
    of one table; a task row holds the text of a valid date, an event row
    the text of a valid datetime. *)
Inductive db_step (d : Sqlite.database) : Sqlite.database → Prop :=
  | step_none : db_step d d
  | step_task text dt :
      valid_datetime dt = true →
      db_step d (Sqlite.Database
                   (Sqlite.insert
                      (Sqlite.Task text (date_isoformat (dt_date dt)))
                      (Sqlite.tasks d))
                   (Sqlite.notes d) (Sqlite.events d) (Sqlite.documents d))
  | step_note content :
      db_step d (Sqlite.Database (Sqlite.tasks d)
                   (Sqlite.insert content (Sqlite.notes d))
                   (Sqlite.events d) (Sqlite.documents d))
  | step_event name dt :
      valid_datetime dt = true →
      db_step d (Sqlite.Database (Sqlite.tasks d) (Sqlite.notes d)
                   (Sqlite.insert
                      (Sqlite.Event name (datetime_isoformat dt))
                      (Sqlite.events d))
                   (Sqlite.documents d))
  | step_document r :
      db_step d (Sqlite.Database (Sqlite.tasks d) (Sqlite.notes d)
                   (Sqlite.events d)
                   (Sqlite.insert r (Sqlite.documents d))).

(** The rowids of a table are 1, 2, ... up to the last one handed out. *)
Definition dense {A} (t : Sqlite.table A) : Prop :=
  (Sqlite.rows t).*1 = List.seq 1 (Sqlite.seq t).

Definition dense_db (d : Sqlite.database) : Prop :=
  dense (Sqlite.tasks d) ∧ dense (Sqlite.notes d)
  ∧ dense (Sqlite.events d) ∧ dense (Sqlite.documents d).

(** The tables of a world, empty as long as they do not exist. *)
Definition store (w : world) : Sqlite.database :=
  default Sqlite.empty_database (db w).

Definition row_count (d : Sqlite.database) : nat :=
  List.length (Sqlite.rows (Sqlite.tasks d))
  + List.length (Sqlite.rows (Sqlite.notes d))
  + List.length (Sqlite.rows (Sqlite.events d))
  + List.length (Sqlite.rows (Sqlite.documents d)).

(** The line [list_notes] prints for a row. *)
Definition note_line (r : nat * string) : string :=
  Text.str_of_nat r.1 +:+ ": " +:+ r.2.

(** An installation where a directory stands in the place of the calendar
    file. *)
Definition blocked_world : world :=
  World (Some Sqlite.empty_database) {[ ["calendar.ics"] := Fs.Dir ]}%string
        (Date 2024 6 1) 0 [] [].

(** The exceptions of the file system operations. *)
Definition os_error (e : Py.exn) : Prop :=
  e = Py.FileNotFoundError ∨ e = Py.FileExistsError
  ∨ e = Py.NotADirectoryError ∨ e = Py.IsADirectoryError
  ∨ e = Py.SameFileError.
Local Open Scope Z_scope.
(** The day a task row is due, as a day number. *)
Definition task_day (r : nat * Sqlite.task_row) : Z :=
  match date_fromisoformat (Sqlite.expires r.2) with
  | Some due => ymd2ord (year due) (month due) (day due)
  | None => 0
  end.

(** The order of the lines of [list_tasks]: by day, and by rowid within a
    day. *)
Definition task_before (a b : nat * Sqlite.task_row) : Prop :=
  task_day a ≤ task_day b ∧ (task_day a = task_day b → (a.1 < b.1)%nat).

(** The word [list_documents] prints for the area of a row. *)
Definition area_name (storage : option string) : string :=
  match storage with
  | Some s => if String.eqb s "" then "root" else s
  | None => "root"
  end.
(** A plain word: an argument that does not look like an option. *)
Definition plain (a : string) : bool :=
  match a with
  | String "-" (String _ _) => false
  | _ => true
  end.

(** The namespace after the positional arguments [args] were stored under
    the names [fields]. *)
Fixpoint filled (fields args : list string) (ns : Argparse.namespace)
  : Argparse.namespace :=
  match fields, args with
  | field :: fields', a :: args' =>
      filled fields' args' (Argparse.set_field field a ns)
  | _, _ => ns
  end.

(** The function of app.py that [main] calls for a sub-command. *)
Definition function_of (c : string) : option func :=
  if String.eqb c "add-task" then Some F_add_task
  else if String.eqb c "list-tasks" then Some F_list_tasks
  else if String.eqb c "add-note" then Some F_add_note
  else if String.eqb c "list-notes" then Some F_list_notes
  else if String.eqb c "add-event" then Some F_add_event
  else if String.eqb c "list-events" then Some F_list_events
  else if String.eqb c "add-storage" then Some F_add_storage
  else if String.eqb c "add-doc" then Some F_add_document
  else if String.eqb c "list-docs" then Some F_list_documents
  else None.
(** The character [c] does not occur in [s]. *)
Fixpoint free_of (c : ascii) (s : string) : bool :=
  match s with
  | EmptyString => true
  | String c' s' => negb (Ascii.eqb c c') && free_of c s'
  end.

(** A part of a path below its anchor: not empty, not a dot, without a
    slash. *)
Definition proper (x : string) : bool := Fs.is_part x && free_of "/" x.

(** The paths [Path] builds: proper parts, after the root or not. *)
Definition well_formed (p : Fs.path) : Prop :=
  match p with
  | [] => True
  | r :: rest =>
      (r = "/"%string ∨ proper r = true) ∧ Forall (λ x, proper x = true) rest
  end.
(** The order of the lines of [list_events]: by the stored text, compared
    byte by byte, and by rowid for equal texts. *)
Definition event_before (a b : nat * Sqlite.event_row) : Prop :=
  String.leb (Sqlite.time a.2) (Sqlite.time b.2) = true
  ∧ (Sqlite.time a.2 = Sqlite.time b.2 → (a.1 < b.1)%nat).

(** How far a time of day, or a UTC offset, is written out: [HH],
    [HH:MM], [HH:MM:SS], [HH:MM:SS.fff] or [HH:MM:SS.ffffff] (the
    [timespec] of [isoformat]). *)
Inductive timespec := Hours | Minutes | Seconds | Milliseconds | Microseconds.

Definition time_text (p : timespec) (h mi s us : Z) : string :=
  match p with
  | Hours => Text.zfill 2 h
  | Minutes => Text.zfill 2 h +:+ ":" +:+ Text.zfill 2 mi
  | Seconds =>
      Text.zfill 2 h +:+ ":" +:+ Text.zfill 2 mi +:+ ":" +:+ Text.zfill 2 s
  | Milliseconds =>
      Text.zfill 2 h +:+ ":" +:+ Text.zfill 2 mi +:+ ":" +:+ Text.zfill 2 s
      +:+ "." +:+ Text.zfill 3 (us / 1000)
  | Microseconds =>
      Text.zfill 2 h +:+ ":" +:+ Text.zfill 2 mi +:+ ":" +:+ Text.zfill 2 s
      +:+ "." +:+ Text.zfill 6 us
  end.

(** A UTC offset as a text has it: a sign, then hours and minutes, and
    seconds or seconds and microseconds when written out that far. *)
Record utc_offset := Utc_offset {
  off_minus : bool;
  off_spec : timespec;
  off_h : Z;
  off_mi : Z;
  off_s : Z;
  off_us : Z
}.

Definition offset_text (o : option utc_offset) : string :=
  match o with
  | None => ""
  | Some o =>
      String (if off_minus o then "-" else "+")%char
             (time_text (off_spec o) (off_h o) (off_mi o) (off_s o) (off_us o))
  end.

Definition check_offset (o : option utc_offset) : bool :=
  match o with
  | None => true
  | Some o =>
      match off_spec o with
      | Minutes | Seconds | Microseconds => true
      | Hours | Milliseconds => false
      end
      && check_time_fields (off_h o) (off_mi o) (off_s o) (off_us o)
  end.

(** The texts [YYYY-MM-DD[*HH[:MM[:SS[.fff[fff]]]][+HH:MM[:SS[.ffffff]]]]]
    for the date [d]: the date alone, and the date, a separator [c], the
    time [h]:[mi]:[s].[us] written out as far as [p] says and the offset
    [o], if any. *)
Definition date_time_texts (d : date) (c : ascii) (p : timespec)
    (h mi s us : Z) (o : option utc_offset) : list string :=
  [ date_isoformat d;
    date_isoformat d +:+ String c (time_text p h mi s us +:+ offset_text o) ].

(** The tables after a task was added. *)
Definition with_task (text due : string) (d : Sqlite.database)
  : Sqlite.database :=
  Sqlite.Database (Sqlite.insert (Sqlite.Task text due) (Sqlite.tasks d))
                  (Sqlite.notes d) (Sqlite.events d) (Sqlite.documents d).
End Spec.

(* ===================================================================== *)
(** * Properties of decimal fields *)
(* ===================================================================== *)

Module TextFacts.
Import Text.
Local Open Scope Z_scope.

Lemma app_String c s t : String c s +:+ t = String c (s +:+ t).
Proof. reflexivity. Qed.

Lemma app_empty_l t : "" +:+ t = t.
Proof. reflexivity. Qed.

Lemma app_empty_r s : s +:+ "" = s.
Proof. induction s as [|c s IH]; [done|]. by rewrite app_String, IH. Qed.

Lemma app_assoc s t u : (s +:+ t) +:+ u = s +:+ (t +:+ u).
Proof. induction s as [|c s IH]; [done|]. by rewrite !app_String, IH. Qed.

Lemma length_app s t :
  String.length (s +:+ t) = (String.length s + String.length t)%nat.
Proof. induction s as [|c s IH]; [done|]. rewrite app_String. simpl. by rewrite IH. Qed.

Lemma digit_cases k : 0 ≤ k ≤ 9 →
  k = 0 ∨ k = 1 ∨ k = 2 ∨ k = 3 ∨ k = 4 ∨ k = 5 ∨ k = 6 ∨ k = 7 ∨ k = 8 ∨ k = 9.
Proof. lia. Qed.

Lemma digit_val_digit_char k : 0 ≤ k ≤ 9 → digit_val (digit_char k) = Some k.
Proof.
  intros H. destruct (digit_cases k H) as [->|[->|[->|[->|[->|[->|[->|[->|[->| ->]]]]]]]]];
    reflexivity.
Qed.

Lemma N_of_digit_char k : 0 ≤ k ≤ 9 → Z.of_N (N_of_ascii (digit_char k)) = 48 + k.
Proof.
  intros H. destruct (digit_cases k H) as [->|[->|[->|[->|[->|[->|[->|[->|[->| ->]]]]]]]]];
    reflexivity.
Qed.

Lemma compare_digit_char a b : 0 ≤ a ≤ 9 → 0 ≤ b ≤ 9 →
  Ascii.compare (digit_char a) (digit_char b) = (a ?= b).
Proof.
  intros Ha Hb. unfold Ascii.compare.
  rewrite <- N2Z.inj_compare, !N_of_digit_char by done.
  apply Z.add_compare_mono_l.
Qed.

Lemma pow10_pos w : 0 < 10 ^ Z.of_nat w.
Proof. apply Z.pow_pos_nonneg; lia. Qed.

Lemma pow10_succ w : 10 ^ Z.of_nat (S w) = 10 * 10 ^ Z.of_nat w.
Proof. rewrite Nat2Z.inj_succ, Z.pow_succ_r; lia. Qed.

(** The leading digit and the remaining field of a number below [10^(w+1)]. *)
Lemma split_field w v : 0 ≤ v < 10 ^ Z.of_nat (S w) →
  0 ≤ v / 10 ^ Z.of_nat w ≤ 9 ∧
  0 ≤ v mod 10 ^ Z.of_nat w < 10 ^ Z.of_nat w ∧
  v = v / 10 ^ Z.of_nat w * 10 ^ Z.of_nat w + v mod 10 ^ Z.of_nat w.
Proof.
  rewrite pow10_succ. pose proof (pow10_pos w) as Hp.
  set (p := 10 ^ Z.of_nat w) in *. intros Hv.
  pose proof (Z.div_mod v p ltac:(lia)) as Hdm.
  pose proof (Z.mod_pos_bound v p Hp) as Hm.
  split; [|split; [done|lia]].
  split; [apply Z.div_pos; lia|].
  assert (v / p < 10); [|lia]. apply Z.div_lt_upper_bound; lia.
Qed.

Lemma length_zfill w v : String.length (zfill w v) = w.
Proof. revert v. induction w as [|w IH]; intros v; simpl; [done|]. by rewrite IH. Qed.

Lemma parse_digits_zfill w v rest : 0 ≤ v < 10 ^ Z.of_nat w →
  parse_digits w (zfill w v +:+ rest) = Some (v, rest).
Proof.
  revert v. induction w as [|w IH]; intros v Hv.
  - simpl in *. rewrite app_empty_l. f_equal. f_equal. lia.
  - destruct (split_field w v Hv) as (Hd & Hm & Heq).
    cbn [zfill parse_digits]. rewrite app_String.
    rewrite digit_val_digit_char by done. cbn [mbind option_bind].
    rewrite IH by done. cbn. by rewrite <- Heq.
Qed.

Lemma compare_zfill w a b s t :
  0 ≤ a < 10 ^ Z.of_nat w → 0 ≤ b < 10 ^ Z.of_nat w →
  String.compare (zfill w a +:+ s) (zfill w b +:+ t)
  = match a ?= b with Eq => String.compare s t | c => c end.
Proof.
  revert a b. induction w as [|w IH]; intros a b Ha Hb.
  - simpl in Ha, Hb. assert (a = 0) as -> by lia. assert (b = 0) as -> by lia.
    done.
  - destruct (split_field w a Ha) as (Hda & Hma & Heqa).
    destruct (split_field w b Hb) as (Hdb & Hmb & Heqb).
    pose proof (pow10_pos w) as Hp.
    cbn [zfill]. rewrite !app_String. cbn [String.compare].
    rewrite compare_digit_char by done.
    set (p := 10 ^ Z.of_nat w) in *.
    destruct (Z.compare_spec (a / p) (b / p)) as [Hq|Hq|Hq].
    + rewrite IH by done.
      assert ((a ?= b) = (a mod p ?= b mod p)) as ->; [|done].
      rewrite Heqa, Heqb at 1. rewrite Hq. apply Z.add_compare_mono_l.
    + assert (a < b) as ->%Z.compare_lt_iff; [nia|done].
    + assert (b < a) as ->%Z.compare_gt_iff; [nia|done].
Qed.

(** A byte that is no digit is not found among the digits of a field. *)
Lemma find_zfill c w v rest : digit_val c = None → 0 ≤ v < 10 ^ Z.of_nat w →
  find c (zfill w v +:+ rest)
  = '(a, b) ← find c rest; Some (zfill w v +:+ a, b).
Proof.
  intros Hc. revert v. induction w as [|w IH]; intros v Hv.
  - simpl. rewrite app_empty_l. destruct (find c rest) as [[a b]|]; done.
  - destruct (split_field w v Hv) as (Hd & Hm & Heq).
    cbn [zfill]. rewrite app_String. cbn [find].
    destruct (Ascii.eqb_spec c (digit_char (v / 10 ^ Z.of_nat w))) as [->|_].
    { rewrite digit_val_digit_char in Hc by done. done. }
    rewrite IH by done. destruct (find c rest) as [[a b]|]; done.
Qed.

End TextFacts.

(* ===================================================================== *)
(** * Properties of dates and times *)
(* ===================================================================== *)

Module DatetimeFacts.
Import Text TextFacts Datetime.
Local Open Scope Z_scope.

Lemma days_before_year_succ y :
  days_before_year (y + 1)
  = days_before_year y + 365 + (if is_leap y then 1 else 0).
Proof.
  unfold days_before_year, is_leap.
  replace (y + 1 - 1) with y by lia.
  destruct (y mod 4 =? 0) eqn:H4; destruct (y mod 100 =? 0) eqn:H100;
    destruct (y mod 400 =? 0) eqn:H400; cbn [andb orb negb];
    Z.div_mod_to_equations; lia.
Qed.

Lemma days_before_year_mono y1 y2 : y1 ≤ y2 →
  days_before_year y1 ≤ days_before_year y2.
Proof.
  unfold days_before_year. intros H. Z.div_mod_to_equations. lia.
Qed.

Lemma month_cases m : 1 ≤ m ≤ 12 →
  m = 1 ∨ m = 2 ∨ m = 3 ∨ m = 4 ∨ m = 5 ∨ m = 6 ∨ m = 7 ∨ m = 8 ∨ m = 9
  ∨ m = 10 ∨ m = 11 ∨ m = 12.
Proof. lia. Qed.

Ltac each_month m H :=
  destruct (month_cases m H)
    as [->|[->|[->|[->|[->|[->|[->|[->|[->|[->|[->| ->]]]]]]]]]]].

Lemma check_date_fields_spec y m d :
  check_date_fields y m d = true ↔
  1 ≤ y ≤ 9999 ∧ 1 ≤ m ≤ 12 ∧ 1 ≤ d ≤ days_in_month y m.
Proof. unfold check_date_fields. rewrite !andb_true_iff, !Z.leb_le. lia. Qed.

Lemma check_time_fields_spec h mi s us :
  check_time_fields h mi s us = true ↔
  0 ≤ h ≤ 23 ∧ 0 ≤ mi ≤ 59 ∧ 0 ≤ s ≤ 59 ∧ 0 ≤ us ≤ 999999.
Proof. unfold check_time_fields. rewrite !andb_true_iff, !Z.leb_le. lia. Qed.

Lemma days_in_month_bound y m : 1 ≤ m ≤ 12 → 28 ≤ days_in_month y m ≤ 31.
Proof.
  intros Hm. unfold days_in_month.
  each_month m Hm; destruct (is_leap y); simpl; lia.
Qed.

(** Within a year the ordinal runs through the months in order and stays
    within the length of the year. *)
Lemma days_before_month_step y m : 1 ≤ m ≤ 11 →
  days_before_month y m + days_in_month y m = days_before_month y (m + 1).
Proof.
  intros Hm. unfold days_before_month, days_in_month.
  assert (1 ≤ m ≤ 12) as Hm' by lia.
  each_month m Hm'; try lia; destruct (is_leap y); simpl; lia.
Qed.

Lemma days_before_month_mono y m1 m2 : 1 ≤ m1 → m1 ≤ m2 → m2 ≤ 12 →
  days_before_month y m1 ≤ days_before_month y m2.
Proof.
  intros H1 H12 H2. unfold days_before_month.
  assert (1 ≤ m1 ≤ 12) as Hm1 by lia. assert (1 ≤ m2 ≤ 12) as Hm2 by lia.
  each_month m1 Hm1; each_month m2 Hm2; try lia;
    destruct (is_leap y); simpl; lia.
Qed.

Lemma days_before_month_range y m d :
  1 ≤ m ≤ 12 → 1 ≤ d ≤ days_in_month y m →
  1 ≤ days_before_month y m + d ≤ 365 + (if is_leap y then 1 else 0).
Proof.
  intros Hm. unfold days_before_month, days_in_month.
  each_month m Hm; destruct (is_leap y); simpl; lia.
Qed.

(** [date.__gt__] and friends agree with the order of the ordinals. *)
Lemma date_compare_ord a b : valid_date a = true → valid_date b = true →
  date_compare a b
  = (ymd2ord (year a) (month a) (day a) ?= ymd2ord (year b) (month b) (day b)).
Proof.
  destruct a as [y1 m1 d1], b as [y2 m2 d2]. unfold valid_date. cbn.
  rewrite !check_date_fields_spec. intros (Hy1 & Hm1 & Hd1) (Hy2 & Hm2 & Hd2).
  unfold date_compare, ymd2ord. cbn.
  pose proof (days_before_month_range y1 m1 d1 Hm1 Hd1) as R1.
  pose proof (days_before_month_range y2 m2 d2 Hm2 Hd2) as R2.
  destruct (Z.compare_spec y1 y2) as [->|Hy|Hy].
  - destruct (Z.compare_spec m1 m2) as [->|Hm|Hm].
    + symmetry. apply Z.add_compare_mono_l.
    + symmetry. apply Z.compare_lt_iff.
      pose proof (days_before_month_step y2 m1 ltac:(lia)).
      pose proof (days_before_month_mono y2 (m1 + 1) m2 ltac:(lia) ltac:(lia) ltac:(lia)).
      lia.
    + symmetry. apply Z.compare_gt_iff.
      pose proof (days_before_month_step y2 m2 ltac:(lia)).
      pose proof (days_before_month_mono y2 (m2 + 1) m1 ltac:(lia) ltac:(lia) ltac:(lia)).
      lia.
  - symmetry. apply Z.compare_lt_iff.
    pose proof (days_before_year_succ y1).
    pose proof (days_before_year_mono (y1 + 1) y2 ltac:(lia)). lia.
  - symmetry. apply Z.compare_gt_iff.
    pose proof (days_before_year_succ y2).
    pose proof (days_before_year_mono (y2 + 1) y1 ltac:(lia)). lia.
Qed.

Lemma date_gt_ord a b : valid_date a = true → valid_date b = true →
  date_gt a b = true ↔
  ymd2ord (year b) (month b) (day b) < ymd2ord (year a) (month a) (day a).
Proof.
  intros Ha Hb. unfold date_gt. rewrite date_compare_ord by done.
  destruct (Z.compare_spec (ymd2ord (year a) (month a) (day a))
                           (ymd2ord (year b) (month b) (day b))); split;
    (done || lia).
Qed.

(** ** Reading back what [isoformat] wrote *)

Lemma date_field_bounds d : valid_date d = true →
  0 ≤ year d < 10 ^ Z.of_nat 4 ∧ 0 ≤ month d < 10 ^ Z.of_nat 2
  ∧ 0 ≤ day d < 10 ^ Z.of_nat 2.
Proof.
  unfold valid_date. rewrite check_date_fields_spec. intros (Hy & Hm & Hd).
  pose proof (days_in_month_bound (year d) (month d) Hm).
  change (10 ^ Z.of_nat 4) with 10000. change (10 ^ Z.of_nat 2) with 100. lia.
Qed.

Lemma date_isoformat_app d rest :
  date_isoformat d +:+ rest
  = zfill 4 (year d) +:+ "-" +:+ zfill 2 (month d) +:+ "-"
    +:+ zfill 2 (day d) +:+ rest.
Proof. unfold date_isoformat. by rewrite !app_assoc. Qed.

Lemma parse_isoformat_date_isoformat d rest : valid_date d = true →
  parse_isoformat_date (date_isoformat d +:+ rest)
  = Some (year d, month d, day d, rest).
Proof.
  intros (Hy & Hm & Hd)%date_field_bounds. rewrite date_isoformat_app.
  unfold parse_isoformat_date.
  rewrite parse_digits_zfill by done. cbn [mbind option_bind].
  rewrite app_String, app_empty_l. cbn [expect Ascii.eqb Bool.eqb mbind option_bind].
  rewrite parse_digits_zfill by done. cbn [mbind option_bind].
  rewrite app_String, app_empty_l. cbn [expect Ascii.eqb Bool.eqb mbind option_bind].
  rewrite parse_digits_zfill by done. done.
Qed.

Lemma date_fromisoformat_isoformat d : valid_date d = true →
  date_fromisoformat (date_isoformat d) = Some d.
Proof.
  intros Hd. unfold date_fromisoformat.
  rewrite <- (app_empty_r (date_isoformat d)).
  rewrite parse_isoformat_date_isoformat by done. cbn.
  unfold valid_date in Hd. rewrite Hd. by destruct d.
Qed.

Lemma find_app_None c s t : find c s = None →
  find c (s +:+ t) = '(a, b) ← find c t; Some (s +:+ a, b).
Proof.
  induction s as [|c' s IH]; intros H.
  - rewrite app_empty_l. by destruct (find c t) as [[??]|].
  - rewrite app_String. cbn [find] in *.
    destruct (Ascii.eqb c c'); [done|].
    destruct (find c s) as [[??]|]; [done|].
    rewrite IH by done. by destruct (find c t) as [[??]|].
Qed.

Lemma find_zfill_None c w v : digit_val c = None → 0 ≤ v < 10 ^ Z.of_nat w →
  find c (zfill w v) = None.
Proof.
  intros Hc Hv. rewrite <- (app_empty_r (zfill w v)).
  by rewrite find_zfill.
Qed.

Lemma find_String_ne c c' s : Ascii.eqb c c' = false →
  find c (String c' s) = '(a, b) ← find c s; Some (String c' a, b).
Proof. intros H. cbn [find]. by rewrite H. Qed.

Lemma time_char_minus : time_char "-".
Proof. done. Qed.

Lemma time_char_plus : time_char "+".
Proof. done. Qed.

Lemma time_field_bounds h mi s us : check_time_fields h mi s us = true →
  0 ≤ h < 10 ^ Z.of_nat 2 ∧ 0 ≤ mi < 10 ^ Z.of_nat 2
  ∧ 0 ≤ s < 10 ^ Z.of_nat 2 ∧ 0 ≤ us < 10 ^ Z.of_nat 6.
Proof.
  rewrite check_time_fields_spec.
  change (10 ^ Z.of_nat 2) with 100. change (10 ^ Z.of_nat 6) with 1000000.
  lia.
Qed.

(** The fractional part printed after the seconds. *)
Lemma find_fraction_None c us : time_char c → 0 ≤ us < 10 ^ Z.of_nat 6 →
  find c (if us =? 0 then "" else "." +:+ zfill 6 us) = None.
Proof.
  intros (Hd & _ & Hdot) Hus. destruct (us =? 0); [done|].
  rewrite app_String, app_empty_l, find_String_ne by done.
  by rewrite find_zfill_None.
Qed.

Lemma find_hh_mm_ss c h mi s tail :
  time_char c → 0 ≤ h < 10 ^ Z.of_nat 2 → 0 ≤ mi < 10 ^ Z.of_nat 2 →
  0 ≤ s < 10 ^ Z.of_nat 2 → find c tail = None →
  find c (zfill 2 h +:+ ":" +:+ zfill 2 mi +:+ ":" +:+ zfill 2 s +:+ tail)
  = None.
Proof.
  intros (Hd & Hcolon & _) Hh Hmi Hs Htail.
  rewrite find_zfill, app_String, app_empty_l, find_String_ne by done.
  rewrite find_zfill, app_String, app_empty_l, find_String_ne by done.
  rewrite find_zfill by done. by rewrite Htail.
Qed.

Lemma find_format_time_None c h mi s us :
  time_char c → check_time_fields h mi s us = true →
  find c (format_time h mi s us) = None.
Proof.
  intros Hc (Hh & Hmi & Hs & Hus)%time_field_bounds. unfold format_time.
  apply find_hh_mm_ss; [done..|]. by apply find_fraction_None.
Qed.

Lemma parse_fraction_zfill us : 0 ≤ us < 10 ^ Z.of_nat 6 →
  parse_fraction (zfill 6 us) = Some us.
Proof.
  intros Hus. unfold parse_fraction. rewrite length_zfill.
  rewrite <- (app_empty_r (zfill 6 us)).
  by rewrite parse_digits_zfill.
Qed.

Lemma parse_hh_mm_ss_ff_full h mi s us :
  0 ≤ h < 10 ^ Z.of_nat 2 → 0 ≤ mi < 10 ^ Z.of_nat 2 →
  0 ≤ s < 10 ^ Z.of_nat 2 → 0 ≤ us < 10 ^ Z.of_nat 6 →
  parse_hh_mm_ss_ff
    (zfill 2 h +:+ ":" +:+ zfill 2 mi +:+ ":" +:+ zfill 2 s
     +:+ (if us =? 0 then "" else "." +:+ zfill 6 us))
  = Some (h, mi, s, us).
Proof.
  intros Hh Hmi Hs Hus. unfold parse_hh_mm_ss_ff.
  rewrite parse_digits_zfill by done. cbn [mbind option_bind].
  rewrite app_String, app_empty_l. cbn [Ascii.eqb Bool.eqb negb].
  rewrite parse_digits_zfill by done. cbn [mbind option_bind].
  rewrite app_String, app_empty_l. cbn [Ascii.eqb Bool.eqb negb].
  destruct (Z.eqb_spec us 0) as [->|Hne].
  - rewrite parse_digits_zfill by done. done.
  - rewrite parse_digits_zfill by done. cbn [mbind option_bind].
    rewrite app_String, app_empty_l. cbn [Ascii.eqb Bool.eqb negb].
    rewrite parse_fraction_zfill by done. done.
Qed.

Lemma parse_hh_mm_ss_ff_format_time h mi s us :
  check_time_fields h mi s us = true →
  parse_hh_mm_ss_ff (format_time h mi s us) = Some (h, mi, s, us).
Proof.
  intros (Hh & Hmi & Hs & Hus)%time_field_bounds.
  by apply parse_hh_mm_ss_ff_full.
Qed.

(** The text of an offset after its sign: [HH:MM], [HH:MM:SS] or
    [HH:MM:SS.ffffff]. *)
Lemma format_offset_Some off :
  format_offset (Some off)
  = String (if off <? 0 then "-"%char else "+"%char)
      (let a := Z.abs off in
       zfill 2 (a / 3600000000) +:+ ":"
       +:+ zfill 2 ((a mod 3600000000) / 60000000)
       +:+ (if a mod 60000000 =? 0 then ""
            else ":" +:+ zfill 2 (a mod 60000000 / 1000000)
                 +:+ (if a mod 60000000 mod 1000000 =? 0 then ""
                      else "." +:+ zfill 6 (a mod 60000000 mod 1000000)))).
Proof. unfold format_offset. by destruct (off <? 0). Qed.

Lemma offset_field_bounds a : 0 ≤ a < DAY_US →
  0 ≤ a / 3600000000 < 10 ^ Z.of_nat 2
  ∧ 0 ≤ a mod 3600000000 / 60000000 < 10 ^ Z.of_nat 2
  ∧ 0 ≤ a mod 60000000 / 1000000 < 10 ^ Z.of_nat 2
  ∧ 0 ≤ a mod 60000000 mod 1000000 < 10 ^ Z.of_nat 6
  ∧ a = (a / 3600000000 * 3600 + a mod 3600000000 / 60000000 * 60
         + a mod 60000000 / 1000000) * 1000000
        + a mod 60000000 mod 1000000
  ∧ (a mod 60000000 = 0 ↔
     a mod 60000000 / 1000000 = 0 ∧ a mod 60000000 mod 1000000 = 0).
Proof.
  unfold DAY_US. change (10 ^ Z.of_nat 2) with 100.
  change (10 ^ Z.of_nat 6) with 1000000. intros Ha.
  Z.div_mod_to_equations. lia.
Qed.

Section offset_text.
Variable a : Z.
Hypothesis Ha : 0 ≤ a < DAY_US.

Let body : string :=
  zfill 2 (a / 3600000000) +:+ ":"
  +:+ zfill 2 ((a mod 3600000000) / 60000000)
  +:+ (if a mod 60000000 =? 0 then ""
       else ":" +:+ zfill 2 (a mod 60000000 / 1000000)
            +:+ (if a mod 60000000 mod 1000000 =? 0 then ""
                 else "." +:+ zfill 6 (a mod 60000000 mod 1000000))).

Lemma length_offset_text :
  String.length body = 5%nat ∨ String.length body = 8%nat
  ∨ String.length body = 15%nat.
Proof using Type.
  unfold body.
  destruct (a mod 60000000 =? 0);
    [|destruct (a mod 60000000 mod 1000000 =? 0)];
    rewrite ?length_app, ?length_zfill; cbn; auto.
Qed.

Lemma parse_offset_text :
  parse_hh_mm_ss_ff body
  = Some (a / 3600000000, a mod 3600000000 / 60000000,
          a mod 60000000 / 1000000, a mod 60000000 mod 1000000).
Proof using Ha.
  destruct (offset_field_bounds a Ha) as (Hh & Hm & Hs & Hu & _ & Hz).
  unfold body, parse_hh_mm_ss_ff.
  rewrite parse_digits_zfill by done. cbn [mbind option_bind].
  rewrite app_String, app_empty_l. cbn [Ascii.eqb Bool.eqb negb].
  destruct (Z.eqb_spec (a mod 60000000) 0) as [Hss|Hss].
  - rewrite parse_digits_zfill by done. cbn.
    apply Hz in Hss as [-> ->]. done.
  - rewrite parse_digits_zfill by done. cbn [mbind option_bind].
    rewrite app_String, app_empty_l. cbn [Ascii.eqb Bool.eqb negb].
    destruct (Z.eqb_spec (a mod 60000000 mod 1000000) 0) as [Hus|Hus].
    + rewrite parse_digits_zfill by done. cbn. by rewrite Hus.
    + rewrite parse_digits_zfill by done. cbn [mbind option_bind].
      rewrite app_String, app_empty_l. cbn [Ascii.eqb Bool.eqb negb].
      by rewrite parse_fraction_zfill.
Qed.

Lemma find_offset_text c : time_char c → find c body = None.
Proof using Ha.
  intros Hc.
  destruct (offset_field_bounds a Ha) as (Hh & Hm & Hs & Hu & _ & _).
  destruct Hc as (Hd & Hcolon & Hdot). unfold body.
  rewrite find_zfill, app_String, app_empty_l, find_String_ne by done.
  rewrite find_zfill by done.
  destruct (a mod 60000000 =? 0); [done|].
  rewrite app_String, app_empty_l, find_String_ne by done.
  rewrite find_zfill by done.
  destruct (a mod 60000000 mod 1000000 =? 0); [done|].
  rewrite app_String, app_empty_l, find_String_ne by done.
  by rewrite find_zfill_None.
Qed.
End offset_text.

(** An offset of a second and more has a whole second in its text. *)
Lemma offset_seconds a : 0 ≤ a < DAY_US →
  a = (a / 3600000000 * 3600 + a mod 3600000000 / 60000000 * 60
       + a mod 60000000 / 1000000) * 1000000
      + a mod 60000000 mod 1000000
  ∧ (a / 3600000000 * 3600 + a mod 3600000000 / 60000000 * 60
     + a mod 60000000 / 1000000 = 0 ↔ a < 1000000).
Proof. unfold DAY_US. intros Ha. Z.div_mod_to_equations. lia. Qed.

Lemma read_offset_text off (neg : bool) :
  - DAY_US < off < DAY_US → neg = (off <? 0) →
  let a := Z.abs off in
  let tzoffset := a / 3600000000 * 3600 + a mod 3600000000 / 60000000 * 60
                  + a mod 60000000 / 1000000 in
  let td := if tzoffset =? 0 then 0
            else tzoffset * 1000000 + a mod 60000000 mod 1000000 in
  (if neg then - td else td) = if Z.abs off <? 1000000 then 0 else off.
Proof.
  intros Hoff -> a tzoffset td.
  assert (0 ≤ a < DAY_US) as Ha by (unfold a; lia).
  destruct (offset_seconds a Ha) as [Heq [Hz1 Hz2]].
  fold tzoffset in Heq, Hz1, Hz2. fold a. unfold td.
  destruct (Z.eqb_spec tzoffset 0) as [H0|H0],
    (Z.ltb_spec a 1000000) as [H1|H1], (Z.ltb_spec off 0);
    unfold a in *; lia.
Qed.

(** A time without a sign, followed by an offset as [isoformat] writes it:
    the offset is read as UTC when it is shorter than a second. *)
Lemma parse_isoformat_time_offset timestr h mi s us tz :
  find "-" timestr = None → find "+" timestr = None →
  parse_hh_mm_ss_ff timestr = Some (h, mi, s, us) →
  check_tzinfo tz = true →
  parse_isoformat_time (timestr +:+ format_offset tz)
  = Some (h, mi, s, us,
          match tz with
          | Some off => Some (if Z.abs off <? 1000000 then 0 else off)
          | None => None
          end).
Proof.
  intros Fm Fp Hp Htz. unfold parse_isoformat_time, split_tz.
  destruct tz as [off|].
  - cbn in Htz. apply andb_true_iff in Htz as [Hlo%Z.ltb_lt Hhi%Z.ltb_lt].
    assert (0 ≤ Z.abs off < DAY_US) as Ha by lia.
    rewrite format_offset_Some. cbv zeta.
    pose proof (length_offset_text (Z.abs off)) as Hlen.
    pose proof (parse_offset_text (Z.abs off) Ha) as Hparse.
    pose proof (find_offset_text (Z.abs off) Ha "-" time_char_minus) as Hfm.
    cbv zeta in Hlen, Hparse, Hfm.
    set (body := (zfill 2 (Z.abs off / 3600000000) +:+ _)%string) in *.
    rewrite (find_app_None "-") by done.
    destruct (Z.ltb_spec off 0) as [Hneg|Hpos].
    + cbn [find Ascii.eqb Bool.eqb mbind option_bind]. rewrite app_empty_r.
      rewrite Hp. cbn [mbind option_bind].
      assert (negb ((String.length body =? 5)%nat || (String.length body =? 8)%nat
                    || (String.length body =? 15)%nat) = false) as ->.
      { destruct Hlen as [->|[->| ->]]; done. }
      rewrite Hparse. cbn [mbind option_bind]. do 3 f_equal.
      apply (read_offset_text off true); [lia|].
      symmetry. by apply Z.ltb_lt.
    + rewrite find_String_ne by done. rewrite Hfm. cbn [mbind option_bind].
      rewrite (find_app_None "+") by done.
      cbn [find Ascii.eqb Bool.eqb mbind option_bind]. rewrite app_empty_r.
      rewrite Hp. cbn [mbind option_bind].
      assert (negb ((String.length body =? 5)%nat || (String.length body =? 8)%nat
                    || (String.length body =? 15)%nat) = false) as ->.
      { destruct Hlen as [->|[->| ->]]; done. }
      rewrite Hparse. cbn [mbind option_bind]. do 3 f_equal.
      apply (read_offset_text off false); [lia|].
      symmetry. by apply Z.ltb_ge.
  - cbn [format_offset]. rewrite app_empty_r, Fm, Fp. by rewrite Hp.
Qed.

Lemma parse_isoformat_time_format h mi s us tz :
  check_time_fields h mi s us = true → check_tzinfo tz = true →
  whole_offset tz = true →
  parse_isoformat_time (format_time h mi s us +:+ format_offset tz)
  = Some (h, mi, s, us, tz).
Proof.
  intros Ht Htz Hw.
  rewrite (parse_isoformat_time_offset _ h mi s us tz);
    [|by apply find_format_time_None; [apply time_char_minus|]
     |by apply find_format_time_None; [apply time_char_plus|]
     |by apply parse_hh_mm_ss_ff_format_time|done].
  destruct tz as [off|]; [|done]. do 3 f_equal.
  cbn in Hw. apply orb_true_iff in Hw as [->%Z.eqb_eq|Hge%Z.leb_le]; [done|].
  destruct (Z.ltb_spec (Z.abs off) 1000000); [lia|done].
Qed.

(** [fromisoformat] reads back every text written by [isoformat]. *)
Lemma datetime_fromisoformat_isoformat dt : valid_datetime dt = true →
  datetime_fromisoformat (datetime_isoformat dt) = Some dt.
Proof.
  intros [Hc Hw]%andb_true_iff. pose proof Hc as Hc'.
  unfold check_datetime in Hc'.
  apply andb_true_iff in Hc' as [[Hd Ht]%andb_true_iff Htz].
  unfold datetime_fromisoformat, datetime_isoformat.
  rewrite parse_isoformat_date_isoformat by done. cbn [mbind option_bind].
  rewrite app_String, app_empty_l.
  rewrite parse_isoformat_time_format by done. cbn [mbind option_bind].
  destruct dt as [[y m d] h mi s us tz]. cbn in *. by rewrite Hc.
Qed.

Lemma digit_val_nonneg c d : digit_val c = Some d → 0 ≤ d.
Proof.
  unfold digit_val.
  destruct ((48 <=? Z.of_N (N_of_ascii c)) && (Z.of_N (N_of_ascii c) <=? 57))
    eqn:Hc; [|done].
  intros [= <-]. apply andb_true_iff in Hc as [H%Z.leb_le _]. lia.
Qed.

Lemma parse_digits_nonneg w s v rest :
  parse_digits w s = Some (v, rest) → 0 ≤ v.
Proof.
  revert s v rest. induction w as [|w IH]; intros s v rest H.
  - by injection H as <- _.
  - cbn [parse_digits] in H. destruct s as [|c s]; [done|].
    destruct (digit_val c) as [d|] eqn:Hd; [|done].
    cbn [mbind option_bind] in H.
    destruct (parse_digits w s) as [[v' rest']|] eqn:Hp; [|done].
    injection H as <- _. apply digit_val_nonneg in Hd. apply IH in Hp.
    assert (0 ≤ 10 ^ Z.of_nat w) by (apply Z.pow_nonneg; lia). nia.
Qed.

Lemma parse_fraction_nonneg s us : parse_fraction s = Some us → 0 ≤ us.
Proof.
  unfold parse_fraction. intros H.
  destruct (String.length s) as [|[|[|[|[|[|[|n]]]]]]]; try done.
  - destruct (parse_digits 3 s) as [[v r]|] eqn:Hp; [|done].
    injection H as <-. apply parse_digits_nonneg in Hp. lia.
  - destruct (parse_digits 6 s) as [[v r]|] eqn:Hp; [|done].
    injection H as <-. by apply parse_digits_nonneg in Hp.
Qed.

Lemma parse_hh_mm_ss_ff_nonneg t h mi s us :
  parse_hh_mm_ss_ff t = Some (h, mi, s, us) →
  0 ≤ h ∧ 0 ≤ mi ∧ 0 ≤ s ∧ 0 ≤ us.
Proof.
  unfold parse_hh_mm_ss_ff. intros H.
  destruct (parse_digits 2 t) as [[hh s1]|] eqn:H1; [|done].
  apply parse_digits_nonneg in H1. cbn [mbind option_bind] in H.
  destruct s1 as [|c1 s2]; [by injection H as <- <- <- <-|].
  destruct (negb (Ascii.eqb c1 ":")); [done|].
  destruct (parse_digits 2 s2) as [[mm s3]|] eqn:H2; [|done].
  apply parse_digits_nonneg in H2. cbn [mbind option_bind] in H.
  destruct s3 as [|c2 s4]; [by injection H as <- <- <- <-|].
  destruct (negb (Ascii.eqb c2 ":")); [done|].
  destruct (parse_digits 2 s4) as [[ss s5]|] eqn:H3; [|done].
  apply parse_digits_nonneg in H3. cbn [mbind option_bind] in H.
  destruct s5 as [|c3 s6]; [by injection H as <- <- <- <-|].
  destruct (negb (Ascii.eqb c3 ".")); [done|].
  destruct (parse_fraction s6) as [u|] eqn:H4; [|done].
  apply parse_fraction_nonneg in H4. by injection H as <- <- <- <-.
Qed.

(** [fromisoformat] builds no offset of less than a second but zero. *)
Lemma parse_isoformat_time_whole_offset tstr h mi s us tz :
  parse_isoformat_time tstr = Some (h, mi, s, us, tz) →
  whole_offset tz = true.
Proof.
  unfold parse_isoformat_time. destruct (split_tz tstr) as [timestr o].
  intros H.
  destruct (parse_hh_mm_ss_ff timestr) as [[[[hh mm] ss] u]|]; [|done].
  cbn [mbind option_bind] in H.
  destruct o as [[neg tzstr]|]; [|by injection H as <- <- <- <- <-].
  destruct (negb _); [done|].
  destruct (parse_hh_mm_ss_ff tzstr) as [[[[th tm] ts] tu]|] eqn:Hp; [|done].
  apply parse_hh_mm_ss_ff_nonneg in Hp as (Hh & Hm & Hs & Hu).
  cbn [mbind option_bind] in H. cbv zeta in H. injection H as <- <- <- <- <-.
  cbn [whole_offset]. apply orb_true_iff.
  destruct (Z.eqb_spec (th * 3600 + tm * 60 + ts) 0) as [H0|H0].
  - left. apply Z.eqb_eq. by destruct neg.
  - right. apply Z.leb_le. destruct neg; lia.
Qed.

(** What [fromisoformat] returns is a valid [datetime]. *)
Lemma datetime_fromisoformat_valid s dt :
  datetime_fromisoformat s = Some dt → valid_datetime dt = true.
Proof.
  unfold datetime_fromisoformat. intros H.
  destruct (parse_isoformat_date s) as [[[[y m] d] rest]|]; [|done].
  cbn [mbind option_bind] in H.
  destruct (match rest with EmptyString => _ | String _ tstr => _ end)
    as [[[[[h mi] sec] us] tz]|] eqn:Ht; [|done].
  cbn [mbind option_bind] in H.
  destruct (check_datetime _) eqn:Hv; [|done]. injection H as <-.
  unfold valid_datetime. rewrite Hv. cbn [andb tzinfo].
  destruct rest as [|c tstr]; [by injection Ht as <- <- <- <- <-|].
  by eapply parse_isoformat_time_whole_offset.
Qed.
End DatetimeFacts.

(* ===================================================================== *)
(** * The order of the stored texts *)
(* ===================================================================== *)

Module OrderFacts.
Import Text TextFacts Datetime DatetimeFacts.
Local Open Scope Z_scope.

Lemma compare_refl s : String.compare s s = Eq.
Proof.
  induction s as [|c s IH]; [done|]. cbn [String.compare].
  unfold Ascii.compare. by rewrite N.compare_refl.
Qed.

Lemma compare_String_same c s t :
  String.compare (String c s) (String c t) = String.compare s t.
Proof. cbn [String.compare]. unfold Ascii.compare. by rewrite N.compare_refl. Qed.

Lemma datetime_isoformat_fields dt :
  datetime_isoformat dt
  = zfill 4 (year (dt_date dt)) +:+ "-" +:+ zfill 2 (month (dt_date dt))
    +:+ "-" +:+ zfill 2 (day (dt_date dt)) +:+ "T"
    +:+ zfill 2 (hour dt) +:+ ":" +:+ zfill 2 (minute dt) +:+ ":"
    +:+ zfill 2 (second dt)
    +:+ (if microsecond dt =? 0 then "" else "." +:+ zfill 6 (microsecond dt))
    +:+ format_offset (tzinfo dt).
Proof.
  unfold datetime_isoformat, date_isoformat, format_time.
  by rewrite !app_assoc.
Qed.

(** The text of an offset is empty or starts with a sign, which sorts
    before the dot of a fraction. *)
Lemma compare_offset_dot tz s : String.compare (format_offset tz) (String "." s) = Lt.
Proof.
  destruct tz as [off|]; [|done]. rewrite format_offset_Some.
  by destruct (off <? 0).
Qed.

Lemma compare_fraction ua ub tz :
  0 ≤ ua < 10 ^ Z.of_nat 6 → 0 ≤ ub < 10 ^ Z.of_nat 6 →
  String.compare
    ((if ua =? 0 then "" else "." +:+ zfill 6 ua) +:+ format_offset tz)
    ((if ub =? 0 then "" else "." +:+ zfill 6 ub) +:+ format_offset tz)
  = (ua ?= ub).
Proof.
  intros Ha Hb.
  destruct (Z.eqb_spec ua 0) as [->|Hna]; destruct (Z.eqb_spec ub 0) as [->|Hnb].
  - by rewrite compare_refl.
  - rewrite app_empty_l, !app_String, app_empty_l, compare_offset_dot.
    symmetry. apply Z.compare_lt_iff. lia.
  - rewrite app_empty_l, !app_String, app_empty_l, String.compare_antisym,
      compare_offset_dot.
    symmetry. apply Z.compare_gt_iff. lia.
  - rewrite !app_String, !app_empty_l, compare_String_same.
    rewrite compare_zfill by done. rewrite compare_refl.
    by destruct (ua ?= ub).
Qed.

(** [ORDER BY] on the stored text orders two datetimes with the same
    offset like Python compares them. *)
Lemma compare_isoformat a b :
  valid_datetime a = true → valid_datetime b = true →
  tzinfo a = tzinfo b →
  String.compare (datetime_isoformat a) (datetime_isoformat b)
  = naive_compare a b.
Proof.
  intros [[[Hda Hta]%andb_true_iff _]%andb_true_iff _]%andb_true_iff
         [[[Hdb Htb]%andb_true_iff _]%andb_true_iff _]%andb_true_iff Htz.
  apply date_field_bounds in Hda as (Hya & Hma & Hdda).
  apply date_field_bounds in Hdb as (Hyb & Hmb & Hddb).
  apply time_field_bounds in Hta as (Hha & Hmia & Hsa & Husa).
  apply time_field_bounds in Htb as (Hhb & Hmib & Hsb & Husb).
  rewrite !datetime_isoformat_fields, Htz. unfold naive_compare, date_compare.
  rewrite compare_zfill by done.
  destruct (year (dt_date a) ?= year (dt_date b)); [|done..].
  rewrite ?app_String, ?app_empty_l, compare_String_same.
  rewrite compare_zfill by done.
  destruct (month (dt_date a) ?= month (dt_date b)); [|done..].
  rewrite ?app_String, ?app_empty_l, compare_String_same.
  rewrite compare_zfill by done.
  destruct (day (dt_date a) ?= day (dt_date b)); [|done..].
  rewrite ?app_String, ?app_empty_l, compare_String_same.
  rewrite compare_zfill by done.
  destruct (hour a ?= hour b); [|done..].
  rewrite ?app_String, ?app_empty_l, compare_String_same.
  rewrite compare_zfill by done.
  destruct (minute a ?= minute b); [|done..].
  rewrite ?app_String, ?app_empty_l, compare_String_same.
  rewrite compare_zfill by done.
  destruct (second a ?= second b); [|done..].
  by apply compare_fraction.
Qed.

(** With equal offsets the comparison of the tuples is the comparison of
    the instants. *)
Lemma naive_compare_instant a b :
  valid_datetime a = true → valid_datetime b = true →
  tzinfo a = tzinfo b →
  naive_compare a b = (instant a ?= instant b).
Proof.
  intros [[[Hda Hta]%andb_true_iff _]%andb_true_iff _]%andb_true_iff
         [[[Hdb Htb]%andb_true_iff _]%andb_true_iff _]%andb_true_iff Htz.
  unfold naive_compare, instant. rewrite Htz, date_compare_ord by done.
  apply check_time_fields_spec in Hta, Htb.
  set (oa := ymd2ord _ _ _). set (ob := ymd2ord _ _ _).
  symmetry.
  destruct (Z.compare_spec oa ob) as [Ho|Ho|Ho];
    [|apply Z.compare_lt_iff; lia|apply Z.compare_gt_iff; lia].
  destruct (Z.compare_spec (hour a) (hour b)) as [Hh|Hh|Hh];
    [|apply Z.compare_lt_iff; lia|apply Z.compare_gt_iff; lia].
  destruct (Z.compare_spec (minute a) (minute b)) as [Hm|Hm|Hm];
    [|apply Z.compare_lt_iff; lia|apply Z.compare_gt_iff; lia].
  destruct (Z.compare_spec (second a) (second b)) as [Hs|Hs|Hs];
    [|apply Z.compare_lt_iff; lia|apply Z.compare_gt_iff; lia].
  rewrite Ho, Hh, Hm, Hs.
  destruct (Z.compare_spec (microsecond a) (microsecond b));
    [apply Z.compare_eq_iff|apply Z.compare_lt_iff|apply Z.compare_gt_iff]; lia.
Qed.

Lemma leb_isoformat_instant a b :
  valid_datetime a = true → valid_datetime b = true →
  tzinfo a = tzinfo b →
  String.leb (datetime_isoformat a) (datetime_isoformat b) = true →
  instant a ≤ instant b.
Proof.
  intros Ha Hb Htz. unfold String.leb.
  rewrite compare_isoformat, naive_compare_instant by done.
  destruct (Z.compare_spec (instant a) (instant b)); (done || lia).
Qed.
End OrderFacts.

(* ===================================================================== *)
(** * Properties of [ORDER BY] *)
(* ===================================================================== *)

Module SqliteFacts.
Import Sqlite.

Section order_by.
Context {A : Type} (key : A → string).

Let le (a b : A) : Prop := String.leb (key a) (key b) = true.

Lemma sort_insert_Permutation x l : sort_insert key x l ≡ₚ x :: l.
Proof.
  induction l as [|y l IH]; [done|]. cbn.
  destruct (String.leb (key x) (key y)); [done|].
  rewrite IH. apply perm_swap.
Qed.

Lemma order_by_Permutation l : order_by key l ≡ₚ l.
Proof.
  induction l as [|x l IH]; [done|]. unfold order_by in *. cbn.
  by rewrite sort_insert_Permutation, IH.
Qed.

Lemma sort_insert_HdRel y x l :
  le y x → HdRel le y l → HdRel le y (sort_insert key x l).
Proof.
  intros Hyx Hl. destruct l as [|z l]; cbn; [by constructor|].
  destruct (String.leb (key x) (key z)); constructor; [done|].
  by inversion Hl.
Qed.

Lemma sort_insert_Sorted x l : Sorted le l → Sorted le (sort_insert key x l).
Proof.
  induction 1 as [|y l Hl IH Hhd]; cbn; [by repeat constructor|].
  destruct (String.leb (key x) (key y)) eqn:Hxy.
  - constructor; [by constructor|by constructor].
  - constructor; [done|]. apply sort_insert_HdRel; [|done].
    unfold le. by destruct (String.leb_total (key x) (key y)); [congruence|].
Qed.

(** [ORDER BY] returns the rows in ascending order of the text. *)
Lemma order_by_Sorted l : Sorted le (order_by key l).
Proof.
  induction l as [|x l IH]; [constructor|]. by apply sort_insert_Sorted.
Qed.
End order_by.

Lemma Sorted_map_impl {A B} (R : A → A → Prop) (R' : B → B → Prop)
    (f : A → B) (P : A → Prop) l :
  (∀ a b, P a → P b → R a b → R' (f a) (f b)) →
  Forall P l → Sorted R l → Sorted R' (map f l).
Proof.
  intros Himpl HP HS. induction HS as [|x l Hl IH Hhd]; [constructor|].
  inversion HP as [|?? Hx HPl]; subst. cbn. constructor; [by apply IH|].
  destruct Hhd as [|y l' Hxy]; constructor.
  inversion HPl; subst. by apply Himpl.
Qed.

End SqliteFacts.

(* ===================================================================== *)
(** * Properties of the application *)
(* ===================================================================== *)

Module AppFacts.
Import Py Datetime DatetimeFacts OrderFacts SqliteFacts App Spec.
Local Open Scope Z_scope.

Lemma printed_nil w : printed [] w = w.
Proof. destruct w. unfold printed. cbn. by rewrite app_nil_r. Qed.

(** A loop whose body prints one line per row. *)
Lemma for_each_printed_from {A} (l : list A) (body : A → M unit)
    (g : A → output) w os :
  (∀ r os', r ∈ l →
     body r (printed os' w) = (Ok tt, printed (os' ++ [g r]) w)) →
  for_each l body (printed os w) = (Ok tt, printed (os ++ map g l) w).
Proof.
  revert os. induction l as [|x l IH]; intros os Hbody.
  - cbn. by rewrite app_nil_r.
  - cbn [for_each]. unfold bind at 1.
    rewrite Hbody by apply list_elem_of_here.
    rewrite IH.
    + cbn [map]. by rewrite <- app_assoc.
    + intros r os' Hr. apply Hbody. by apply list_elem_of_further.
Qed.

Lemma for_each_printed {A} (l : list A) (body : A → M unit) (g : A → output) w :
  (∀ r os, r ∈ l →
     body r (printed os w) = (Ok tt, printed (os ++ [g r]) w)) →
  for_each l body w = (Ok tt, printed (map g l) w).
Proof.
  intros Hbody. rewrite <- (printed_nil w) at 1.
  by rewrite (for_each_printed_from l body g w []).
Qed.

(** ** Listings *)

Lemma list_events_spec w d : db w = Some d →
  list_events w
  = (Ok tt, printed (map (λ r, Line (event_line r)) (listed_events d))
                    (traced [Call F_list_events] w)).
Proof.
  intros Hd. destruct w as [? f now u c tr]. cbn in Hd. subst.
  unfold list_events, bind, log, get_db. cbn.
  apply (for_each_printed _ _ (λ r, Line (event_line r))).
  intros r os _. unfold print, printed. cbn. by rewrite app_assoc.
Qed.

Lemma annotation_canonical now due :
  valid_date now = true → valid_date due = true →
  annotation now (date_isoformat due)
  = if ymd2ord (year due) (month due) (day due)
       <? ymd2ord (year now) (month now) (day now)
    then "EXPIRED" else "".
Proof.
  intros Hnow Hdue. unfold annotation.
  rewrite date_fromisoformat_isoformat by done.
  pose proof (date_gt_ord now due Hnow Hdue) as Hgt.
  destruct (date_gt now due); destruct (Z.ltb_spec
    (ymd2ord (year due) (month due) (day due))
    (ymd2ord (year now) (month now) (day now))); try done.
  - assert (ymd2ord (year due) (month due) (day due)
            < ymd2ord (year now) (month now) (day now)) by by apply Hgt. lia.
  - by apply Hgt in H.
Qed.

Lemma list_tasks_spec w d : db w = Some d → tasks_canonical d →
  list_tasks w
  = (Ok tt,
     printed (map (λ r, Line (task_line r.1 (Sqlite.description r.2)
                                (Sqlite.expires r.2)
                                (annotation (today w) (Sqlite.expires r.2))))
                  (listed_tasks d))
             (traced [Call F_list_tasks] w)).
Proof.
  intros Hd Hcan. destruct w as [? f now u c tr]. cbn in Hd. subst.
  unfold list_tasks, bind at 1 2, log, get_db.
  cbn -[date_fromisoformat task_line].
  apply (for_each_printed _ _
           (λ r, Line (task_line r.1 (Sqlite.description r.2)
                         (Sqlite.expires r.2)
                         (annotation now (Sqlite.expires r.2))))).
  intros [task_id [desc exp]] os Hr.
  assert (∃ due, valid_date due = true ∧ exp = date_isoformat due)
    as (due & Hdue & ->).
  { unfold tasks_canonical in Hcan. rewrite Forall_forall in Hcan.
    apply (Hcan (task_id, Sqlite.Task desc exp)).
    by rewrite <- (order_by_Permutation
                     (λ r : nat * Sqlite.task_row, Sqlite.expires r.2)). }
  unfold bind, date_today, from_option, annotation, print, printed.
  cbn -[date_fromisoformat date_isoformat task_line].
  rewrite !date_fromisoformat_isoformat by done.
  cbn -[date_fromisoformat date_isoformat task_line].
  rewrite ?date_fromisoformat_isoformat by done. by rewrite app_assoc.
Qed.

(** ** What [add_task] and [add_event] store *)

Lemma add_task_spec text s w :
  add_task text s w
  = match datetime_fromisoformat s with
    | None => (Raise ValueError, traced [Call F_add_task] w)
    | Some dt =>
        insert_task (Sqlite.Task text (date_isoformat (dt_date dt)))
                    (traced [Call F_add_task] w)
    end.
Proof.
  unfold add_task, bind, log, from_option, traced.
  cbn -[datetime_fromisoformat date_isoformat].
  by destruct (datetime_fromisoformat s).
Qed.

Lemma add_event_spec text s w :
  add_event text s w
  = match datetime_fromisoformat s with
    | None => (Raise ValueError, traced [Call F_add_event] w)
    | Some dt =>
        bind (insert_event (Sqlite.Event text (datetime_isoformat dt)))
             (λ _, generate_calendar) (traced [Call F_add_event] w)
    end.
Proof.
  unfold add_event, bind at 1 2, log, from_option, traced.
  cbn -[datetime_fromisoformat datetime_isoformat generate_calendar bind].
  by destruct (datetime_fromisoformat s).
Qed.

Lemma valid_datetime_date dt : valid_datetime dt = true →
  valid_date (dt_date dt) = true.
Proof. by intros [[[? _]%andb_true_iff _]%andb_true_iff _]%andb_true_iff. Qed.

(** [add_task] keeps the task table canonical. *)
Lemma add_task_canonical text s w d r w' :
  db w = Some d → tasks_canonical d → add_task text s w = (r, w') →
  ∃ d', db w' = Some d' ∧ tasks_canonical d'.
Proof.
  intros Hd Hcan. rewrite add_task_spec.
  destruct (datetime_fromisoformat s) as [dt|] eqn:Hparse.
  - unfold insert_task, bind, get_db, put_db, log, traced. cbn. rewrite Hd.
    cbn. intros [= <- <-]. cbn. eexists; split; [done|].
    unfold tasks_canonical, Sqlite.insert. cbn.
    apply Forall_app; split; [done|]. repeat constructor.
    exists (dt_date dt). split; [|done]. cbn.
    by eapply valid_datetime_date, datetime_fromisoformat_valid.
  - intros [= <- <-]. by exists d.
Qed.

(** C2. Every task of a store filled by [add_task] is listed, with
    "EXPIRED" after it exactly when the date of the clock is strictly later
    than its expiration date; only the dates are compared, so a task that
    expires today is not annotated. *)
Theorem list_tasks_marks_expired w d :
  db w = Some d → tasks_canonical d → valid_date (today w) = true →
  list_tasks w
  = (Ok tt,
     printed (map (λ r, Line (task_line r.1 (Sqlite.description r.2)
                                (Sqlite.expires r.2)
                                (annotation (today w) (Sqlite.expires r.2))))
                  (listed_tasks d))
             (traced [Call F_list_tasks] w))
  ∧ listed_tasks d ≡ₚ Sqlite.rows (Sqlite.tasks d)
  ∧ ∀ r, r ∈ Sqlite.rows (Sqlite.tasks d) →
      ∃ due, Sqlite.expires r.2 = date_isoformat due
             ∧ annotation (today w) (Sqlite.expires r.2)
               = if ymd2ord (year due) (month due) (day due)
                    <? ymd2ord (year (today w)) (month (today w))
                               (day (today w))
                 then "EXPIRED" else "".
Proof.
  intros Hd Hcan Hnow. split; [by apply list_tasks_spec|].
  split; [apply order_by_Permutation|].
  intros r Hr. unfold tasks_canonical in Hcan. rewrite Forall_forall in Hcan.
  destruct (Hcan r Hr) as (due & Hdue & Hexp). exists due. split; [done|].
  rewrite Hexp. by apply annotation_canonical.
Qed.
End AppFacts.

(* ===================================================================== *)
(** * The listings *)
(* ===================================================================== *)

Module ListingFacts.
Import Py Datetime DatetimeFacts OrderFacts SqliteFacts App Spec AppFacts.
Local Open Scope Z_scope.

Lemma event_instant_canonical (r : nat * Sqlite.event_row) dt :
  valid_datetime dt = true → Sqlite.time r.2 = datetime_isoformat dt →
  event_instant r = instant dt.
Proof.
  intros Hv Ht. unfold event_instant.
  by rewrite Ht, datetime_fromisoformat_isoformat.
Qed.

(** C3, as the program has it: when all stored times carry the same UTC
    offset, or none, [list_events] prints every event, in ascending
    chronological order. *)
Theorem list_events_chronological w d tz :
  db w = Some d → events_with_offset tz d →
  list_events w
  = (Ok tt, printed (map (λ r, Line (event_line r)) (listed_events d))
                    (traced [Call F_list_events] w))
  ∧ listed_events d ≡ₚ Sqlite.rows (Sqlite.events d)
  ∧ chronological (listed_events d).
Proof.
  intros Hd Hcan. split; [by apply list_events_spec|].
  split; [apply order_by_Permutation|].
  unfold chronological, listed_events.
  apply (Sorted_map_impl
           (λ a b : nat * Sqlite.event_row,
              String.leb (Sqlite.time a.2) (Sqlite.time b.2) = true)
           Z.le event_instant
           (λ r, ∃ dt, valid_datetime dt = true ∧ tzinfo dt = tz
                       ∧ Sqlite.time r.2 = datetime_isoformat dt)).
  - intros a b (da & Hva & Hza & Hta) (db' & Hvb & Hzb & Htb) Hle.
    rewrite (event_instant_canonical a da), (event_instant_canonical b db')
      by done.
    apply leb_isoformat_instant; [done..|congruence|]. by rewrite <- Hta, <- Htb.
  - unfold events_with_offset in Hcan.
    by rewrite (order_by_Permutation
                  (λ r : nat * Sqlite.event_row, Sqlite.time r.2)).
  - apply (order_by_Sorted (λ r : nat * Sqlite.event_row, Sqlite.time r.2)).
Qed.

Lemma list_events_chronological_witness :
  console (list_events standup_world).2
  = [Line "2: Retro at 2024-01-01T15:00:00";
     Line "1: Standup at 2024-01-02T09:00:00"]
  ∧ chronological (listed_events standup_db).
Proof.
  assert (events_with_offset None standup_db) as Hcan.
  { repeat constructor.
    - exists (Mk_datetime (Date 2024 1 2) 9 0 0 0 None). by vm_compute.
    - exists (Mk_datetime (Date 2024 1 1) 15 0 0 0 None). by vm_compute. }
  destruct (list_events_chronological standup_world standup_db None
              ltac:(vm_compute; reflexivity) Hcan) as (Hrun & _ & Hsorted).
  split; [|exact Hsorted]. rewrite Hrun. vm_compute. reflexivity.
Defined.

(** C3, as stated, fails: with the offsets of [offsets_world] the event B
    (09:00 UTC) is printed before the event A (05:00 UTC), because the
    texts are compared, not the instants. *)
Lemma list_events_offsets_not_chronological :
  db offsets_world = Some offsets_db
  ∧ events_canonical offsets_db
  ∧ list_events offsets_world
    = (Ok tt,
       printed [Line "2: B at 2024-01-01T09:00:00+00:00";
                Line "1: A at 2024-01-01T10:00:00+05:00"]
               (traced [Call F_list_events] offsets_world))
  ∧ ¬ chronological (listed_events offsets_db).
Proof.
  split; [by vm_compute|]. split; [|split].
  - repeat constructor.
    + exists (Mk_datetime (Date 2024 1 1) 10 0 0 0 (Some 18000000000)).
      by vm_compute.
    + exists (Mk_datetime (Date 2024 1 1) 9 0 0 0 (Some 0)). by vm_compute.
  - by vm_compute.
  - unfold chronological. vm_compute. intros H.
    apply Sorted_inv in H as [_ H]. apply HdRel_inv in H. by apply H.
Qed.

Lemma list_tasks_marks_expired_witness :
  console (list_tasks tasks_world).2
  = [Line "1: Pay rent (due 2020-01-01) EXPIRED";
     Line "2: File taxes (due 2024-06-01) ";
     Line "3: Renew passport (due 2999-01-01) "].
Proof.
  assert (tasks_canonical tasks_db) as Hcan.
  { repeat constructor.
    - exists (Date 2020 1 1). by vm_compute.
    - exists (Date 2024 6 1). by vm_compute.
    - exists (Date 2999 1 1). by vm_compute. }
  destruct (list_tasks_marks_expired tasks_world tasks_db
              ltac:(vm_compute; reflexivity) Hcan
              ltac:(vm_compute; reflexivity)) as (Hrun & _).
  rewrite Hrun. vm_compute. reflexivity.
Defined.
End ListingFacts.

(* ===================================================================== *)
(** * The calendar file *)
(* ===================================================================== *)

Module CalendarFacts.
Import Py Datetime DatetimeFacts App Spec AppFacts.

Lemma entries_from_length u rows es :
  entries_from u rows = Some es → List.length es = List.length rows.
Proof.
  revert u es. induction rows as [|[i [n t]] rows IH]; intros u es H.
  - by injection H as <-.
  - cbn [entries_from] in H.
    destruct (datetime_fromisoformat t) as [dt|]; [|done].
    cbn [mbind option_bind] in H.
    destruct (entries_from (S u) rows) as [es'|] eqn:Hes; [|done].
    injection H as <-. cbn. f_equal. by eapply IH.
Qed.

Lemma entries_from_uids u rows es :
  entries_from u rows = Some es → map Ics.uid es = seq u (List.length rows).
Proof.
  revert u es. induction rows as [|[i [n t]] rows IH]; intros u es H.
  - by injection H as <-.
  - cbn [entries_from] in H.
    destruct (datetime_fromisoformat t) as [dt|]; [|done].
    cbn [mbind option_bind] in H.
    destruct (entries_from (S u) rows) as [es'|] eqn:Hes; [|done].
    injection H as <-. cbn. f_equal. by eapply IH.
Qed.

(** Entry by entry: the name of the row, and the time its text denotes. *)
Lemma entries_from_rows u rows es :
  entries_from u rows = Some es →
  map (λ e, (Ics.name e, Some (Ics.begin e))) es
  = map (λ r : nat * Sqlite.event_row,
           (Sqlite.name r.2, datetime_fromisoformat (Sqlite.time r.2))) rows.
Proof.
  revert u es. induction rows as [|[i [n t]] rows IH]; intros u es H.
  - by injection H as <-.
  - cbn [entries_from] in H.
    destruct (datetime_fromisoformat t) as [dt|] eqn:Hdt; [|done].
    cbn [mbind option_bind] in H.
    destruct (entries_from (S u) rows) as [es'|] eqn:Hes; [|done].
    injection H as <-. cbn -[datetime_fromisoformat]. rewrite Hdt. f_equal. by eapply IH.
Qed.

(** A set filled with events of distinct, unused uids holds them all. *)
Lemma serialize_foldl_add (es : list Ics.event) (cal : Ics.calendar) :
  NoDup (map Ics.uid es) → (∀ e, e ∈ es → cal !! Ics.uid e = None) →
  Ics.serialize (foldl (λ c e, Ics.add e c) cal es)
  ≡ₚ Ics.serialize cal ++ es.
Proof.
  revert cal.
  induction es as [|e es IH]; intros cal Hnd Hfree.
  - cbn. by rewrite app_nil_r.
  - cbn [foldl]. cbn [map] in Hnd. apply NoDup_cons in Hnd as [Hne Hnd].
    assert (Ics.add e cal = <[Ics.uid e := e]> cal) as ->.
    { unfold Ics.add. by rewrite Hfree by apply list_elem_of_here. }
    rewrite IH; [|done|].
    + unfold Ics.serialize.
      rewrite map_to_list_insert by (apply Hfree, list_elem_of_here).
      cbn. by rewrite <- Permutation_middle.
    + intros e' He'. rewrite lookup_insert_ne.
      * by apply Hfree, list_elem_of_further.
      * intros Heq. apply Hne. rewrite Heq. by apply list_elem_of_fmap_2.
Qed.

Lemma serialize_entries u rows es :
  entries_from u rows = Some es →
  Ics.serialize (foldl (λ c e, Ics.add e c) Ics.empty es) ≡ₚ es.
Proof.
  intros Hes. rewrite serialize_foldl_add.
  - done.
  - rewrite (entries_from_uids u rows es Hes). apply NoDup_seq.
  - intros e _. apply lookup_empty.
Qed.

(** ** The loop of [generate_calendar] *)

Lemma fold_calendar rows cal w :
  match entries_from (uid_next w) rows with
  | Some es =>
      fold_each rows calendar_step cal w
      = (Ok (foldl (λ c e, Ics.add e c) cal es),
         with_uid (uid_next w + List.length rows) w)
  | None =>
      ∃ u, fold_each rows calendar_step cal w
           = (Raise ValueError, with_uid u w)
  end.
Proof.
  revert cal w. induction rows as [|[i [n t]] rows IH]; intros cal w.
  - cbn. unfold ret, with_uid. rewrite Nat.add_0_r. by destruct w.
  - cbn [fold_each entries_from].
    specialize (IH (Ics.add (Ics.Event (uid_next w) n
                      (default (Mk_datetime (Date 0 0 0) 0 0 0 0 None)
                               (datetime_fromisoformat t))) cal)
                   (with_uid (S (uid_next w)) w)).
    unfold bind at 1, calendar_step at 1, calendar_step at 2.
    unfold bind at 1 2 4 5, uid_gen, from_option, ret.
    cbn -[datetime_fromisoformat entries_from fold_each] in *.
    destruct (datetime_fromisoformat t) as [dt|] eqn:Hdt.
    + cbn -[datetime_fromisoformat entries_from fold_each] in *.
      destruct (entries_from (S (uid_next w)) rows) as [es|].
      * cbn -[datetime_fromisoformat fold_each].
        unfold with_uid in *. cbn -[datetime_fromisoformat fold_each] in *.
        rewrite IH. repeat f_equal. lia.
      * destruct IH as [u IH]. exists u. cbn -[datetime_fromisoformat fold_each].
        unfold with_uid in *. cbn -[datetime_fromisoformat fold_each] in *.
        by rewrite IH.
    + cbn -[datetime_fromisoformat]. exists (S (uid_next w)). done.
Qed.

Lemma read_calendar_after_write c f0 f :
  Fs.write_file CALENDAR_PATH c f0 = Ok f →
  Fs.read_file CALENDAR_PATH f = Ok c.
Proof.
  unfold Fs.write_file.
  assert (Fs.read_file CALENDAR_PATH (<[CALENDAR_PATH := Fs.File c]> f0)
          = Ok c) as Hread.
  { unfold Fs.read_file, Fs.stat, CALENDAR_PATH. cbn.
    unfold Fs.node_at. cbn. by rewrite lookup_insert_eq. }
  destruct (Fs.stat f0 CALENDAR_PATH) as [[?|]| |]; try done.
  - by intros [= <-].
  - destruct (Fs.is_dir f0 (Fs.parent CALENDAR_PATH)); [|done].
    by intros [= <-].
Qed.

Lemma insert_event_spec r w :
  insert_event r w
  = match db w with
    | Some d =>
        (Ok tt,
         traced [Sql_insert T_events]
           (set_db (Sqlite.Database (Sqlite.tasks d) (Sqlite.notes d)
                      (Sqlite.insert r (Sqlite.events d))
                      (Sqlite.documents d)) w))
    | None => (Raise OperationalError, w)
    end.
Proof.
  unfold insert_event, bind, get_db, put_db, log, traced, set_db.
  by destruct (db w).
Qed.

Lemma generate_calendar_unfold w d : db w = Some d →
  generate_calendar w
  = match fold_each (Sqlite.rows (Sqlite.events d)) calendar_step Ics.empty
            (traced [Call F_generate_calendar] w) with
    | (Ok calendar, w1) =>
        match Fs.write_file CALENDAR_PATH
                (Fs.Calendar_text (Ics.serialize calendar)) (files w1) with
        | Ok f => (Ok tt, traced [File_write CALENDAR_PATH] (set_files f w1))
        | Raise e => (Raise e, w1)
        end
    | (Raise e, w1) => (Raise e, w1)
    end.
Proof.
  intros Hd. unfold generate_calendar, bind, log, get_db, lift_fs, traced.
  cbn [db files today uid_next console trace]. rewrite Hd.
  destruct (fold_each _ _ _ _) as [[calendar|e] w1]; [|done].
  by destruct (Fs.write_file _ _ _).
Qed.

(** What [generate_calendar] does, by the rows of the event table. *)
Lemma generate_calendar_spec w d : db w = Some d →
  match entries_from (uid_next w) (Sqlite.rows (Sqlite.events d)) with
  | Some es =>
      let text := Fs.Calendar_text
                    (Ics.serialize (foldl (λ c e, Ics.add e c) Ics.empty es)) in
      let u := uid_next w + List.length (Sqlite.rows (Sqlite.events d)) in
      match Fs.write_file CALENDAR_PATH text (files w) with
      | Ok f =>
          generate_calendar w
          = (Ok tt,
             traced [Call F_generate_calendar; File_write CALENDAR_PATH]
                    (set_files f (with_uid u w)))
      | Raise e =>
          generate_calendar w
          = (Raise e, traced [Call F_generate_calendar] (with_uid u w))
      end
  | None =>
      ∃ u, generate_calendar w
           = (Raise ValueError, traced [Call F_generate_calendar] (with_uid u w))
  end.
Proof.
  intros Hd. rewrite (generate_calendar_unfold w d Hd).
  pose proof (fold_calendar (Sqlite.rows (Sqlite.events d)) Ics.empty
                (traced [Call F_generate_calendar] w)) as Hfold.
  cbn [traced uid_next] in Hfold.
  destruct (entries_from (uid_next w) (Sqlite.rows (Sqlite.events d)))
    as [es|].
  - rewrite Hfold. cbv zeta. unfold traced, set_files, with_uid.
    cbn [db files today uid_next console trace].
    destruct (Fs.write_file CALENDAR_PATH _ (files w)) as [f'|e]; [|done].
    by rewrite <- app_assoc.
  - destruct Hfold as [u Hfold]. exists u. by rewrite Hfold.
Qed.

(** C1. When [add_event] returns, the calendar file holds exactly one
    component per row of the event table: as many components as rows, with
    the names of the rows and the times their texts denote, repetitions
    included (each component has a uid of its own).  When the rows are the
    texts the program stores, the texts of the times agree as well. *)
Theorem calendar_matches_events name time w w' :
  add_event name time w = (Ok tt, w') →
  ∃ d d' dt entries,
    db w = Some d ∧ db w' = Some d'
    ∧ datetime_fromisoformat time = Some dt
    ∧ Sqlite.rows (Sqlite.events d')
      = Sqlite.rows (Sqlite.events d)
        ++ [(S (Sqlite.seq (Sqlite.events d)),
             Sqlite.Event name (datetime_isoformat dt))]
    ∧ Fs.read_file CALENDAR_PATH (files w') = Ok (Fs.Calendar_text entries)
    ∧ List.length entries = List.length (Sqlite.rows (Sqlite.events d'))
    ∧ NoDup (map Ics.uid entries)
    ∧ map (λ e, (Ics.name e, Some (Ics.begin e))) entries
      ≡ₚ map (λ r : nat * Sqlite.event_row,
                (Sqlite.name r.2, datetime_fromisoformat (Sqlite.time r.2)))
             (Sqlite.rows (Sqlite.events d'))
    ∧ (events_canonical d' →
       map (λ e, (Ics.name e, datetime_isoformat (Ics.begin e))) entries
       ≡ₚ map (λ r : nat * Sqlite.event_row, (Sqlite.name r.2, Sqlite.time r.2))
              (Sqlite.rows (Sqlite.events d'))).
Proof.
  rewrite add_event_spec.
  destruct (datetime_fromisoformat time) as [dt|] eqn:Hparse; [|done].
  unfold bind. rewrite insert_event_spec. cbn [traced db].
  destruct (db w) as [d|] eqn:Hd; [|done].
  set (d' := Sqlite.Database _ _ _ _).
  set (w1 := traced _ _).
  pose proof (generate_calendar_spec w1 d' eq_refl) as Hgen.
  destruct (entries_from (uid_next w1) (Sqlite.rows (Sqlite.events d')))
    as [es|] eqn:Hes; [|by destruct Hgen as [u ->]].
  cbv zeta in Hgen.
  destruct (Fs.write_file CALENDAR_PATH _ (files w1)) as [f|e] eqn:Hwrite;
    rewrite Hgen; [|done].
  intros [= <-].
  pose proof (serialize_entries _ _ _ Hes) as Hperm.
  exists d, d', dt, (Ics.serialize (foldl (λ c e, Ics.add e c) Ics.empty es)).
  split; [done|]. split; [done|]. split; [done|]. split; [done|].
  split; [by eapply read_calendar_after_write|].
  split; [by rewrite Hperm; eapply entries_from_length|].
  split.
  { rewrite Hperm, (entries_from_uids _ _ _ Hes). apply NoDup_seq. }
  split.
  { rewrite Hperm. by rewrite (entries_from_rows _ _ _ Hes). }
  intros Hcan. rewrite Hperm. clear Hperm Hgen Hwrite.
  revert Hes Hcan. unfold events_canonical.
  generalize (uid_next w1) (Sqlite.rows (Sqlite.events d')). clear.
  intros u rows. revert u es.
  induction rows as [|[i [n t]] rows IH]; intros u es Hes Hcan.
  - by injection Hes as <-.
  - cbn [entries_from] in Hes.
    apply Forall_cons in Hcan as [(dt & Hv & Ht) Hcan]. cbn in Ht. subst t.
    rewrite datetime_fromisoformat_isoformat in Hes by done.
    cbn [mbind option_bind] in Hes.
    destruct (entries_from (S u) rows) as [es'|] eqn:Hes'; [|done].
    injection Hes as <-. cbn -[datetime_isoformat]. constructor.
    by eapply IH.
Qed.

Lemma calendar_matches_events_witness :
  ∃ entries,
    Fs.read_file CALENDAR_PATH (files again_world)
    = Ok (Fs.Calendar_text entries)
    ∧ map (λ e, (Ics.name e, datetime_isoformat (Ics.begin e))) entries
      ≡ₚ [("Standup", "2024-01-02T09:00:00");
          ("Standup", "2024-01-02T09:00:00")]%string.
Proof.
  destruct (calendar_matches_events "Standup" "2024-01-02 09:00"
              once_world again_world ltac:(vm_compute; reflexivity))
    as (d & d' & dt & entries & Hd & Hd' & Hdt & Hrows & Hread & _ & _ & _
        & Hcan).
  exists entries. split; [exact Hread|].
  vm_compute in Hd'. injection Hd' as <-.
  rewrite Hcan; [reflexivity|].
  repeat constructor;
    exists (Mk_datetime (Date 2024 1 2) 9 0 0 0 None); by vm_compute.
Defined.

(** ** [add_event] returns on the stores the program builds *)

Lemma entries_from_canonical u rows :
  Forall (λ r : nat * Sqlite.event_row,
            ∃ dt, valid_datetime dt = true
                  ∧ Sqlite.time r.2 = datetime_isoformat dt) rows →
  is_Some (entries_from u rows).
Proof.
  revert u. induction rows as [|[i [n t]] rows IH]; intros u Hcan; [done|].
  apply Forall_cons in Hcan as [(dt & Hv & Ht) Hcan]. cbn in Ht. subst t.
  cbn [entries_from]. rewrite datetime_fromisoformat_isoformat by done.
  cbn [mbind option_bind]. by destruct (IH (S u) Hcan) as [es ->].
Qed.

Lemma write_calendar_ok c f :
  Fs.stat f CALENDAR_PATH ≠ Fs.Found Fs.Dir →
  is_Some (match Fs.write_file CALENDAR_PATH c f with
           | Ok f' => Some f' | Raise _ => None end).
Proof.
  unfold Fs.write_file, Fs.stat, CALENDAR_PATH. cbn. unfold Fs.node_at. cbn.
  destruct (f !! ["calendar.ics"%string]) as [[?|]|]; try done.
Qed.

(** On a store whose event rows were written by the program, with a time
    that parses and no directory in the place of the calendar file,
    [add_event] returns. *)
Lemma add_event_returns name time dt w d :
  db w = Some d → events_canonical d →
  datetime_fromisoformat time = Some dt →
  Fs.stat (files w) CALENDAR_PATH ≠ Fs.Found Fs.Dir →
  ∃ w', add_event name time w = (Ok tt, w').
Proof.
  intros Hd Hcan Hparse Hstat. rewrite add_event_spec, Hparse.
  unfold bind. rewrite insert_event_spec. cbn [traced db]. rewrite Hd.
  set (d' := Sqlite.Database _ _ _ _). set (w1 := traced _ _).
  pose proof (generate_calendar_spec w1 d' eq_refl) as Hgen.
  destruct (entries_from_canonical (uid_next w1)
              (Sqlite.rows (Sqlite.events d'))) as [es Hes].
  { apply Forall_app. split; [done|]. repeat constructor. exists dt.
    split; [|done]. by eapply datetime_fromisoformat_valid. }
  rewrite Hes in Hgen. cbv zeta in Hgen.
  destruct (write_calendar_ok
              (Fs.Calendar_text
                 (Ics.serialize (foldl (λ c e, Ics.add e c) Ics.empty es)))
              (files w1) Hstat) as [f Hf].
  destruct (Fs.write_file CALENDAR_PATH _ (files w1)); [|done].
  eexists. exact Hgen.
Qed.
End CalendarFacts.

(* ===================================================================== *)
(** * The order of effects in a run *)
(* ===================================================================== *)

Module TraceFacts.
Import Py Datetime DatetimeFacts App Spec AppFacts CalendarFacts.

Lemma for_each_trace {A} (l : list A) (body : A → M unit) w :
  (∀ r w, trace (body r w).2 = trace w) →
  trace (for_each l body w).2 = trace w.
Proof.
  intros Hbody. revert w. induction l as [|x l IH]; intros w; [done|].
  cbn [for_each]. unfold bind. specialize (Hbody x w).
  destruct (body x w) as [[[]|e] w1]; cbn in *; [|done].
  by rewrite IH.
Qed.

Lemma rooted_joinpath p s : rooted p → rooted (Fs.joinpath p s).
Proof.
  intros (h & rest & -> & Hh). unfold Fs.joinpath.
  destruct (Fs.is_absolute (Fs.Path s)) eqn:Habs.
  - destruct (Fs.Path s) as [|r q]; [done|]. cbn in Habs.
    apply String.eqb_eq in Habs as ->. exists "/"%string, q. auto.
  - by exists h, (rest ++ Fs.Path s).
Qed.

Lemma rooted_STORAGE_DIR : rooted STORAGE_DIR.
Proof. exists "storage"%string, []. auto. Qed.


Lemma rooted_copy_target src dst f :
  rooted dst → rooted (Fs.copy_target src dst f).
Proof.
  intros Hdst. unfold Fs.copy_target.
  destruct (Fs.is_dir f dst); [by apply rooted_joinpath|done].
Qed.

(** ** The effects of each function *)

Lemma init_db_spec w :
  init_db w
  = (Ok tt, traced [Call F_init_db]
              (set_db (default Sqlite.empty_database (db w)) w)).
Proof. done. Qed.

Lemma add_task_effects text s w :
  ∃ tr, trace (add_task text s w).2 = trace w ++ Call F_add_task :: tr
        ∧ (tr = [] ∨ tr = [Sql_insert T_tasks]).
Proof.
  rewrite add_task_spec. destruct (datetime_fromisoformat s).
  - unfold insert_task, bind, get_db, put_db, log, traced. cbn.
    destruct (db w); cbn.
    + exists [Sql_insert T_tasks]. rewrite <- app_assoc. auto.
    + exists []. auto.
  - exists []. auto.
Qed.

Lemma add_note_effects text w :
  ∃ tr, trace (add_note text w).2 = trace w ++ Call F_add_note :: tr
        ∧ (tr = [] ∨ tr = [Sql_insert T_notes]).
Proof.
  unfold add_note, insert_note, bind, get_db, put_db, log. cbn.
  destruct (db w); cbn.
  - exists [Sql_insert T_notes]. rewrite <- app_assoc. auto.
  - exists []. auto.
Qed.

Lemma list_tasks_effects w :
  trace (list_tasks w).2 = trace w ++ [Call F_list_tasks].
Proof.
  unfold list_tasks, bind at 1 2, log, get_db. cbn -[date_fromisoformat].
  destruct (db w); [|done]. rewrite for_each_trace; [done|].
  intros [i [desc exp]] w'. unfold bind, date_today, from_option, print.
  cbn -[date_fromisoformat]. by destruct (date_fromisoformat exp).
Qed.

Lemma list_notes_effects w :
  trace (list_notes w).2 = trace w ++ [Call F_list_notes].
Proof.
  unfold list_notes, bind at 1 2, log, get_db. cbn.
  destruct (db w); [|done]. by rewrite for_each_trace.
Qed.

Lemma list_events_effects w :
  trace (list_events w).2 = trace w ++ [Call F_list_events].
Proof.
  unfold list_events, bind at 1 2, log, get_db. cbn.
  destruct (db w); [|done]. by rewrite for_each_trace.
Qed.

Lemma list_documents_effects w :
  trace (list_documents w).2 = trace w ++ [Call F_list_documents].
Proof.
  unfold list_documents, bind at 1 2, log, get_db. cbn.
  destruct (db w); [|done]. by rewrite for_each_trace.
Qed.

Lemma add_storage_effects name w :
  trace (add_storage name w).2 = trace w ++ [Call F_add_storage].
Proof.
  unfold add_storage, bind, log, lift_fs, print. cbn.
  by destruct (Fs.mkdir _ _).
Qed.

Lemma add_event_effects name time w :
  ∃ tr, trace (add_event name time w).2 = trace w ++ Call F_add_event :: tr
        ∧ ((add_event name time w).1 = Ok tt
           ∧ tr = [Sql_insert T_events; Call F_generate_calendar;
                   File_write CALENDAR_PATH]
           ∨ (add_event name time w).1 ≠ Ok tt
             ∧ (tr = []
                ∨ tr = [Sql_insert T_events; Call F_generate_calendar])).
Proof.
  rewrite add_event_spec.
  destruct (datetime_fromisoformat time) as [dt|]; [|exists []; auto].
  unfold bind. rewrite insert_event_spec. cbn [traced db].
  destruct (db w) as [d|] eqn:Hd; [|exists []; auto].
  set (d' := Sqlite.Database _ _ _ _). set (w1 := traced _ _).
  pose proof (generate_calendar_spec w1 d' eq_refl) as Hgen.
  destruct (entries_from (uid_next w1) (Sqlite.rows (Sqlite.events d'))).
  - cbv zeta in Hgen.
    destruct (Fs.write_file CALENDAR_PATH _ (files w1)); rewrite Hgen; cbn.
    + eexists. split; [by rewrite <- !app_assoc|]. auto.
    + eexists. split; [by rewrite <- !app_assoc|]. right. auto.
  - destruct Hgen as [u ->]. cbn.
    eexists. split; [by rewrite <- !app_assoc|]. right. auto.
Qed.

Lemma add_document_effects label file_path storage w :
  ∃ tr, trace (add_document label file_path storage w).2
        = trace w ++ Call F_add_document :: tr
        ∧ (tr = []
           ∨ ∃ p, rooted p
                  ∧ (tr = [File_write p]
                     ∨ tr = [File_write p; Sql_insert T_documents])).
Proof.
  cbv [add_document bind log lift_fs insert_document get_db put_db print
       set_files set_db].
  cbn [db files today uid_next console trace].
  destruct (Fs.mkdir _ (files w)) as [f1|e]; [|exists []; auto].
  cbn [db files today uid_next console trace].
  match goal with
  | |- context [Fs.copy ?a ?b ?c] => destruct (Fs.copy a b c) as [f2|e]
  end; [|exists []; auto].
  cbn [db files today uid_next console trace].
  match goal with
  | |- context [File_write ?q] => set (p := q)
  end.
  assert (rooted p) as Hp.
  { apply rooted_copy_target. do 2 apply rooted_joinpath.
    apply rooted_STORAGE_DIR. }
  destruct (db w); cbn [db files today uid_next console trace snd].
  - exists [File_write p; Sql_insert T_documents].
    split; [by rewrite <- !app_assoc|]. right. exists p. auto.
  - exists [File_write p]. split; [by rewrite <- !app_assoc|].
    right. exists p. auto.
Qed.


Lemma main_unfold argv w :
  main argv w
  = let w1 := traced [Call F_init_db]
                (set_db (default Sqlite.empty_database (db w)) w) in
    match Argparse.parse_args argv with
    | Argparse.Parsed args => dispatch args w1
    | Argparse.Help => (Raise (SystemExit 0), printed [Help_text] w1)
    | Argparse.Usage_error => (Raise (SystemExit 2), printed [Usage_text] w1)
    end.
Proof.
  unfold main, bind at 1. rewrite init_db_spec. cbv zeta.
  unfold bind, parse_args.
  by destruct (Argparse.parse_args argv) as [args| |].
Qed.




(** The runs of the example: an event is entered on a fresh installation,
    then the events are listed. *)
Example add_event_run_trace :
  trace (main ["add-event"; "Standup"; "2024-01-02 09:00"] initial_world).2
  = [Call F_init_db; Call F_add_event; Sql_insert T_events;
     Call F_generate_calendar; File_write CALENDAR_PATH]
  ∧ trace (main ["list-events"] (with_uid 1 ready_world)).2
    = [Call F_init_db; Call F_list_events].
Proof. by vm_compute. Qed.
End TraceFacts.

(* ===================================================================== *)
(** * Runs without a command *)
(* ===================================================================== *)

Module DispatchFacts.
Import Py Datetime App Spec TraceFacts.
Local Open Scope Z_scope.

Lemma run_unfold argv w :
  run argv w = (exit_status (main argv w).1, (main argv w).2).
Proof. unfold run. by destruct (main argv w). Qed.

Lemma parse_args_unknown c rest :
  Argparse.classify false c = Argparse.Positional c →
  Argparse.lookup_sub c Argparse.subparsers = None →
  Argparse.parse_args (c :: rest) = Argparse.Usage_error.
Proof.
  intros Hc Hsub. unfold Argparse.parse_args. cbn [Argparse.parse_top].
  by rewrite Hc, Hsub.
Qed.

(** C8, amended.  Without a command the program prints the help text and
    leaves with status 0; with a first word that names no sub-command the
    argument parser reports a usage error and the process leaves with
    status 2.  In both runs [init_db] has created the tables when they
    were absent; no row is inserted and no file is touched. *)
Theorem absent_or_unknown_command argv w :
  argv = [] ∨ unknown_command argv →
  run argv w
  = match argv with
    | [] => (0, printed [Help_text] (started w))
    | _ :: _ => (2, printed [Usage_text] (started w))
    end
  ∧ db (run argv w).2 = Some (default Sqlite.empty_database (db w))
  ∧ files (run argv w).2 = files w.
Proof.
  intros Hargv.
  assert (run argv w
          = match argv with
            | [] => (0, printed [Help_text] (started w))
            | _ :: _ => (2, printed [Usage_text] (started w))
            end) as Hrun.
  { rewrite run_unfold, main_unfold. cbv zeta.
    destruct Hargv as [-> | (c & rest & -> & Hc & Hsub)]; [done|].
    by rewrite (parse_args_unknown c rest Hc Hsub). }
  split; [done|]. rewrite Hrun. by destruct argv.
Qed.

Lemma absent_or_unknown_command_witness :
  run [] initial_world
  = (0, World (Some Sqlite.empty_database) ∅ (Date 2024 6 1) 0
          [Help_text] [Call F_init_db])
  ∧ run ["frobnicate"]%string initial_world
    = (2, World (Some Sqlite.empty_database) ∅ (Date 2024 6 1) 0
            [Usage_text] [Call F_init_db]).
Proof.
  split.
  - exact (proj1 (absent_or_unknown_command [] initial_world
                    (or_introl eq_refl))).
  - refine (proj1 (absent_or_unknown_command ["frobnicate"]%string
                     initial_world (or_intror _))).
    exists "frobnicate"%string, []. by vm_compute.
Defined.

(** C8, as stated, fails for an unknown command: the run ends with status
    2 after the usage message of the argument parser, not with status 0
    after the help text. *)
Lemma unknown_command_exits_with_status_2 :
  unknown_command ["frobnicate"]%string
  ∧ (run ["frobnicate"]%string initial_world).1 = 2
  ∧ console (run ["frobnicate"]%string initial_world).2 = [Usage_text]
  ∧ ¬ ((run ["frobnicate"]%string initial_world).1 = 0).
Proof.
  split; [|by vm_compute].
  exists "frobnicate"%string, []. by vm_compute.
Qed.
End DispatchFacts.

(* ===================================================================== *)
(** * The file system *)
(* ===================================================================== *)

Module FsFacts.
Import Py Fs Spec.

Lemma is_anchor_false_inv p :
  is_anchor p = false → ∃ l c, p = l ++ [c].
Proof.
  destruct p as [|c l] using rev_ind; [done|]. intros _. by exists l, c.
Qed.

Lemma is_anchor_snoc l c :
  is_anchor (l ++ [c]) = false → parent (l ++ [c]) = l.
Proof.
  unfold parent. destruct l as [|a l]; cbn.
  - by intros ->.
  - intros _. destruct l as [|b l]; [done|].
    change (a :: b :: l ++ [c]) with ((a :: b :: l) ++ [c]).
    by rewrite removelast_last.
Qed.

Lemma is_absolute_snoc l c :
  l ≠ [] → is_absolute (l ++ [c]) = is_absolute l.
Proof. by destruct l. Qed.

Lemma node_at_not_anchor f p :
  is_anchor p = false → node_at f p = f !! p.
Proof. unfold node_at. by intros ->. Qed.

Lemma walk_snoc f cur rest c :
  walk f cur (rest ++ [c])
  = match walk f cur rest with
    | Found Dir =>
        match node_at f (cur ++ rest ++ [c]) with
        | Some n => Found n
        | None => ENOENT
        end
    | Found (File _) => ENOTDIR
    | e => e
    end.
Proof.
  revert cur. induction rest as [|d rest IH]; intros cur; cbn.
  - destruct (node_at f cur) as [[?|]|]; [done| |done].
    by destruct (node_at f (cur ++ [c])).
  - destruct (node_at f cur) as [[?|]|]; [done| |done].
    rewrite IH. by rewrite <- (assoc_L _ cur [d]).
Qed.

Lemma walk_Found f cur rest n :
  walk f cur rest = Found n → node_at f (cur ++ rest) = Some n.
Proof.
  revert cur. induction rest as [|d rest IH]; intros cur; cbn.
  - rewrite app_nil_r. destruct (node_at f cur); naive_solver.
  - destruct (node_at f cur) as [[?|]|]; [done| |done].
    intros H. apply IH in H. by rewrite <- (assoc_L _ cur [d]) in H.
Qed.

Lemma walk_ENOTDIR f cur rest :
  walk f cur rest = ENOTDIR →
  ∃ r1 r2 c, rest = r1 ++ r2 ∧ node_at f (cur ++ r1) = Some (File c).
Proof.
  revert cur. induction rest as [|d rest IH]; intros cur; cbn.
  - by destruct (node_at f cur).
  - destruct (node_at f cur) as [[c|]|] eqn:Hn; [| |done].
    + intros _. exists [], (d :: rest), c. by rewrite app_nil_r.
    + intros H. apply IH in H as (r1 & r2 & c & -> & H).
      exists (d :: r1), r2, c. split; [done|].
      by rewrite <- (assoc_L _ cur [d]) in H.
Qed.

Lemma walk_prefix_dir f cur r1 r2 :
  walk f cur (r1 ++ r2) = Found Dir → walk f cur r1 = Found Dir.
Proof.
  revert cur. induction r1 as [|d r1 IH]; intros cur; cbn.
  - destruct r2 as [|d r2]; [done|]. cbn.
    by destruct (node_at f cur) as [[?|]|].
  - destruct (node_at f cur) as [[?|]|]; [done| |done]. apply IH.
Qed.

Lemma node_at_insert_ne f p q n :
  q ≠ p → node_at (<[q:=n]> f) p = node_at f p.
Proof.
  intros Hne. unfold node_at. destruct (is_anchor p); [done|].
  by rewrite lookup_insert_ne.
Qed.

Lemma walk_insert_ne f cur rest q n :
  (∀ r1 r2, rest = r1 ++ r2 → cur ++ r1 ≠ q) →
  walk (<[q:=n]> f) cur rest = walk f cur rest.
Proof.
  revert cur. induction rest as [|d rest IH]; intros cur Hq.
  all: assert (q ≠ cur) as Hne
    by (intros ->; eapply (Hq []); [done|by rewrite app_nil_r]).
  all: cbn; rewrite (node_at_insert_ne _ _ _ _ Hne); try done.
  destruct (node_at f cur) as [[?|]|]; [done| |done].
  apply IH. intros r1 r2 -> Heq. apply (Hq (d :: r1) r2); [done|].
  by rewrite <- Heq, <- (assoc_L _ cur [d]).
Qed.

(** ** Path resolution *)

Lemma stat_anchor f p : is_anchor p = true → stat f p = Found Dir.
Proof.
  destruct p as [|r [|? ?]]; [done| |done]. cbn. intros Hr.
  unfold stat. cbn. rewrite Hr. cbn. unfold node_at. cbn. by rewrite Hr.
Qed.

Lemma stat_parent f p :
  is_anchor p = false →
  stat f p
  = match stat f (parent p) with
    | Found Dir =>
        match f !! p with
        | Some n => Found n
        | None => ENOENT
        end
    | Found (File _) => ENOTDIR
    | e => e
    end.
Proof.
  intros Hp. destruct (is_anchor_false_inv p Hp) as (l & c & ->).
  rewrite (is_anchor_snoc l c Hp).
  rewrite <- (node_at_not_anchor f (l ++ [c]) Hp).
  destruct l as [|r l].
  - cbn in Hp. unfold stat. cbn. rewrite Hp. cbn.
    by destruct (node_at f [c]).
  - unfold stat. rewrite is_absolute_snoc by done.
    destruct (is_absolute (r :: l)) eqn:Habs.
    + simpl. rewrite !take_0, !drop_0. by rewrite walk_snoc.
    + by rewrite walk_snoc.
Qed.

Lemma stat_Found f p n : stat f p = Found n → node_at f p = Some n.
Proof.
  unfold stat. destruct (is_absolute p).
  - intros H. apply walk_Found in H. by rewrite take_drop in H.
  - apply walk_Found.
Qed.

Lemma stat_ENOTDIR f p :
  stat f p = ENOTDIR → ∃ q c, q `prefix_of` p ∧ f !! q = Some (File c).
Proof.
  assert (∀ q c, node_at f q = Some (File c) → f !! q = Some (File c))
    as Hnode.
  { intros q c. unfold node_at. by destruct (is_anchor q). }
  unfold stat. destruct (is_absolute p).
  - intros H. apply walk_ENOTDIR in H as (r1 & r2 & c & Hp & Hq).
    exists (take 1 p ++ r1), c. split; [|by apply Hnode].
    exists r2. by rewrite <- (assoc_L _), <- Hp, take_drop.
  - intros H. apply walk_ENOTDIR in H as (r1 & r2 & c & Hp & Hq).
    exists r1, c. split; [by exists r2|by apply Hnode].
Qed.

Lemma stat_prefix_dir f p q :
  stat f p = Found Dir → q `prefix_of` p → stat f q = Found Dir.
Proof.
  intros Hp [k ->]. destruct (is_anchor q) eqn:Hq; [by apply stat_anchor|].
  destruct q as [|r q]; [done|]. revert Hp. unfold stat. cbn.
  destruct (String.eqb r "/"); apply walk_prefix_dir.
Qed.

Lemma stat_insert_ne f p q n :
  ¬ q `prefix_of` p → stat (<[q:=n]> f) p = stat f p.
Proof.
  intros Hq. unfold stat. destruct (is_absolute p).
  - apply walk_insert_ne. intros r1 r2 Hp <-. apply Hq. exists r2.
    by rewrite <- (assoc_L _), <- Hp, take_drop.
  - apply walk_insert_ne. intros r1 r2 -> <-. apply Hq. by exists r2.
Qed.

Lemma parent_not_prefix p : is_anchor p = false → ¬ p `prefix_of` parent p.
Proof.
  intros Hp. destruct (is_anchor_false_inv p Hp) as (l & c & ->).
  rewrite (is_anchor_snoc l c Hp). apply prefix_snoc_not.
Qed.

Lemma parent_ne p : is_anchor p = false → parent p ≠ p.
Proof.
  intros Hp Heq. apply (parent_not_prefix p Hp). by rewrite Heq.
Qed.

Lemma stat_insert f p n :
  is_anchor p = false → is_dir f (parent p) = true →
  stat (<[p:=n]> f) p = Found n.
Proof.
  intros Hp Hdir. rewrite stat_parent by done.
  rewrite stat_insert_ne by by apply parent_not_prefix.
  unfold is_dir in Hdir. destruct (stat f (parent p)) as [[?|]| |]; try done.
  by rewrite lookup_insert_eq.
Qed.

Lemma stat_not_anchor f p : stat f p ≠ Found Dir → is_anchor p = false.
Proof.
  intros H. destruct (is_anchor p) eqn:Hp; [|done].
  by rewrite stat_anchor in H.
Qed.

(** ** Making directories *)

Lemma os_mkdir_Ok p f f' :
  os_mkdir p f = Ok f' →
  f' = <[p:=Dir]> f ∧ is_anchor p = false ∧ is_dir f (parent p) = true.
Proof.
  unfold os_mkdir. destruct (stat f p) eqn:Hp; try done.
  destruct (is_dir f (parent p)) eqn:Hdir; [|done].
  intros [= <-]. split; [done|]. split; [|done].
  apply (stat_not_anchor f). by rewrite Hp.
Qed.

Lemma os_mkdir_is_dir p f f' : os_mkdir p f = Ok f' → is_dir f' p = true.
Proof.
  intros (-> & Hp & Hdir)%os_mkdir_Ok. unfold is_dir.
  by rewrite stat_insert.
Qed.

Lemma mkdir_parents_unfold rp f :
  mkdir_parents rp f
  = let p := reverse rp in
    match os_mkdir p f with
    | Ok f' => Ok f'
    | Raise FileNotFoundError =>
        match rp with
        | [] => Raise FileNotFoundError
        | _ :: rp' =>
            if bool_decide (parent p = p) then Raise FileNotFoundError
            else
              match mkdir_parents rp' f with
              | Raise e => Raise e
              | Ok f1 =>
                  match os_mkdir p f1 with
                  | Ok f2 => Ok f2
                  | Raise FileNotFoundError => Raise FileNotFoundError
                  | Raise e => if is_dir f1 p then Ok f1 else Raise e
                  end
              end
        end
    | Raise e => if is_dir f p then Ok f else Raise e
    end.
Proof. by destruct rp. Qed.

Lemma mkdir_parents_is_dir rp f f' :
  mkdir_parents rp f = Ok f' → is_dir f' (reverse rp) = true.
Proof.
  rewrite mkdir_parents_unfold. cbv zeta.
  destruct (os_mkdir (reverse rp) f) as [f0|e] eqn:Hmk.
  { intros [= <-]. by eapply os_mkdir_is_dir. }
  assert (∀ r : result fs,
            (if is_dir f (reverse rp) then Ok f else r) = Ok f' →
            r ≠ Ok f' → is_dir f' (reverse rp) = true) as Hkeep.
  { intros r. destruct (is_dir f (reverse rp)) eqn:Hd; [|done].
    by intros [= <-]. }
  destruct e; try (by intros H; eapply Hkeep).
  destruct rp as [|c rp']; [done|]. case_bool_decide; [done|].
  destruct (mkdir_parents rp' f) as [f1|e]; [|done].
  destruct (os_mkdir (reverse (c :: rp')) f1) as [f2|e] eqn:Hmk2.
  { intros [= <-]. by eapply os_mkdir_is_dir. }
  destruct e; try done;
    by destruct (is_dir f1 (reverse (c :: rp'))) eqn:Hd; [intros [= <-]|].
Qed.

Lemma mkdir_is_dir p f f' : mkdir p f = Ok f' → is_dir f' p = true.
Proof.
  unfold mkdir. intros H%mkdir_parents_is_dir. by rewrite reverse_involutive in H.
Qed.

Lemma mkdir_exists p f : is_dir f p = true → mkdir p f = Ok f.
Proof.
  intros Hdir. unfold mkdir. rewrite mkdir_parents_unfold. cbv zeta.
  rewrite reverse_involutive. unfold os_mkdir. unfold is_dir in Hdir.
  destruct (stat f p) as [[?|]| |] eqn:Hp; try done.
  unfold is_dir. by rewrite Hp.
Qed.

Lemma unobstructed_prefix f p q :
  unobstructed f p → q `prefix_of` p → unobstructed f q.
Proof. intros Hp Hq r c Hr. apply Hp. by etrans. Qed.

Lemma unobstructed_stat f p :
  unobstructed f p → stat f p = Found Dir ∨ stat f p = ENOENT.
Proof.
  intros Hp. destruct (stat f p) as [[c|]| |] eqn:Hs; auto.
  - apply stat_Found in Hs. assert (is_anchor p = false) as Ha.
    { unfold node_at in Hs. by destruct (is_anchor p). }
    rewrite node_at_not_anchor in Hs by done. by destruct (Hp p c).
  - apply stat_ENOTDIR in Hs as (q & c & Hq & Hs). by destruct (Hp q c).
Qed.

Lemma mkdir_parents_unobstructed rp f :
  unobstructed f (reverse rp) →
  ∃ f', mkdir_parents rp f = Ok f'
        ∧ ∀ q, f' !! q = f !! q ∨ f' !! q = Some Dir.
Proof.
  revert f. induction rp as [|c rp' IH]; intros f Hun.
  all: rewrite mkdir_parents_unfold; cbv zeta.
  all: destruct (unobstructed_stat f _ Hun) as [Hs | Hs].
  all: unfold os_mkdir at 1; rewrite Hs.
  all: try (unfold is_dir at 1; rewrite Hs; by eauto).
  { by rewrite (stat_anchor f (reverse [])) in Hs. }
  assert (is_anchor (reverse (c :: rp')) = false) as Ha.
  { apply (stat_not_anchor f). by rewrite Hs. }
  assert (parent (reverse (c :: rp')) = reverse rp') as Hpar.
  { rewrite reverse_cons. rewrite reverse_cons in Ha.
    by apply is_anchor_snoc. }
  assert (∀ (f0 : fs) q, <[reverse (c :: rp'):=Dir]> f0 !! q = f0 !! q
                  ∨ <[reverse (c :: rp'):=Dir]> f0 !! q = Some Dir)
    as Hins.
  { intros f0 q. destruct (decide (reverse (c :: rp') = q)) as [<-|Hne].
    - right. apply lookup_insert_eq.
    - left. by apply lookup_insert_ne. }
  destruct (is_dir f (parent (reverse (c :: rp')))) eqn:Hdir; [by eauto|].
  rewrite bool_decide_eq_false_2 by by apply parent_ne.
  destruct (IH f) as (f1 & Hmk & Hsame).
  { eapply unobstructed_prefix; [done|]. rewrite reverse_cons.
    by apply prefix_app_r. }
  rewrite Hmk. pose proof (mkdir_parents_is_dir _ _ _ Hmk) as Hd1.
  unfold os_mkdir. rewrite (stat_parent f1) by done. rewrite Hpar.
  unfold is_dir in Hd1.
  destruct (stat f1 (reverse rp')) as [[?|]| |] eqn:Hs1; try done.
  destruct (f1 !! reverse (c :: rp')) as [[b|]|] eqn:Hl.
  - destruct (Hsame (reverse (c :: rp'))) as [Hq | Hq]; [|congruence].
    rewrite Hl in Hq. by destruct (Hun (reverse (c :: rp')) b).
  - unfold is_dir. rewrite (stat_parent f1) by done. rewrite Hpar, Hs1, Hl.
    eauto.
  - unfold is_dir. rewrite Hs1. eexists. split; [done|]. intros q.
    destruct (Hins f1 q) as [-> | ->]; auto.
Qed.

Lemma mkdir_unobstructed p f : unobstructed f p → ∃ f', mkdir p f = Ok f'.
Proof.
  intros Hun. destruct (mkdir_parents_unobstructed (reverse p) f)
    as (f' & Hmk & _); [by rewrite reverse_involutive|]. by exists f'.
Qed.

(** ** Reading, writing and copying *)

Lemma write_file_Ok q c f f' :
  write_file q c f = Ok f' →
  f' = <[q:=File c]> f ∧ is_anchor q = false
  ∧ is_dir f (parent q) = true ∧ stat f q ≠ Found Dir.
Proof.
  unfold write_file. destruct (stat f q) as [[b|]| |] eqn:Hq; try done.
  - intros [= <-]. assert (is_anchor q = false) as Ha.
    { apply (stat_not_anchor f). by rewrite Hq. }
    repeat split; try done. rewrite stat_parent in Hq by done.
    unfold is_dir. by destruct (stat f (parent q)) as [[?|]| |].
  - destruct (is_dir f (parent q)) eqn:Hdir; [|done]. intros [= <-].
    repeat split; try done. apply (stat_not_anchor f). by rewrite Hq.
Qed.

Lemma write_file_stat q c f f' :
  write_file q c f = Ok f' → stat f' q = Found (File c).
Proof.
  intros (-> & Ha & Hdir & _)%write_file_Ok. by apply stat_insert.
Qed.

Lemma write_file_read q c f f' :
  write_file q c f = Ok f' → read_file q f' = Ok c.
Proof. intros H%write_file_stat. unfold read_file. by rewrite H. Qed.

Lemma write_file_is_dir q c f f' p :
  write_file q c f = Ok f' → is_dir f p = true → is_dir f' p = true.
Proof.
  intros (-> & Ha & _ & Hq)%write_file_Ok Hp. unfold is_dir in *.
  destruct (stat f p) as [[?|]| |] eqn:Hs; try done.
  rewrite stat_insert_ne; [by rewrite Hs|].
  intros Hpre. by apply Hq, (stat_prefix_dir f p).
Qed.

Lemma write_file_again q c c' f f' :
  write_file q c f = Ok f' → write_file q c' f' = Ok (<[q:=File c']> f').
Proof. intros H%write_file_stat. unfold write_file. by rewrite H. Qed.
End FsFacts.

(* ===================================================================== *)
(** * Storage areas and documents *)
(* ===================================================================== *)

Module StorageFacts.
Import Py Datetime App Spec FsFacts.

Lemma add_storage_spec name w :
  add_storage name w
  = let path := Fs.joinpath STORAGE_DIR name in
    let w0 := traced [Call F_add_storage] w in
    match Fs.mkdir path (files w) with
    | Ok f =>
        (Ok tt, printed [Line ("Created storage: " +:+ Fs.str path)]
                  (set_files f w0))
    | Raise e => (Raise e, w0)
    end.
Proof.
  unfold add_storage, bind, log, lift_fs, print. cbn.
  by destruct (Fs.mkdir _ _).
Qed.

Lemma add_document_spec label file_path storage w :
  add_document label file_path storage w
  = let w0 := traced [Call F_add_document] w in
    let src := Fs.Path file_path in
    match Fs.mkdir (storage_path storage) (files w) with
    | Raise e => (Raise e, w0)
    | Ok f1 =>
        match Fs.copy src (dest file_path storage) f1 with
        | Raise e => (Raise e, set_files f1 w0)
        | Ok f2 =>
            let w2 :=
              traced [File_write
                        (Fs.copy_target src (dest file_path storage) f1)]
                     (set_files f2 w0) in
            match db w with
            | None => (Raise OperationalError, w2)
            | Some d =>
                (Ok tt,
                 printed [Line ("Stored document at "
                                +:+ Fs.str (dest file_path storage))]
                   (traced [Sql_insert T_documents]
                      (set_db
                         (Sqlite.Database (Sqlite.tasks d) (Sqlite.notes d)
                            (Sqlite.events d)
                            (Sqlite.insert
                               (Sqlite.Document label
                                  (Fs.str (dest file_path storage)) storage)
                               (Sqlite.documents d)))
                         w2)))
            end
        end
    end.
Proof.
  cbv [add_document bind log lift_fs insert_document get_db put_db print
       set_files set_db storage_path dest].
  cbn [db files today uid_next console trace].
  destruct (Fs.mkdir _ (files w)) as [f1|e]; [|done].
  cbn [db files today uid_next console trace].
  match goal with
  | |- context [Fs.copy ?a ?b ?c] => destruct (Fs.copy a b c) as [f2|e]
  end; [|done].
  cbn [db files today uid_next console trace].
  by destruct w as [[d|] f t u c tr].
Qed.

Lemma copy_Ok src dst f f2 :
  Fs.copy src dst f = Ok f2 →
  ∃ c, Fs.read_file src f = Ok c
       ∧ Fs.write_file (Fs.copy_target src dst f) c f = Ok f2.
Proof.
  unfold Fs.copy. cbv zeta. destruct (Fs.samefile _ _ _); [done|].
  destruct (Fs.read_file src f) as [c|e]; [|done]. by exists c.
Qed.

Lemma copy_missing src dst f :
  Fs.stat f src = Fs.ENOENT → Fs.copy src dst f = Raise FileNotFoundError.
Proof.
  intros Hsrc. unfold Fs.copy, Fs.samefile, Fs.read_file. cbv zeta.
  rewrite Hsrc. by rewrite andb_false_r.
Qed.

Lemma copy_target_written src src' dst c f f2 :
  Fs.write_file (Fs.copy_target src dst f) c f = Ok f2 →
  Fs.name src' = Fs.name src →
  Fs.copy_target src' dst f2 = Fs.copy_target src dst f.
Proof.
  unfold Fs.copy_target. intros Hw ->.
  destruct (Fs.is_dir f dst) eqn:Hdir.
  - by rewrite (write_file_is_dir _ _ _ _ _ Hw Hdir).
  - apply write_file_stat in Hw. unfold Fs.is_dir. by rewrite Hw.
Qed.

(** ** add-storage *)

(** C6, amended.  When no regular file stands at the directory to make or
    at one of its parents, [add_storage] called twice with the same name
    returns both times; the second call leaves the file system as the
    first one made it, where the path of the area is a directory (a path
    names one node), and the tables are not touched. *)
Theorem add_storage_twice name w :
  unobstructed (files w) (Fs.joinpath STORAGE_DIR name) →
  ∃ w1 w2,
    add_storage name w = (Ok tt, w1)
    ∧ add_storage name w1 = (Ok tt, w2)
    ∧ files w2 = files w1
    ∧ Fs.is_dir (files w2) (Fs.joinpath STORAGE_DIR name) = true
    ∧ db w2 = db w.
Proof.
  intros Hun. destruct (mkdir_unobstructed _ _ Hun) as [f1 Hmk].
  pose proof (mkdir_is_dir _ _ _ Hmk) as Hdir.
  eexists _, _. rewrite !add_storage_spec. cbv zeta. rewrite Hmk.
  split; [done|]. cbn [files printed set_files traced].
  by rewrite (mkdir_exists _ _ Hdir).
Qed.

Lemma add_storage_twice_witness :
  ∃ w1 w2,
    add_storage "finance" initial_world = (Ok tt, w1)
    ∧ add_storage "finance" w1 = (Ok tt, w2)
    ∧ files w2 = files w1
    ∧ Fs.is_dir (files w2) (Fs.joinpath STORAGE_DIR "finance") = true
    ∧ db w2 = db initial_world.
Proof.
  apply (add_storage_twice "finance" initial_world).
  intros q c _. unfold initial_world. cbn [files]. by rewrite lookup_empty.
Defined.

(** C6, as stated, fails: once a document inv.pdf is stored in the area
    finance, [add_storage] with the name finance/inv.pdf raises
    [FileExistsError], the first time and the second time. *)
Lemma add_storage_over_stored_copy :
  Fs.stat (files stored_world) (Fs.joinpath STORAGE_DIR "finance/inv.pdf")
  = Fs.Found (Fs.File (Fs.Bytes "invoice of May"))
  ∧ (add_storage "finance/inv.pdf" stored_world).1 = Raise FileExistsError
  ∧ (add_storage "finance/inv.pdf"
       (add_storage "finance/inv.pdf" stored_world).2).1
    = Raise FileExistsError.
Proof. by vm_compute. Qed.

(** ** add-doc *)

(** C4, amended.  When the directory of the area exists or can be made and
    the source does not exist at the time of the copy, [add_document]
    raises [FileNotFoundError].  Whatever exception [add_document] raises,
    the tables are as before; they change only in a call whose copy has
    returned. *)
Theorem add_document_missing_source label file_path storage w :
  let out := add_document label file_path storage w in
  (∀ f1, Fs.mkdir (storage_path storage) (files w) = Ok f1 →
         Fs.stat f1 (Fs.Path file_path) = Fs.ENOENT →
         out.1 = Raise FileNotFoundError)
  ∧ (∀ e, out.1 = Raise e → db out.2 = db w)
  ∧ (db out.2 ≠ db w →
     ∃ f1 f2,
       Fs.mkdir (storage_path storage) (files w) = Ok f1
       ∧ Fs.copy (Fs.Path file_path) (dest file_path storage) f1 = Ok f2
       ∧ files out.2 = f2).
Proof.
  cbv zeta. rewrite add_document_spec. cbv zeta.
  destruct (Fs.mkdir (storage_path storage) (files w)) as [f1|e1] eqn:Hmk.
  2: { split; [done|]. split; [done|]. by cbn. }
  destruct (Fs.copy (Fs.Path file_path) (dest file_path storage) f1)
    as [f2|e2] eqn:Hcp.
  2: { split; [|split; [done|by cbn]].
       intros ? [= <-] Hsrc. rewrite (copy_missing _ _ _ Hsrc) in Hcp.
       by simplify_eq. }
  split.
  { intros ? [= <-] Hsrc. by rewrite (copy_missing _ _ _ Hsrc) in Hcp. }
  destruct (db w) as [d|] eqn:Hd; cbn.
  - split; [done|]. intros _. by exists f1, f2.
  - split; [done|]. by rewrite Hd.
Qed.

Lemma add_document_missing_source_witness :
  (add_document "X" "/no/such/file" (Some "finance") office_world).1
  = Raise FileNotFoundError
  ∧ db (add_document "X" "/no/such/file" (Some "finance") office_world).2
    = db office_world.
Proof.
  destruct (add_document_missing_source "X" "/no/such/file" (Some "finance")
              office_world) as (Hmissing & Hkeep & _).
  assert ((add_document "X" "/no/such/file" (Some "finance")
             office_world).1 = Raise FileNotFoundError) as Hraise.
  { eapply Hmissing; reflexivity. }
  split; [exact Hraise|]. exact (Hkeep _ Hraise).
Defined.

(** C4, as stated, fails.  On an installation without any file, a source
    that names the directory of the area does not exist, yet the call
    makes that directory first and the copy then raises
    [IsADirectoryError].  And when a stored copy stands where the
    directory of the area should be made, the call raises
    [FileExistsError] before the source is looked at. *)
Lemma add_document_missing_source_other_errors :
  Fs.stat (files ready_world) (Fs.Path "storage/finance") = Fs.ENOENT
  ∧ (add_document "X" "storage/finance" (Some "finance") ready_world).1
    = Raise IsADirectoryError
  ∧ Fs.stat (files stored_world) (Fs.Path "/no/such/file") = Fs.ENOENT
  ∧ (add_document "X" "/no/such/file" (Some "finance/inv.pdf")
       stored_world).1
    = Raise FileExistsError.
Proof. by vm_compute. Qed.

(** C5, amended.  A call of [add_document] that returns records the path
    [STORAGE_DIR / (storage or '') / src.name] and leaves a copy of the
    source where [shutil.copy] puts it.  A second call for the same area
    with another regular file of the same base name, which is not that
    copy itself, returns as well: the copy now holds the content of the
    second source, and the table holds the rows of both calls, with the
    same path. *)
Theorem add_document_same_basename
    label1 label2 file1 file2 storage w w1 c2 :
  add_document label1 file1 storage w = (Ok tt, w1) →
  Fs.name (Fs.Path file2) = Fs.name (Fs.Path file1) →
  Fs.stat (files w1) (Fs.Path file2) = Fs.Found (Fs.File c2) →
  Fs.Path file2 ≠ stored_at file1 storage (files w1) →
  ∃ c1 w2 i j,
    Fs.read_file (stored_at file1 storage (files w1)) (files w1) = Ok c1
    ∧ document_rows w1
      = document_rows w
        ++ [(i, Sqlite.Document label1 (Fs.str (dest file1 storage))
                  storage)]
    ∧ add_document label2 file2 storage w1 = (Ok tt, w2)
    ∧ files w2
      = <[stored_at file1 storage (files w1) := Fs.File c2]> (files w1)
    ∧ Fs.read_file (stored_at file1 storage (files w1)) (files w2) = Ok c2
    ∧ i < j
    ∧ document_rows w2
      = document_rows w
        ++ [(i, Sqlite.Document label1 (Fs.str (dest file1 storage))
                  storage);
            (j, Sqlite.Document label2 (Fs.str (dest file1 storage))
                  storage)].
Proof.
  intros H1 Hname Hsrc Hne. rewrite add_document_spec in H1.
  cbv zeta in H1.
  destruct (Fs.mkdir (storage_path storage) (files w)) as [f1|?] eqn:Hmk;
    [|done].
  destruct (Fs.copy (Fs.Path file1) (dest file1 storage) f1) as [f2|?]
    eqn:Hcp; [|done].
  destruct (db w) as [d|] eqn:Hd; [|done].
  injection H1 as <-. cbn [files printed traced set_db set_files] in Hsrc, Hne.
  cbn [files printed traced set_db set_files].
  apply copy_Ok in Hcp as (c1 & Hrd & Hwr).
  pose proof (copy_target_written _ (Fs.Path file1) _ _ _ _ Hwr eq_refl)
    as Ht1.
  pose proof (copy_target_written _ (Fs.Path file2) _ _ _ _ Hwr Hname)
    as Ht2.
  unfold stored_at in *. rewrite Ht1 in *.
  set (target := Fs.copy_target (Fs.Path file1) (dest file1 storage) f1)
    in *.
  assert (dest file2 storage = dest file1 storage) as Hdest.
  { unfold dest. by rewrite Hname. }
  assert (Fs.mkdir (storage_path storage) f2 = Ok f2) as Hmk2.
  { apply mkdir_exists. eapply write_file_is_dir; [done|].
    by eapply mkdir_is_dir. }
  assert (Fs.copy (Fs.Path file2) (dest file1 storage) f2
          = Ok (<[target := Fs.File c2]> f2)) as Hcp2.
  { unfold Fs.copy. cbv zeta. rewrite Ht2. fold target. unfold Fs.samefile.
    rewrite bool_decide_eq_false_2 by done. cbn [andb].
    unfold Fs.read_file. rewrite Hsrc. by eapply write_file_again. }
  exists c1. eexists.
  exists (S (Sqlite.seq (Sqlite.documents d))),
         (S (S (Sqlite.seq (Sqlite.documents d)))).
  split; [by eapply write_file_read|].
  split; [unfold document_rows; by rewrite Hd|].
  rewrite add_document_spec. cbv zeta.
  cbn [files db printed traced set_db set_files].
  rewrite Hdest, Hmk2, Hcp2. split; [done|].
  cbn [files db printed traced set_db set_files snd].
  split; [done|]. split.
  { eapply write_file_read, write_file_again, Hwr. }
  split; [lia|]. unfold document_rows. rewrite Hd. cbn.
  by rewrite <- app_assoc.
Qed.

Lemma add_document_same_basename_witness :
  ∃ c1 w2 i j,
    Fs.read_file (stored_at "/tmp/inv.pdf" (Some "finance")
                    (files stored_world)) (files stored_world) = Ok c1
    ∧ document_rows stored_world
      = document_rows office_world
        ++ [(i, Sqlite.Document "Invoice" "storage/finance/inv.pdf"
                  (Some "finance"))]
    ∧ add_document "June" "/tmp/new/inv.pdf" (Some "finance") stored_world
      = (Ok tt, w2)
    ∧ files w2
      = <[stored_at "/tmp/inv.pdf" (Some "finance") (files stored_world)
          := Fs.File (Fs.Bytes "invoice of June")]> (files stored_world)
    ∧ Fs.read_file (stored_at "/tmp/inv.pdf" (Some "finance")
                      (files stored_world)) (files w2)
      = Ok (Fs.Bytes "invoice of June")
    ∧ i < j
    ∧ document_rows w2
      = document_rows office_world
        ++ [(i, Sqlite.Document "Invoice" "storage/finance/inv.pdf"
                  (Some "finance"));
            (j, Sqlite.Document "June" "storage/finance/inv.pdf"
                  (Some "finance"))].
Proof.
  apply (add_document_same_basename "Invoice" "June" "/tmp/inv.pdf"
           "/tmp/new/inv.pdf" (Some "finance") office_world stored_world
           (Fs.Bytes "invoice of June")).
  - reflexivity.
  - reflexivity.
  - reflexivity.
  - by vm_compute.
Defined.

(** C5, as stated, fails.  A second call whose source is the stored copy
    itself, a file of the same base name in the same area, raises
    [SameFileError], and no second row is inserted. *)
Lemma add_document_same_file :
  Fs.name (Fs.Path "storage/finance/inv.pdf")
  = Fs.name (Fs.Path "/tmp/inv.pdf")
  ∧ Fs.stat (files stored_world) (Fs.Path "storage/finance/inv.pdf")
    = Fs.Found (Fs.File (Fs.Bytes "invoice of May"))
  ∧ (add_document "Again" "storage/finance/inv.pdf" (Some "finance")
       stored_world).1
    = Raise SameFileError
  ∧ document_rows
      (add_document "Again" "storage/finance/inv.pdf" (Some "finance")
         stored_world).2
    = document_rows stored_world.
Proof. by vm_compute. Qed.

(** When the destination is a directory already, [shutil.copy] puts the
    copy inside of it, and the row records the path of the directory. *)
Example add_document_into_directory :
  let w := (add_storage "inv.pdf" office_world).2 in
  let out := add_document "Invoice" "/tmp/inv.pdf" None w in
  out.1 = Ok tt
  ∧ stored_at "/tmp/inv.pdf" None (files w)
    = ["storage"; "inv.pdf"; "inv.pdf"]
  ∧ Fs.stat (files out.2) ["storage"; "inv.pdf"; "inv.pdf"]
    = Fs.Found (Fs.File (Fs.Bytes "invoice of May"))
  ∧ Fs.stat (files out.2) (dest "/tmp/inv.pdf" None) = Fs.Found Fs.Dir
  ∧ document_rows out.2
    = [(1, Sqlite.Document "Invoice" "storage/inv.pdf" None)].
Proof. by vm_compute. Qed.
End StorageFacts.

(* ===================================================================== *)
(** * The store over runs *)
(* ===================================================================== *)

Module StoreFacts.
Import Py Datetime DatetimeFacts App Spec AppFacts CalendarFacts TraceFacts
       FsFacts StorageFacts.

Lemma for_each_preserves {A B} (proj : world → B) (l : list A)
    (body : A → M unit) w :
  (∀ r w, proj (body r w).2 = proj w) →
  proj (for_each l body w).2 = proj w.
Proof.
  intros Hbody. revert w. induction l as [|x l IH]; intros w; [done|].
  cbn [for_each]. unfold bind. specialize (Hbody x w).
  destruct (body x w) as [[[]|e] w1]; cbn in *; [|done].
  by rewrite IH.
Qed.

Lemma for_each_raises {A} (P : exn → Prop) (l : list A)
    (body : A → M unit) w e :
  (∀ r w e, (body r w).1 = Raise e → P e) →
  (for_each l body w).1 = Raise e → P e.
Proof.
  intros Hbody. revert w. induction l as [|x l IH]; intros w; [done|].
  cbn [for_each]. unfold bind. specialize (Hbody x w).
  destruct (body x w) as [[[]|e'] w1]; cbn in *.
  - apply IH.
  - intros [= <-]. by apply Hbody.
Qed.

(** ** The listings change nothing *)

Lemma list_tasks_state w : state (list_tasks w).2 = state w.
Proof.
  unfold list_tasks, bind at 1 2, log, get_db. cbn -[date_fromisoformat].
  destruct (db w) eqn:Hd; [|by unfold state; cbn; rewrite Hd].
  rewrite for_each_preserves; [by unfold state; cbn; rewrite Hd|].
  intros [i [desc exp]] w'. unfold bind, date_today, from_option, print.
  cbn -[date_fromisoformat]. by destruct (date_fromisoformat exp).
Qed.

Lemma list_notes_state w : state (list_notes w).2 = state w.
Proof.
  unfold list_notes, bind at 1 2, log, get_db. cbn.
  destruct (db w) eqn:Hd; [|by unfold state; cbn; rewrite Hd].
  rewrite for_each_preserves; [by unfold state; cbn; rewrite Hd|done].
Qed.

Lemma list_events_state w : state (list_events w).2 = state w.
Proof.
  unfold list_events, bind at 1 2, log, get_db. cbn.
  destruct (db w) eqn:Hd; [|by unfold state; cbn; rewrite Hd].
  rewrite for_each_preserves; [by unfold state; cbn; rewrite Hd|done].
Qed.

Lemma list_documents_state w : state (list_documents w).2 = state w.
Proof.
  unfold list_documents, bind at 1 2, log, get_db. cbn.
  destruct (db w) eqn:Hd; [|by unfold state; cbn; rewrite Hd].
  rewrite for_each_preserves; [by unfold state; cbn; rewrite Hd|done].
Qed.

(** ** What each function does to the tables *)

Lemma add_task_db text s w d :
  db w = Some d →
  ∃ d', db (add_task text s w).2 = Some d' ∧ db_step d d'.
Proof.
  intros Hd. rewrite add_task_spec.
  destruct (datetime_fromisoformat s) as [dt|] eqn:Hparse.
  - unfold insert_task, bind, get_db, put_db, log, traced. cbn. rewrite Hd.
    cbn. eexists. split; [done|]. apply step_task.
    by eapply datetime_fromisoformat_valid.
  - exists d. split; [done|]. constructor.
Qed.

Lemma add_note_db content w d :
  db w = Some d →
  ∃ d', db (add_note content w).2 = Some d' ∧ db_step d d'.
Proof.
  intros Hd. unfold add_note, insert_note, bind, get_db, put_db, log. cbn.
  rewrite Hd. cbn. eexists. split; [done|]. apply step_note.
Qed.

Lemma generate_calendar_db w d :
  db w = Some d → db (generate_calendar w).2 = Some d.
Proof.
  intros Hd. pose proof (generate_calendar_spec w d Hd) as Hgen.
  destruct (entries_from _ _); cbv zeta in Hgen.
  - by destruct (Fs.write_file _ _ _); rewrite Hgen.
  - by destruct Hgen as [u ->].
Qed.

Lemma add_event_db name time w d :
  db w = Some d →
  ∃ d', db (add_event name time w).2 = Some d' ∧ db_step d d'.
Proof.
  intros Hd. rewrite add_event_spec.
  destruct (datetime_fromisoformat time) as [dt|] eqn:Hparse.
  - unfold bind. rewrite insert_event_spec. cbn [traced db]. rewrite Hd.
    eexists. split; [by apply generate_calendar_db|].
    apply step_event. by eapply datetime_fromisoformat_valid.
  - exists d. split; [done|]. constructor.
Qed.

Lemma add_storage_db name w : db (add_storage name w).2 = db w.
Proof. rewrite add_storage_spec. cbv zeta. by destruct (Fs.mkdir _ _). Qed.

Lemma add_document_db label file_path storage w d :
  db w = Some d →
  ∃ d', db (add_document label file_path storage w).2 = Some d'
        ∧ db_step d d'.
Proof.
  intros Hd. rewrite add_document_spec. cbv zeta. rewrite Hd.
  destruct (Fs.mkdir _ _) as [f1|?].
  - destruct (Fs.copy _ _ _) as [f2|?]; cbn.
    + eexists. split; [done|]. apply step_document.
    + exists d. split; [done|]. constructor.
  - exists d. split; [done|]. constructor.
Qed.

Lemma state_db w w' : state w' = state w → db w' = db w.
Proof. by intros [= -> _ _ _]. Qed.

Lemma dispatch_db args w d :
  db w = Some d →
  ∃ d', db (dispatch args w).2 = Some d' ∧ db_step d d'.
Proof.
  intros Hd. unfold dispatch.
  repeat match goal with
         | |- context [if command_is ?a ?c then _ else _] =>
             destruct (command_is a c)
         end.
  - by apply add_task_db.
  - exists d. rewrite (state_db _ _ (list_tasks_state w)).
    split; [done|]. constructor.
  - by apply add_note_db.
  - exists d. rewrite (state_db _ _ (list_notes_state w)).
    split; [done|]. constructor.
  - by apply add_event_db.
  - exists d. rewrite (state_db _ _ (list_events_state w)).
    split; [done|]. constructor.
  - exists d. rewrite add_storage_db. split; [done|]. constructor.
  - by apply add_document_db.
  - exists d. rewrite (state_db _ _ (list_documents_state w)).
    split; [done|]. constructor.
  - exists d. split; [done|]. constructor.
Qed.

Lemma main_db argv w :
  ∃ d', db (main argv w).2 = Some d'
        ∧ db_step (default Sqlite.empty_database (db w)) d'.
Proof.
  rewrite main_unfold. cbv zeta.
  destruct (Argparse.parse_args argv) as [args| |].
  - by apply dispatch_db.
  - eexists. split; [done|]. constructor.
  - eexists. split; [done|]. constructor.
Qed.

Lemma run_world argv w : (run argv w).2 = (main argv w).2.
Proof. unfold run. by destruct (main argv w). Qed.

Lemma run_store argv w :
  is_Some (db (run argv w).2) ∧ db_step (store w) (store (run argv w).2).
Proof.
  rewrite run_world. destruct (main_db argv w) as (d' & Hd' & Hstep).
  unfold store at 2. rewrite Hd'. split; [by eexists|done].
Qed.

(** ** Rows are only added *)

Lemma insert_prefix {A} (r : A) (t : Sqlite.table A) :
  Sqlite.rows t `prefix_of` Sqlite.rows (Sqlite.insert r t).
Proof. by eexists. Qed.

Lemma insert_length {A} (r : A) (t : Sqlite.table A) :
  List.length (Sqlite.rows (Sqlite.insert r t))
  = S (List.length (Sqlite.rows t)).
Proof. cbn. rewrite length_app. cbn. lia. Qed.

(** X1. A run of the program, whatever its arguments and however it ends,
    leaves the tables in existence, keeps every row of every table in its
    place, and adds at most one row in all. *)
Theorem run_keeps_rows argv w :
  is_Some (db (run argv w).2)
  ∧ Sqlite.rows (Sqlite.tasks (store w))
    `prefix_of` Sqlite.rows (Sqlite.tasks (store (run argv w).2))
  ∧ Sqlite.rows (Sqlite.notes (store w))
    `prefix_of` Sqlite.rows (Sqlite.notes (store (run argv w).2))
  ∧ Sqlite.rows (Sqlite.events (store w))
    `prefix_of` Sqlite.rows (Sqlite.events (store (run argv w).2))
  ∧ Sqlite.rows (Sqlite.documents (store w))
    `prefix_of` Sqlite.rows (Sqlite.documents (store (run argv w).2))
  ∧ row_count (store w) ≤ row_count (store (run argv w).2)
    ≤ S (row_count (store w)).
Proof.
  destruct (run_store argv w) as [Hsome Hstep]. split; [done|].
  unfold row_count.
  destruct Hstep; cbn [Sqlite.tasks Sqlite.notes Sqlite.events
                         Sqlite.documents];
    rewrite ?insert_length;
    repeat split; try done; try apply insert_prefix; lia.
Qed.

(** ** Rowids *)

Lemma insert_dense {A} (r : A) (t : Sqlite.table A) :
  dense t → dense (Sqlite.insert r t).
Proof.
  unfold dense, Sqlite.insert. cbn [Sqlite.rows Sqlite.seq]. intros Ht.
  by rewrite fmap_app, Ht, seq_S.
Qed.

Lemma db_step_dense d d' : db_step d d' → dense_db d → dense_db d'.
Proof.
  intros Hstep (Ht & Hn & He & Hd).
  destruct Hstep; repeat split; try done; by apply insert_dense.
Qed.

Lemma runs_cons argv argvs w : runs (argv :: argvs) w = runs argvs (run argv w).2.
Proof. done. Qed.

(** X2. Over any sequence of runs the rowids of each table stay the
    numbers 1, 2, ... in the order of insertion: no id is skipped and none
    is handed out twice. *)
Theorem rowids_stay_consecutive argvs w :
  dense_db (store w) → dense_db (store (runs argvs w)).
Proof.
  revert w. induction argvs as [|argv argvs IH]; intros w Hw; [done|].
  rewrite runs_cons. apply IH.
  destruct (run_store argv w) as [_ Hstep]. by eapply db_step_dense.
Qed.

Lemma rowids_stay_consecutive_witness :
  dense_db (store (runs [ ["add-note"; "milk"]; ["add-task"; "rent"; "soon"];
                          ["add-note"; "eggs"] ] initial_world)).
Proof.
  apply (rowids_stay_consecutive
           [ ["add-note"; "milk"]; ["add-task"; "rent"; "soon"];
             ["add-note"; "eggs"] ] initial_world).
  by vm_compute.
Defined.

(** ** Stored dates *)

Lemma db_step_canonical d d' :
  db_step d d' → tasks_canonical d → events_canonical d →
  tasks_canonical d' ∧ events_canonical d'.
Proof.
  intros Hstep Ht He. destruct Hstep as [|text dt Hv| |name dt Hv|];
    (split; [try done|try done]).
  - apply Forall_app. split; [done|]. repeat constructor.
    exists (dt_date dt). split; [|done]. by apply valid_datetime_date.
  - apply Forall_app. split; [done|]. repeat constructor. by exists dt.
Qed.

Lemma runs_canonical argvs w :
  tasks_canonical (store w) → events_canonical (store w) →
  tasks_canonical (store (runs argvs w))
  ∧ events_canonical (store (runs argvs w)).
Proof.
  revert w. induction argvs as [|argv argvs IH]; intros w Ht He; [done|].
  rewrite runs_cons. destruct (run_store argv w) as [_ Hstep].
  destruct (db_step_canonical _ _ Hstep Ht He). by apply IH.
Qed.

Lemma main_list_tasks w :
  main ["list-tasks"] w
  = list_tasks (traced [Call F_init_db] (set_db (store w) w)).
Proof. by rewrite main_unfold. Qed.

Lemma add_event_not_ValueError name time dt w :
  events_canonical (store w) →
  datetime_fromisoformat time = Some dt →
  (add_event name time w).1 ≠ Raise ValueError.
Proof.
  intros Hcan Hparse. rewrite add_event_spec, Hparse.
  unfold bind. rewrite insert_event_spec. cbn [traced db].
  unfold store in Hcan. destruct (db w) as [d|] eqn:Hd; [|done].
  cbn [default] in Hcan.
  set (d' := Sqlite.Database _ _ _ _). set (w1 := traced _ _).
  pose proof (generate_calendar_spec w1 d' eq_refl) as Hgen.
  destruct (entries_from_canonical (uid_next w1)
              (Sqlite.rows (Sqlite.events d'))) as [es Hes].
  { apply Forall_app. split; [done|]. repeat constructor. exists dt.
    split; [|done]. by eapply datetime_fromisoformat_valid. }
  rewrite Hes in Hgen. cbv zeta in Hgen.
  destruct (Fs.write_file CALENDAR_PATH _ (files w1)) as [f|e] eqn:Hwr;
    rewrite Hgen; [done|]. cbn. intros [= ->].
  revert Hwr. unfold Fs.write_file.
  by repeat case_match.
Qed.

(** X3. When the task and event rows hold dates and times as the program
    writes them (as on a fresh installation), they still do after any
    sequence of runs.  So list-tasks then ends with status 0, it never
    meets a date it cannot read, and add-event with a time that parses
    never fails with [ValueError] while the calendar is rebuilt. *)
Theorem stored_dates_stay_readable argvs w :
  tasks_canonical (store w) → events_canonical (store w) →
  tasks_canonical (store (runs argvs w))
  ∧ events_canonical (store (runs argvs w))
  ∧ (run ["list-tasks"] (runs argvs w)).1 = 0%Z
  ∧ ∀ name time dt,
      datetime_fromisoformat time = Some dt →
      (add_event name time (runs argvs w)).1 ≠ Raise ValueError.
Proof.
  intros Ht He. destruct (runs_canonical argvs w Ht He) as [Ht' He'].
  split; [done|]. split; [done|]. set (w1 := runs argvs w) in *. split.
  - unfold run. rewrite main_list_tasks.
    erewrite list_tasks_spec; [done|done|done].
  - intros name time dt Hparse. by eapply add_event_not_ValueError.
Qed.

Lemma stored_dates_stay_readable_witness :
  (run ["list-tasks"]
     (runs [ ["add-task"; "rent"; "2024-07-01 12:00"];
             ["add-task"; "taxes"; "never"] ] initial_world)).1 = 0%Z.
Proof.
  apply (stored_dates_stay_readable
           [ ["add-task"; "rent"; "2024-07-01 12:00"];
             ["add-task"; "taxes"; "never"] ] initial_world);
    by constructor.
Defined.

(** ** The listings of notes and documents *)

Lemma list_notes_spec w d : db w = Some d →
  list_notes w
  = (Ok tt, printed (map (λ r, Line (note_line r))
                         (Sqlite.rows (Sqlite.notes d)))
                    (traced [Call F_list_notes] w)).
Proof.
  intros Hd. destruct w as [? f now u c tr]. cbn in Hd. subst.
  unfold list_notes, bind, log, get_db. cbn.
  apply (for_each_printed _ _ (λ r, Line (note_line r))).
  intros r os _. unfold print, printed. cbn. by rewrite app_assoc.
Qed.

Lemma list_documents_spec w d : db w = Some d →
  list_documents w
  = (Ok tt, printed (map (λ r, Line (document_line r))
                         (Sqlite.rows (Sqlite.documents d)))
                    (traced [Call F_list_documents] w)).
Proof.
  intros Hd. destruct w as [? f now u c tr]. cbn in Hd. subst.
  unfold list_documents, bind, log, get_db. cbn.
  apply (for_each_printed _ _ (λ r, Line (document_line r))).
  intros r os _. unfold print, printed. cbn. by rewrite app_assoc.
Qed.

(** ** The exceptions of a run *)

Lemma os_mkdir_raises p f e : Fs.os_mkdir p f = Raise e → os_error e.
Proof. unfold Fs.os_mkdir, os_error. repeat case_match; naive_solver. Qed.

Lemma mkdir_parents_raises rp f e :
  Fs.mkdir_parents rp f = Raise e → os_error e.
Proof.
  revert f e. induction rp as [|c rp IH]; intros f e.
  all: rewrite mkdir_parents_unfold; cbv zeta.
  all: destruct (Fs.os_mkdir _ f) as [?|e0] eqn:Hmk; [done|].
  all: apply os_mkdir_raises in Hmk.
  - by repeat case_match; intros [= <-].
  - destruct (Fs.mkdir_parents rp f) as [f1|e1] eqn:Hrec.
    + destruct (Fs.os_mkdir _ f1) as [?|e2] eqn:Hmk2.
      * by repeat case_match; intros [= <-].
      * apply os_mkdir_raises in Hmk2.
        by repeat case_match; intros [= <-].
    + apply IH in Hrec. by repeat case_match; intros [= <-].
Qed.

Lemma write_file_raises p c f e : Fs.write_file p c f = Raise e → os_error e.
Proof. unfold Fs.write_file, os_error. repeat case_match; naive_solver. Qed.

Lemma copy_raises src dst f e : Fs.copy src dst f = Raise e → os_error e.
Proof.
  unfold Fs.copy. cbv zeta. destruct (Fs.samefile _ _ _).
  { intros [= <-]. unfold os_error. auto. }
  destruct (Fs.read_file src f) as [c|e0] eqn:Hrd.
  - apply write_file_raises.
  - intros [= <-]. revert Hrd. unfold Fs.read_file, os_error.
    repeat case_match; naive_solver.
Qed.

Lemma list_tasks_raises w d e :
  db w = Some d → (list_tasks w).1 = Raise e → e = ValueError.
Proof.
  intros Hd. unfold list_tasks, bind at 1 2, log, get_db.
  cbn -[date_fromisoformat]. rewrite Hd.
  apply (for_each_raises (λ e, e = ValueError)).
  intros [i [desc exp]] w' e'. unfold bind, date_today, from_option, print.
  cbn -[date_fromisoformat]. destruct (date_fromisoformat exp); [done|].
  by intros [= <-].
Qed.

Lemma add_event_raises name time w d e :
  db w = Some d → (add_event name time w).1 = Raise e →
  e = ValueError ∨ os_error e.
Proof.
  intros Hd. rewrite add_event_spec.
  destruct (datetime_fromisoformat time) as [dt|];
    [|by intros [= <-]; left].
  unfold bind. rewrite insert_event_spec. cbn [traced db]. rewrite Hd.
  set (d' := Sqlite.Database _ _ _ _). set (w1 := traced _ _).
  pose proof (generate_calendar_spec w1 d' eq_refl) as Hgen.
  destruct (entries_from _ _); cbv zeta in Hgen.
  - destruct (Fs.write_file _ _ _) as [?|e0] eqn:Hwr; rewrite Hgen; [done|].
    intros [= <-]. right. by eapply write_file_raises.
  - destruct Hgen as [u ->]. intros [= <-]. by left.
Qed.

Lemma dispatch_raises args w d e :
  db w = Some d → (dispatch args w).1 = Raise e →
  e = ValueError ∨ os_error e.
Proof.
  intros Hd. unfold dispatch.
  repeat match goal with
         | |- context [if command_is ?a ?c then _ else _] =>
             destruct (command_is a c)
         end.
  - rewrite add_task_spec. destruct (datetime_fromisoformat _).
    + unfold insert_task, bind, get_db, put_db, log, traced. cbn.
      by rewrite Hd.
    + intros [= <-]. by left.
  - intros H. left. by apply (list_tasks_raises w d).
  - unfold add_note, insert_note, bind, get_db, put_db, log. cbn.
    by rewrite Hd.
  - by rewrite (list_notes_spec w d Hd).
  - by apply (add_event_raises _ _ _ d).
  - by rewrite (list_events_spec w d Hd).
  - rewrite add_storage_spec. cbv zeta.
    destruct (Fs.mkdir _ _) as [?|e0] eqn:Hmk; [done|].
    intros [= <-]. right. by eapply mkdir_parents_raises.
  - rewrite add_document_spec. cbv zeta. rewrite Hd.
    destruct (Fs.mkdir _ _) as [f1|e0] eqn:Hmk.
    + destruct (Fs.copy _ _ f1) as [f2|e1] eqn:Hcp; [done|].
      intros [= <-]. right. by eapply copy_raises.
    + intros [= <-]. right. by eapply mkdir_parents_raises.
  - by rewrite (list_documents_spec w d Hd).
  - done.
Qed.

(** X4. A run never fails for a missing table, since [init_db] comes
    first: an exception that ends a run is the exit of the argument
    parser (status 0 after the help, 2 after a usage error), a
    [ValueError] for a date or time that does not parse, or an error of
    the file system. *)
Theorem run_exceptions argv w e :
  (main argv w).1 = Raise e →
  e ≠ OperationalError
  ∧ (e = SystemExit 0 ∨ e = SystemExit 2 ∨ e = ValueError ∨ os_error e).
Proof.
  intros Hraise.
  assert (e = SystemExit 0 ∨ e = SystemExit 2 ∨ e = ValueError ∨ os_error e)
    as He.
  { revert Hraise. rewrite main_unfold. cbv zeta.
    destruct (Argparse.parse_args argv) as [args| |].
    - intros H. right. right. eapply dispatch_raises; [|exact H]. done.
    - intros [= <-]. auto.
    - intros [= <-]. auto. }
  split; [|done]. intros ->. unfold os_error in He.
  by repeat destruct He as [He|He].
Qed.

Lemma run_exceptions_witness :
  (main ["add-task"; "rent"; "soon"] initial_world).1 = Raise ValueError
  ∧ ValueError ≠ OperationalError.
Proof.
  assert ((main ["add-task"; "rent"; "soon"] initial_world).1
          = Raise ValueError) as Hraise by by vm_compute.
  split; [exact Hraise|].
  exact (proj1 (run_exceptions ["add-task"; "rent"; "soon"] initial_world
                  ValueError Hraise)).
Defined.

(** ** Listing runs *)

(** X5. A run of list-tasks, list-notes, list-events or list-docs changes
    no row and no file, however it ends: it only prints. *)
Theorem listing_runs_change_nothing c w :
  c ∈ ["list-tasks"; "list-notes"; "list-events"; "list-docs"]%string →
  store (run [c] w).2 = store w ∧ files (run [c] w).2 = files w.
Proof.
  intros Hc. rewrite run_world.
  assert (∀ w', state w' = state (started w) →
                store w' = store w ∧ files w' = files w) as Hstate.
  { intros w' [= Hdb Hfiles _ _]. unfold store. by rewrite Hdb, Hfiles. }
  set_unfold. destruct Hc as [->|[->|[->|[->|[]]]]]; apply Hstate.
  - exact (list_tasks_state (started w)).
  - exact (list_notes_state (started w)).
  - exact (list_events_state (started w)).
  - exact (list_documents_state (started w)).
Qed.

Lemma listing_runs_change_nothing_witness :
  store (run ["list-tasks"] tasks_world).2 = store tasks_world
  ∧ files (run ["list-tasks"] tasks_world).2 = files tasks_world.
Proof.
  apply (listing_runs_change_nothing "list-tasks" tasks_world).
  set_unfold. by left.
Defined.

(** ** The insertion of an event and the calendar *)

Lemma write_calendar_spec c f :
  Fs.write_file CALENDAR_PATH c f
  = if Fs.is_dir f CALENDAR_PATH then Raise IsADirectoryError
    else Ok (<[CALENDAR_PATH := Fs.File c]> f).
Proof.
  unfold Fs.write_file, Fs.is_dir, Fs.stat, CALENDAR_PATH. cbn.
  unfold Fs.node_at. cbn.
  by destruct (f !! ["calendar.ics"%string]) as [[?|]|].
Qed.

(** X6. With the tables in place, event rows as the program writes them
    and a time that parses, [add_event] inserts the row in every case, and
    returns unless a directory stands in the place of calendar.ics: then
    it raises [IsADirectoryError] with the row inserted and no file
    changed, so that the calendar lacks the new event. *)
Theorem add_event_outcome name time dt w d :
  db w = Some d → events_canonical d →
  datetime_fromisoformat time = Some dt →
  db (add_event name time w).2
  = Some (Sqlite.Database (Sqlite.tasks d) (Sqlite.notes d)
            (Sqlite.insert (Sqlite.Event name (datetime_isoformat dt))
               (Sqlite.events d))
            (Sqlite.documents d))
  ∧ (Fs.is_dir (files w) CALENDAR_PATH = false →
     (add_event name time w).1 = Ok tt)
  ∧ (Fs.is_dir (files w) CALENDAR_PATH = true →
     (add_event name time w).1 = Raise IsADirectoryError
     ∧ files (add_event name time w).2 = files w).
Proof.
  intros Hd Hcan Hparse. rewrite add_event_spec, Hparse.
  unfold bind. rewrite insert_event_spec. cbn [traced db]. rewrite Hd.
  set (d' := Sqlite.Database _ _ _ _). set (w1 := traced _ _).
  split; [by apply generate_calendar_db|].
  pose proof (generate_calendar_spec w1 d' eq_refl) as Hgen.
  destruct (entries_from_canonical (uid_next w1)
              (Sqlite.rows (Sqlite.events d'))) as [es Hes].
  { apply Forall_app. split; [done|]. repeat constructor. exists dt.
    split; [|done]. by eapply datetime_fromisoformat_valid. }
  rewrite Hes in Hgen. cbv zeta in Hgen.
  rewrite write_calendar_spec in Hgen. change (files w1) with (files w) in Hgen.
  destruct (Fs.is_dir (files w) CALENDAR_PATH); rewrite Hgen; by split.
Qed.

Lemma add_event_outcome_witness :
  (add_event "Standup" "2024-01-02 09:00" blocked_world).1
  = Raise IsADirectoryError
  ∧ files (add_event "Standup" "2024-01-02 09:00" blocked_world).2
    = files blocked_world.
Proof.
  apply (add_event_outcome "Standup" "2024-01-02 09:00"
           (Mk_datetime (Date 2024 1 2) 9 0 0 0 None) blocked_world
           Sqlite.empty_database).
  - reflexivity.
  - constructor.
  - by vm_compute.
  - by vm_compute.
Defined.
End StoreFacts.

(* ===================================================================== *)
(** * Listings read back what was stored *)
(* ===================================================================== *)

Module OrderByFacts.
Import Sqlite SqliteFacts.

Section stable.
Context {A : Type} (key : A → string) (id : A → nat).

Let before (a b : A) : Prop :=
  String.leb (key a) (key b) = true ∧ (key a = key b → id a < id b).

Lemma leb_refl s : String.leb s s = true.
Proof. unfold String.leb. by rewrite OrderFacts.compare_refl. Qed.

Lemma sort_insert_HdRel_before y x l :
  String.leb (key x) (key y) = false →
  HdRel before y l → HdRel before y (sort_insert key x l).
Proof.
  intros Hxy Hl. assert (before y x) as Hyx.
  { split.
    - by destruct (String.leb_total (key x) (key y)); [congruence|].
    - intros Heq. by rewrite Heq, leb_refl in Hxy. }
  destruct l as [|z l]; cbn; [by constructor|].
  destruct (String.leb (key x) (key z)); constructor; [done|].
  by inversion Hl.
Qed.

Lemma sort_insert_before x l :
  Sorted before l → Forall (λ b, id x < id b) l →
  Sorted before (sort_insert key x l).
Proof.
  induction 1 as [|y l Hl IH Hhd]; cbn; [by repeat constructor|].
  intros [Hxy Hxl]%Forall_cons.
  destruct (String.leb (key x) (key y)) eqn:Hleb.
  - constructor; [by constructor|]. by constructor.
  - constructor; [by apply IH|]. by apply sort_insert_HdRel_before.
Qed.

(** [ORDER BY] keeps rows with equal texts in the order of their ids. *)
Lemma order_by_stable l :
  StronglySorted (λ a b, id a < id b) l → Sorted before (order_by key l).
Proof.
  induction 1 as [|x l Hl IH Hx]; [constructor|].
  apply sort_insert_before; [done|].
  by rewrite (order_by_Permutation key l).
Qed.
End stable.

Lemma dense_StronglySorted {A} (t : table A) :
  Spec.dense t →
  StronglySorted (λ a b : nat * A, a.1 < b.1) (rows t).
Proof.
  unfold Spec.dense. generalize (rows t) 1 (seq t). clear.
  intros l. induction l as [|[i r] l IH]; intros s n Hl; [constructor|].
  destruct n as [|n]; [done|]. cbn in Hl. injection Hl as -> Hl.
  constructor; [by eapply IH|].
  apply Forall_forall. intros [j r'] Hj. cbn.
  assert (j ∈ List.seq (S s) n) as Hin.
  { rewrite <- Hl. by apply (list_elem_of_fmap_2 fst _ (j, r')). }
  apply list_elem_of_In, in_seq in Hin. lia.
Qed.
End OrderByFacts.

Module ReadBackFacts.
Import Py Text TextFacts Datetime DatetimeFacts OrderFacts SqliteFacts App
       Spec AppFacts StorageFacts StoreFacts OrderByFacts.
Local Open Scope Z_scope.

(** ** Tasks in the order of their dates *)

Lemma compare_date_isoformat a b :
  valid_date a = true → valid_date b = true →
  String.compare (date_isoformat a) (date_isoformat b) = date_compare a b.
Proof.
  intros (Hya & Hma & Hda)%date_field_bounds
         (Hyb & Hmb & Hdb)%date_field_bounds.
  unfold date_isoformat, date_compare.
  rewrite compare_zfill by done.
  destruct (year a ?= year b); [|done..].
  rewrite ?app_String, ?app_empty_l, compare_String_same.
  rewrite compare_zfill by done.
  destruct (month a ?= month b); [|done..].
  rewrite ?app_String, ?app_empty_l, compare_String_same.
  rewrite <- (app_empty_r (zfill 2 (day a))),
          <- (app_empty_r (zfill 2 (day b))).
  rewrite compare_zfill by done. by destruct (day a ?= day b).
Qed.

Lemma date_isoformat_inj a b :
  valid_date a = true → valid_date b = true →
  ymd2ord (year a) (month a) (day a) = ymd2ord (year b) (month b) (day b) →
  date_isoformat a = date_isoformat b.
Proof.
  intros Ha Hb Hord. apply String.compare_eq_iff.
  rewrite compare_date_isoformat, date_compare_ord by done.
  by apply Z.compare_eq_iff.
Qed.

Lemma task_day_canonical (r : nat * Sqlite.task_row) due :
  valid_date due = true → Sqlite.expires r.2 = date_isoformat due →
  task_day r = ymd2ord (year due) (month due) (day due).
Proof.
  intros Hv He. unfold task_day.
  by rewrite He, date_fromisoformat_isoformat.
Qed.

(** X7. On a table of dates as [add_task] writes them, with rowids in
    insertion order, [list_tasks] prints the tasks by ascending expiration
    date, and the tasks of one date in the order they were added. *)
Theorem list_tasks_in_date_order w d :
  db w = Some d → tasks_canonical d → dense (Sqlite.tasks d) →
  console (list_tasks w).2
  = console w
    ++ map (λ r, Line (task_line r.1 (Sqlite.description r.2)
                         (Sqlite.expires r.2)
                         (annotation (today w) (Sqlite.expires r.2))))
           (listed_tasks d)
  ∧ listed_tasks d ≡ₚ Sqlite.rows (Sqlite.tasks d)
  ∧ Sorted task_before (listed_tasks d).
Proof.
  intros Hd Hcan Hdense. rewrite (list_tasks_spec w d Hd Hcan).
  split; [done|]. split; [apply order_by_Permutation|].
  pose proof (order_by_stable (λ r : nat * Sqlite.task_row, Sqlite.expires r.2)
                fst _ (dense_StronglySorted _ Hdense)) as Hsorted.
  assert (Forall (λ r : nat * Sqlite.task_row,
                    ∃ due, valid_date due = true
                           ∧ Sqlite.expires r.2 = date_isoformat due)
                 (listed_tasks d)) as Hcan'.
  { unfold listed_tasks. by rewrite order_by_Permutation. }
  unfold listed_tasks in *.
  induction Hsorted as [|x l Hl IH Hhd]; [constructor|].
  apply Forall_cons in Hcan' as [(dx & Hvx & Hex) Hcan'].
  constructor; [by apply IH|].
  destruct Hhd as [|y l [Hleb Htie]]; constructor.
  apply Forall_cons in Hcan' as [(dy & Hvy & Hey) _].
  unfold task_before.
  rewrite (task_day_canonical x dx), (task_day_canonical y dy) by done.
  cbn in Hleb, Htie. rewrite Hex, Hey in Hleb, Htie.
  unfold String.leb in Hleb.
  rewrite compare_date_isoformat, date_compare_ord in Hleb by done.
  split.
  - destruct (Z.compare_spec (ymd2ord (year dx) (month dx) (day dx))
                (ymd2ord (year dy) (month dy) (day dy))); (done || lia).
  - intros Heq. apply Htie. by apply date_isoformat_inj.
Qed.

Lemma list_tasks_in_date_order_witness :
  map task_day (listed_tasks tasks_db) = [737425; 739038; 1094998]
  ∧ Sorted task_before (listed_tasks tasks_db).
Proof.
  split; [by vm_compute|].
  apply (list_tasks_in_date_order tasks_world tasks_db).
  - by vm_compute.
  - repeat constructor.
    + by exists (Date 2020 1 1).
    + by exists (Date 2024 6 1).
    + by exists (Date 2999 1 1).
  - by vm_compute.
Defined.

(** ** Notes and documents read back *)

Lemma add_note_spec content w d :
  db w = Some d →
  add_note content w
  = (Ok tt,
     traced [Call F_add_note; Sql_insert T_notes]
       (set_db (Sqlite.Database (Sqlite.tasks d)
                  (Sqlite.insert content (Sqlite.notes d))
                  (Sqlite.events d) (Sqlite.documents d)) w)).
Proof.
  intros Hd. unfold add_note, insert_note, bind, get_db, put_db, log. cbn.
  rewrite Hd. unfold traced, set_db. cbn. by rewrite <- (assoc_L (++)).
Qed.

(** X8. A note entered by [add_note] gets the next rowid, and the
    [list_notes] that follows prints every earlier note, in the order of
    insertion, and then this one. *)
Theorem add_note_then_list_notes content w d :
  db w = Some d →
  ∃ w1,
    add_note content w = (Ok tt, w1)
    ∧ (list_notes w1).1 = Ok tt
    ∧ console (list_notes w1).2
      = console w
        ++ map (λ r, Line (note_line r)) (Sqlite.rows (Sqlite.notes d))
        ++ [Line (str_of_nat (S (Sqlite.seq (Sqlite.notes d)))
                  +:+ ": " +:+ content)].
Proof.
  intros Hd. rewrite (add_note_spec content w d Hd). eexists.
  split; [done|]. erewrite list_notes_spec; [|done]. split; [done|].
  cbn. by rewrite map_app.
Qed.

Lemma add_note_then_list_notes_witness :
  ∃ w1,
    add_note "eggs" (runs [ ["add-note"; "milk"] ] initial_world)
    = (Ok tt, w1)
    ∧ console (list_notes w1).2 = [Line "1: milk"; Line "2: eggs"].
Proof.
  destruct (add_note_then_list_notes "eggs"
              (runs [ ["add-note"; "milk"] ] initial_world)
              (Sqlite.Database Sqlite.empty
                 (Sqlite.insert "milk" Sqlite.empty)
                 Sqlite.empty Sqlite.empty) eq_refl)
    as (w1 & Hadd & _ & Hlist).
  exists w1. split; [exact Hadd|]. rewrite Hlist. reflexivity.
Defined.

(** X9. After a call of [add_document] that returned, [list_documents]
    prints the earlier documents and then the new one, with its rowid, its
    label, the text of [storage_path / src.name] and the name of its
    area, which is root when no area or an empty one was given. *)
Theorem add_document_then_list_documents label file_path storage w w1 :
  add_document label file_path storage w = (Ok tt, w1) →
  ∃ d,
    db w = Some d
    ∧ (list_documents w1).1 = Ok tt
    ∧ console (list_documents w1).2
      = console w
        ++ [Line ("Stored document at " +:+ Fs.str (dest file_path storage))]
        ++ map (λ r, Line (document_line r))
               (Sqlite.rows (Sqlite.documents d))
        ++ [Line (str_of_nat (S (Sqlite.seq (Sqlite.documents d)))
                  +:+ ": " +:+ label +:+ " -> "
                  +:+ Fs.str (dest file_path storage)
                  +:+ " (storage: " +:+ area_name storage +:+ ")")].
Proof.
  rewrite add_document_spec. cbv zeta.
  destruct (Fs.mkdir _ _) as [f1|?]; [|done].
  destruct (Fs.copy _ _ _) as [f2|?]; [|done].
  destruct (db w) as [d|] eqn:Hd; [|done].
  intros [= <-]. exists d. split; [done|].
  erewrite list_documents_spec; [|done]. split; [done|].
  cbn. rewrite map_app. by rewrite <- !(assoc_L (++)).
Qed.

Lemma add_document_then_list_documents_witness :
  console (list_documents stored_world).2
  = [Line "Stored document at storage/finance/inv.pdf";
     Line "1: Invoice -> storage/finance/inv.pdf (storage: finance)"].
Proof.
  destruct (add_document_then_list_documents "Invoice" "/tmp/inv.pdf"
              (Some "finance") office_world stored_world eq_refl)
    as (d & Hd & _ & Hlist).
  rewrite Hlist. injection Hd as <-. reflexivity.
Defined.
End ReadBackFacts.

(* ===================================================================== *)
(** * The command line *)
(* ===================================================================== *)

Module CliFacts.
Import Py Argparse App Spec TraceFacts DispatchFacts.

Lemma classify_plain hs a : plain a = true → classify hs a = Positional a.
Proof.
  destruct a as [|c a]; [done|].
  destruct c as [[] [] [] [] [] [] [] []]; try done.
  by destruct a.
Qed.

Lemma classify_Positional hs a v :
  classify hs a = Positional v → plain a = true ∧ v = a.
Proof.
  destruct (plain a) eqn:Hp.
  - rewrite classify_plain by done. by intros [= <-].
  - destruct a as [|c a]; [done|].
    destruct c as [[] [] [] [] [] [] [] []]; try done.
    destruct a as [|c' a]; [done|].
    unfold classify. by repeat case_match.
Qed.

Lemma lookup_sub_plain c v : lookup_sub c subparsers = Some v → plain c = true.
Proof.
  unfold subparsers, lookup_sub.
  repeat match goal with
         | |- context [String.eqb c ?k] =>
             destruct (String.eqb_spec c k) as [->|?]; [done|]
         end.
  done.
Qed.

Lemma command_set_field field v ns :
  command (set_field field v ns) = command ns.
Proof. destruct ns. unfold set_field. by repeat case_match. Qed.

Lemma command_filled fields args ns :
  command (filled fields args ns) = command ns.
Proof.
  revert args ns. induction fields as [|f fields IH]; intros [|a args] ns;
    try done.
  cbn. by rewrite IH, command_set_field.
Qed.

(** ** Sub-commands with plain words *)

Lemma parse_sub_extras hs args todo ns :
  Forall (λ a, plain a = true) args →
  parse_sub hs args todo true false ns = Usage_error.
Proof.
  intros Hargs. revert todo ns.
  induction Hargs as [|a args Ha _ IH]; intros todo ns.
  - by destruct todo.
  - cbn. rewrite (classify_plain hs a Ha). destruct todo; apply IH.
Qed.

Lemma parse_sub_plain hs args todo ns :
  Forall (λ a, plain a = true) args →
  parse_sub hs args todo false false ns
  = if bool_decide (List.length args = List.length todo)
    then Parsed (filled todo args ns) else Usage_error.
Proof.
  intros Hargs. revert todo ns.
  induction Hargs as [|a args Ha Hargs IH]; intros todo ns.
  - by destruct todo.
  - cbn [parse_sub]. rewrite (classify_plain hs a Ha).
    destruct todo as [|f todo].
    + by rewrite parse_sub_extras.
    + rewrite IH. cbn [filled List.length].
      by repeat case_bool_decide; try lia.
Qed.

Lemma parse_args_plain c fields hs args :
  lookup_sub c subparsers = Some (fields, hs) →
  Forall (λ a, plain a = true) args →
  Argparse.parse_args (c :: args)
  = if bool_decide (List.length args = List.length fields)
    then Parsed (filled fields args (set_command c no_command))
    else Usage_error.
Proof.
  intros Hc Hargs. unfold Argparse.parse_args. cbn [parse_top].
  rewrite (classify_plain false c) by by eapply lookup_sub_plain.
  rewrite Hc. by apply parse_sub_plain.
Qed.

Lemma substring_all s : String.substring 0 (String.length s) s = s.
Proof. induction s as [|c s IH]; [done|]. cbn. by rewrite IH. Qed.

Lemma classify_storage_eq s :
  classify true ("--storage=" +:+ s) = Opt_storage (Some s).
Proof.
  rewrite !TextFacts.app_String, TextFacts.app_empty_l.
  cbn -[String.substring String.length]. cbn [String.length Nat.sub].
  cbn [String.substring]. rewrite Nat.sub_0_r, substring_all.
  by destruct s.
Qed.

(** X10. A sub-command followed by plain words only is rejected when the
    number of words differs from the number of its positional arguments:
    the run ends with status 2 after the usage message, and nothing but
    [init_db] has run. *)
Theorem wrong_number_of_arguments c fields hs args w :
  lookup_sub c subparsers = Some (fields, hs) →
  Forall (λ a, plain a = true) args →
  List.length args ≠ List.length fields →
  run (c :: args) w = (2%Z, printed [Usage_text] (started w)).
Proof.
  intros Hc Hargs Hlen. rewrite run_unfold, main_unfold. cbv zeta.
  rewrite (parse_args_plain c fields hs args Hc Hargs).
  by rewrite bool_decide_eq_false_2.
Qed.

Lemma wrong_number_of_arguments_witness :
  run ["add-task"; "rent"] initial_world
  = (2%Z, printed [Usage_text] (started initial_world)).
Proof.
  apply (wrong_number_of_arguments "add-task" ["description"; "expires"]
           false ["rent"] initial_world eq_refl).
  - by repeat constructor.
  - cbn. lia.
Defined.

(** X11. With plain words for arguments, each sub-command runs its
    function on these words after [init_db]; the area of add-doc may be
    given before or after the positional arguments, as two arguments or as
    one with an equals sign. *)
Theorem plain_words_reach_the_function a b s w :
  plain a = true → plain b = true → plain s = true →
  main ["add-task"; a; b] w = add_task a b (started w)
  ∧ main ["add-note"; a] w = add_note a (started w)
  ∧ main ["add-event"; a; b] w = add_event a b (started w)
  ∧ main ["add-storage"; a] w = add_storage a (started w)
  ∧ main ["add-doc"; a; b] w = add_document a b None (started w)
  ∧ main ["add-doc"; a; b; "--storage"; s] w
    = add_document a b (Some s) (started w)
  ∧ main ["add-doc"; "--storage"; s; a; b] w
    = add_document a b (Some s) (started w)
  ∧ main ["add-doc"; a; b; "--storage=" +:+ s] w
    = add_document a b (Some s) (started w).
Proof.
  intros Ha Hb Hs. rewrite !main_unfold. cbv zeta.
  rewrite (parse_args_plain "add-task" _ _ [a; b] eq_refl),
    (parse_args_plain "add-note" _ _ [a] eq_refl),
    (parse_args_plain "add-event" _ _ [a; b] eq_refl),
    (parse_args_plain "add-storage" _ _ [a] eq_refl),
    (parse_args_plain "add-doc" _ _ [a; b] eq_refl)
    by (repeat constructor; done).
  repeat (split; [done|]).
  unfold Argparse.parse_args.
  cbn [parse_top classify lookup_sub subparsers String.eqb Ascii.eqb
       Bool.eqb parse_sub].
  rewrite !(classify_plain true a), !(classify_plain true b),
    !(classify_plain true s), classify_storage_eq by done.
  done.
Qed.

Lemma plain_words_reach_the_function_witness :
  main ["add-doc"; "--storage"; "finance"; "Invoice"; "/tmp/inv.pdf"]
       office_world
  = add_document "Invoice" "/tmp/inv.pdf" (Some "finance")
      (started office_world).
Proof.
  apply (plain_words_reach_the_function "Invoice" "/tmp/inv.pdf" "finance"
           office_world); reflexivity.
Defined.

(** ** The command of a namespace *)

Lemma command_set_storage v ns : command (set_storage v ns) = command ns.
Proof. by destruct ns. Qed.

Lemma parse_sub_command hs n args todo extras sep ns ns' :
  List.length args ≤ n →
  parse_sub hs args todo extras sep ns = Parsed ns' →
  command ns' = command ns.
Proof.
  revert args todo extras sep ns.
  induction n as [|n IH]; intros [|a rest] todo extras sep ns Hlen;
    cbn [parse_sub]; cbn in Hlen; try lia.
  1,2: by repeat case_match; intros [= <-].
  assert (List.length rest ≤ n) as Hrest by lia.
  destruct (if sep then Positional a else classify hs a)
    as [v| | |[v|]|]; try done.
  - destruct todo; intros H%IH; try done.
    by rewrite H, command_set_field.
  - by apply IH.
  - intros H%IH; [|done]. by rewrite H, command_set_storage.
  - destruct rest as [|v rest']; [done|].
    destruct (classify hs v); try done.
    intros H%IH; [|cbn in Hrest; lia]. by rewrite H, command_set_storage.
  - by apply IH.
Qed.

Lemma parse_top_command args extras ns :
  parse_top args extras = Parsed ns →
  args = [] ∧ extras = false ∧ ns = no_command
  ∨ args ≠ [] ∧ ∃ c v, lookup_sub c subparsers = Some v
                       ∧ command ns = Some c.
Proof.
  revert extras. induction args as [|a rest IH]; intros extras;
    cbn [parse_top].
  - destruct extras; [done|]. intros [= <-]. by left.
  - intros H. right. split; [done|]. revert H.
    destruct (classify false a) as [c| | | |]; try done.
    + destruct (lookup_sub c subparsers) as [[fields hs]|] eqn:Hc; [|done].
      intros H%(parse_sub_command _ (List.length rest)); [|done].
      exists c, (fields, hs). split; [done|]. by rewrite H.
    + intros H%IH. by destruct H as [(_ & ? & _)|[_ H]].
Qed.

Lemma function_of_lookup c v :
  lookup_sub c subparsers = Some v → is_Some (function_of c).
Proof.
  unfold subparsers, lookup_sub, function_of.
  repeat match goal with
         | |- context [String.eqb c ?k] =>
             destruct (String.eqb_spec c k) as [->|?];
               [intros _; by eexists|]
         end.
  done.
Qed.

Lemma dispatch_calls ns c f w :
  command ns = Some c → function_of c = Some f →
  ∃ tr, trace (dispatch ns w).2 = trace w ++ Call f :: tr.
Proof.
  intros Hc. unfold function_of, dispatch, command_is. rewrite Hc.
  repeat match goal with
         | |- context [String.eqb c ?k] =>
             destruct (String.eqb c k)
         end; intros [= <-].
  - destruct (add_task_effects (description ns) (expires ns) w)
      as (tr & -> & _). by exists tr.
  - rewrite list_tasks_effects. by exists [].
  - destruct (add_note_effects (content ns) w) as (tr & -> & _).
    by exists tr.
  - rewrite list_notes_effects. by exists [].
  - destruct (add_event_effects (name ns) (time ns) w) as (tr & -> & _).
    by exists tr.
  - rewrite list_events_effects. by exists [].
  - rewrite add_storage_effects. by exists [].
  - destruct (add_document_effects (label ns) (file_path ns) (storage ns) w)
      as (tr & -> & _). by exists tr.
  - rewrite list_documents_effects. by exists [].
Qed.

(** X12. The last branch of [main], which prints the help, is taken for
    the empty command line only.  Every other command line that the
    parser accepts names one of the nine sub-commands, and [main] enters
    the function of that sub-command. *)
Theorem help_branch_only_without_arguments argv ns w :
  Argparse.parse_args argv = Parsed ns →
  argv = [] ∧ dispatch ns w = (Ok tt, printed [Help_text] w)
  ∨ argv ≠ []
    ∧ ∃ c f tr, command ns = Some c ∧ function_of c = Some f
                ∧ trace (dispatch ns w).2 = trace w ++ Call f :: tr.
Proof.
  intros [(-> & _ & ->)|[Hne (c & v & Hc & Hns)]]%parse_top_command.
  - by left.
  - right. split; [done|].
    destruct (function_of_lookup c v Hc) as [f Hf].
    destruct (dispatch_calls ns c f w Hns Hf) as [tr Htr].
    by exists c, f, tr.
Qed.

Lemma help_branch_only_without_arguments_witness :
  ∃ c f tr,
    command (set_command "list-notes" no_command) = Some c
    ∧ function_of c = Some f
    ∧ trace (dispatch (set_command "list-notes" no_command) ready_world).2
      = trace ready_world ++ Call f :: tr.
Proof.
  destruct (help_branch_only_without_arguments ["list-notes"]
              (set_command "list-notes" no_command) ready_world eq_refl)
    as [[? _]|[_ H]]; [done|exact H].
Defined.

(** ** The help option *)

Lemma parse_sub_help hs pre h rest todo extras ns :
  Forall (λ a, plain a = true) pre → h = "-h" ∨ h = "--help" →
  parse_sub hs (pre ++ h :: rest) todo extras false ns = Help.
Proof.
  intros Hpre Hh. revert todo extras ns.
  induction Hpre as [|a pre Ha _ IH]; intros todo extras ns.
  - cbn [app parse_sub]. by destruct Hh as [-> | ->], hs.
  - cbn [app parse_sub]. rewrite (classify_plain hs a Ha).
    destruct todo; apply IH.
Qed.

(** X13. A help option ([-h] or [--help]) given first, or after a
    sub-command and any number of plain words, ends the run with status 0
    after the help text, whatever follows it and however many arguments
    the sub-command lacks; only [init_db] has run. *)
Theorem help_option_ends_the_run h pre rest w :
  h = "-h" ∨ h = "--help" →
  (pre = []
   ∨ ∃ c args v, pre = c :: args ∧ lookup_sub c subparsers = Some v
                 ∧ Forall (λ a, plain a = true) args) →
  run (pre ++ h :: rest) w = (0%Z, printed [Help_text] (started w)).
Proof.
  intros Hh Hpre. rewrite run_unfold, main_unfold. cbv zeta.
  assert (Argparse.parse_args (pre ++ h :: rest) = Help) as ->; [|done].
  unfold Argparse.parse_args.
  destruct Hpre as [->|(c & args & [fields hs] & -> & Hc & Hargs)].
  - cbn [app parse_top]. by destruct Hh as [-> | ->].
  - cbn [app parse_top].
    rewrite (classify_plain false c) by by eapply lookup_sub_plain.
    rewrite Hc. by apply parse_sub_help.
Qed.

Lemma help_option_ends_the_run_witness :
  run ["add-task"; "rent"; "--help"; "--verbose"] initial_world
  = (0%Z, printed [Help_text] (started initial_world)).
Proof.
  apply (help_option_ends_the_run "--help" ["add-task"; "rent"]
           ["--verbose"] initial_world); [by right|].
  right. exists "add-task", ["rent"], (["description"; "expires"], false).
  split; [done|]. split; [done|]. by repeat constructor.
Defined.
End CliFacts.

(* ===================================================================== *)
(** * Files are kept *)
(* ===================================================================== *)

Module FilesFacts.
Import Py Fs App Spec FsFacts StorageFacts.

(** ** What stays in place *)

Lemma walk_prefix_Found f cur r1 r2 n :
  walk f cur (r1 ++ r2) = Found n →
  ∃ m, walk f cur r1 = Found m ∧ (r2 ≠ [] → m = Dir).
Proof.
  revert cur. induction r1 as [|d r1 IH]; intros cur; cbn.
  - destruct r2 as [|d r2]; [by eexists|]. cbn.
    destruct (node_at f cur) as [[?|]|]; try done. by eexists.
  - destruct (node_at f cur) as [[?|]|]; [done| |done]. apply IH.
Qed.

Lemma stat_prefix_Found f p q n :
  stat f q = Found n → p `prefix_of` q →
  ∃ m, stat f p = Found m ∧ (p ≠ q → m = Dir).
Proof.
  intros Hq [k ->]. destruct (is_anchor p) eqn:Hp.
  { exists Dir. by rewrite stat_anchor. }
  assert (p ≠ p ++ k → k ≠ []) as Hk.
  { intros Hne ->. by rewrite app_nil_r in Hne. }
  destruct p as [|r p]; [done|]. revert Hq. unfold stat. cbn.
  destruct (String.eqb r "/").
  - rewrite !take_0, !drop_0. intros (m & Hm & Hdir)%walk_prefix_Found.
    exists m. auto.
  - change (r :: p ++ k) with ((r :: p) ++ k).
    intros (m & Hm & Hdir)%walk_prefix_Found. exists m. auto.
Qed.

Lemma insert_keeps p m f q n :
  stat f p ≠ Found Dir → (p = q → m = n) →
  stat f q = Found n → stat (<[p:=m]> f) q = Found n.
Proof.
  intros Hp Hsame Hq. destruct (decide (p `prefix_of` q)) as [Hpre|Hpre].
  - destruct (stat_prefix_Found f p q n Hq Hpre) as (m' & Hm' & Hdir).
    destruct (decide (p = q)) as [<-|Hne].
    + rewrite <- (Hsame eq_refl) in *.
      assert (is_anchor p = false) as Ha by by apply (stat_not_anchor f).
      rewrite stat_parent in Hq |- * by done.
      rewrite stat_insert_ne by by apply parent_not_prefix.
      destruct (stat f (parent p)) as [[?|]| |]; try done.
      by rewrite lookup_insert_eq.
    + rewrite Hdir in Hm' by done. done.
  - by rewrite stat_insert_ne.
Qed.

Lemma os_mkdir_keeps p f f' q n :
  os_mkdir p f = Ok f' → stat f q = Found n → stat f' q = Found n.
Proof.
  unfold os_mkdir. destruct (stat f p) eqn:Hp; try done.
  destruct (is_dir f (parent p)); [|done]. intros [= <-] Hq.
  apply insert_keeps; [by rewrite Hp| |done].
  intros ->. by rewrite Hp in Hq.
Qed.

Lemma mkdir_parents_keeps rp f f' q n :
  mkdir_parents rp f = Ok f' → stat f q = Found n → stat f' q = Found n.
Proof.
  revert f f'. induction rp as [|c rp IH]; intros f f'.
  all: rewrite mkdir_parents_unfold; cbv zeta.
  all: destruct (os_mkdir _ f) as [f0|e0] eqn:Hmk;
    [intros [= <-]; by eapply os_mkdir_keeps|].
  - by repeat case_match; intros [= <-].
  - destruct (mkdir_parents rp f) as [f1|e1] eqn:Hrec.
    + destruct (os_mkdir _ f1) as [f2|e2] eqn:Hmk2.
      * repeat case_match; try done; intros [= <-] Hq; try done.
        eapply os_mkdir_keeps; [done|]. by eapply IH.
      * repeat case_match; try done; intros [= <-] Hq; try done;
          by eapply IH.
    + by repeat case_match; intros [= <-].
Qed.

Lemma write_file_keeps p c f f' q n :
  write_file p c f = Ok f' → p ≠ q →
  stat f q = Found n → stat f' q = Found n.
Proof.
  intros (-> & _ & _ & Hp)%write_file_Ok Hne. by apply insert_keeps.
Qed.

(** X14. [add_storage] only makes directories: whatever the name and
    however the call ends, every file and every directory that could be
    reached before is still there afterwards, a file with the content it
    had. *)
Theorem add_storage_keeps_files name w q n :
  stat (files w) q = Found n →
  stat (files (add_storage name w).2) q = Found n.
Proof.
  intros Hq. rewrite add_storage_spec. cbv zeta.
  destruct (mkdir _ (files w)) as [f1|e] eqn:Hmk; [|done].
  cbn [snd files printed set_files]. by eapply mkdir_parents_keeps.
Qed.

Lemma add_storage_keeps_files_witness :
  stat (files (add_storage "finance/inv.pdf/2024" stored_world).2)
       ["storage"; "finance"; "inv.pdf"]%string
  = Found (File (Bytes "invoice of May")).
Proof.
  apply (add_storage_keeps_files "finance/inv.pdf/2024" stored_world).
  reflexivity.
Defined.

(** ** The copy of a document *)

(** X15. After a call of [add_document] that returned, the stored copy
    and the source hold the same content, and every other file or
    directory that could be reached before the call is as it was. *)
Theorem add_document_copies_content label file_path storage w w1 :
  add_document label file_path storage w = (Ok tt, w1) →
  ∃ c,
    read_file (stored_at file_path storage (files w1)) (files w1) = Ok c
    ∧ read_file (Path file_path) (files w1) = Ok c
    ∧ ∀ q n, q ≠ stored_at file_path storage (files w1) →
        stat (files w) q = Found n → stat (files w1) q = Found n.
Proof.
  rewrite add_document_spec. cbv zeta.
  destruct (mkdir _ (files w)) as [f1|?] eqn:Hmk; [|done].
  destruct (copy _ _ f1) as [f2|?] eqn:Hcp; [|done].
  destruct (db w) as [d|]; [|done]. intros [= <-].
  cbn [files printed traced set_db set_files].
  pose proof Hcp as Hcp'. apply copy_Ok in Hcp' as (c & Hrd & Hwr).
  unfold stored_at.
  rewrite (copy_target_written _ (Path file_path) _ _ _ _ Hwr eq_refl).
  set (target := copy_target (Path file_path) (dest file_path storage) f1)
    in *.
  assert (stat f1 (Path file_path) = Found (File c)) as Hsrc.
  { revert Hrd. unfold read_file. by repeat case_match; intros [= <-]. }
  assert (target ≠ Path file_path) as Hne.
  { intros Heq. revert Hcp. unfold copy, samefile. cbv zeta. fold target.
    rewrite Heq, bool_decide_eq_true_2, Hsrc by done. done. }
  exists c. split; [by eapply write_file_read|]. split.
  - unfold read_file. by rewrite (write_file_keeps _ _ _ _ _ _ Hwr Hne Hsrc).
  - intros q n Hq Hstat. eapply write_file_keeps; [done|done|].
    by eapply mkdir_parents_keeps.
Qed.

Lemma add_document_copies_content_witness :
  ∃ c,
    read_file (stored_at "/tmp/inv.pdf" (Some "finance")
                 (files stored_world)) (files stored_world) = Ok c
    ∧ read_file (Path "/tmp/inv.pdf") (files stored_world) = Ok c
    ∧ ∀ q n,
        q ≠ stored_at "/tmp/inv.pdf" (Some "finance") (files stored_world) →
        stat (files office_world) q = Found n →
        stat (files stored_world) q = Found n.
Proof.
  exact (add_document_copies_content "Invoice" "/tmp/inv.pdf"
           (Some "finance") office_world stored_world eq_refl).
Defined.

(** X16. When the tables exist and no regular file stands in the way of
    the directory of the area, a call of [add_document] that fails has
    failed in [shutil.copy]: no row was inserted and no file was written,
    but the directory of the area, made before the copy, is there. *)
Theorem failed_add_document_leaves_directory label file_path storage w e :
  is_Some (db w) → unobstructed (files w) (storage_path storage) →
  (add_document label file_path storage w).1 = Raise e →
  db (add_document label file_path storage w).2 = db w
  ∧ mkdir (storage_path storage) (files w)
    = Ok (files (add_document label file_path storage w).2)
  ∧ is_dir (files (add_document label file_path storage w).2)
           (storage_path storage) = true
  ∧ copy (Path file_path) (dest file_path storage)
         (files (add_document label file_path storage w).2) = Raise e.
Proof.
  intros [d Hd] Hun. rewrite add_document_spec. cbv zeta.
  destruct (mkdir_unobstructed _ _ Hun) as [f1 Hmk]. rewrite Hmk, Hd.
  destruct (copy _ _ f1) as [f2|e'] eqn:Hcp; [done|]. intros [= ->].
  cbn [snd files db traced set_files]. split; [done|]. split; [done|].
  split; [by eapply mkdir_is_dir|done].
Qed.

Lemma failed_add_document_leaves_directory_witness :
  is_dir (files office_world) (storage_path (Some "finance")) = false
  ∧ is_dir (files (add_document "X" "/no/such/file" (Some "finance")
                     office_world).2)
           (storage_path (Some "finance")) = true.
Proof.
  split; [reflexivity|].
  apply (failed_add_document_leaves_directory "X" "/no/such/file"
           (Some "finance") office_world FileNotFoundError).
  - by eexists.
  - change (storage_path (Some "finance"))
      with ["storage"; "finance"]%string.
    intros q c Hpre. unfold office_world. cbn [files]. intros Hq.
    repeat (apply lookup_insert_Some in Hq as [[<- Hv]|[_ Hq]];
            [try done; by apply prefix_cons_inv_1 in Hpre|]).
    apply lookup_singleton_Some in Hq as [<- _].
    by apply prefix_cons_inv_1 in Hpre.
  - reflexivity.
Defined.
End FilesFacts.

(* ===================================================================== *)
(** * The text of a path *)
(* ===================================================================== *)

Module PathFacts.
Import Py Fs App Spec TextFacts FsFacts StorageFacts FilesFacts.

Lemma split_on_free c s : Forall (λ x, free_of c x = true) (split_on c s).
Proof.
  induction s as [|c' s IH]; cbn; [by repeat constructor|].
  destruct (Ascii.eqb c c') eqn:Hc; [by constructor|].
  destruct (split_on c s) as [|h t]; [by repeat constructor; cbn; rewrite Hc|].
  apply Forall_cons in IH as [Hh Ht]. constructor; [|done].
  cbn. by rewrite Hc.
Qed.

Lemma split_on_sep c x t :
  free_of c x = true →
  split_on c (x +:+ String c t) = x :: split_on c t.
Proof.
  induction x as [|c' x IH]; cbn [free_of].
  - intros _. rewrite app_empty_l. cbn. by rewrite Ascii.eqb_refl.
  - intros [Hc Hx]%andb_true_iff. rewrite app_String. cbn [split_on].
    apply negb_true_iff in Hc. by rewrite Hc, IH.
Qed.

Lemma split_on_one c x : free_of c x = true → split_on c x = [x].
Proof.
  induction x as [|c' x IH]; cbn [free_of]; [done|].
  intros [Hc Hx]%andb_true_iff. cbn [split_on].
  apply negb_true_iff in Hc. by rewrite Hc, IH.
Qed.

Lemma join_parts_cons x y l :
  join_parts (x :: y :: l) = x +:+ "/" +:+ join_parts (y :: l).
Proof. done. Qed.

Lemma split_on_join x l :
  Forall (λ x, free_of "/" x = true) (x :: l) →
  split_on "/" (join_parts (x :: l)) = x :: l.
Proof.
  revert x. induction l as [|y l IH]; intros x [Hx Hl]%Forall_cons.
  - by apply split_on_one.
  - rewrite join_parts_cons, app_String, app_empty_l.
    rewrite (split_on_sep "/" x _ Hx). by rewrite IH.
Qed.

Lemma filter_proper l :
  Forall (λ x, proper x = true) l → List.filter is_part l = l.
Proof.
  induction 1 as [|x l [Hx _]%andb_true_iff _ IH]; [done|].
  cbn. by rewrite Hx, IH.
Qed.

Lemma proper_free l :
  Forall (λ x, proper x = true) l → Forall (λ x, free_of "/" x = true) l.
Proof.
  intros Hl. eapply Forall_impl; [exact Hl|].
  by intros x [_ ?]%andb_true_iff.
Qed.

Lemma join_parts_head x l :
  proper x = true →
  ∃ c s, join_parts (x :: l) = String c s ∧ Ascii.eqb c "/" = false.
Proof.
  intros [Hpart Hfree]%andb_true_iff. destruct x as [|c x]; [done|].
  cbn [free_of] in Hfree. apply andb_true_iff in Hfree as [Hc _].
  apply negb_true_iff in Hc. rewrite Ascii.eqb_sym in Hc.
  exists c. destruct l as [|y l].
  - by exists x.
  - rewrite join_parts_cons, app_String. by eexists.
Qed.

(** [Path] reads the text of a path back. *)
Lemma Path_str p : well_formed p → Path (str p) = p.
Proof.
  destruct p as [|r rest]; [done|]. intros [Hr Hrest].
  unfold str. destruct (String.eqb_spec r "/") as [->|Hne].
  - rewrite app_String, app_empty_l. unfold Path.
    rewrite Ascii.eqb_refl. f_equal. cbn [split_on]. rewrite Ascii.eqb_refl.
    destruct rest as [|x l]; [done|].
    rewrite split_on_join by by apply proper_free.
    exact (filter_proper (x :: l) Hrest).
  - destruct Hr as [?|Hr]; [done|].
    destruct (join_parts_head r rest Hr) as (c & s & Hjoin & Hc).
    unfold Path. rewrite Hjoin, Hc, <- Hjoin.
    rewrite split_on_join by by apply proper_free; constructor.
    apply filter_proper. by constructor.
Qed.

Lemma Path_parts s :
  Forall (λ x, proper x = true) (List.filter is_part (split_on "/" s)).
Proof.
  pose proof (split_on_free "/" s) as Hfree.
  induction Hfree as [|x l Hx _ IH]; [constructor|]. cbn.
  destruct (is_part x) eqn:Hp; [|done]. constructor; [|done].
  unfold proper. by rewrite Hp, Hx.
Qed.

Lemma Path_well_formed s : well_formed (Path s).
Proof.
  pose proof (Path_parts s) as Hparts. unfold Path.
  assert (well_formed (List.filter is_part (split_on "/" s))) as Hrel.
  { destruct Hparts; [done|]. split; [by right|done]. }
  destruct s as [|c s]; [done|].
  destruct (Ascii.eqb c "/"); [|done]. split; [by left|done].
Qed.

Lemma Path_relative s :
  is_absolute (Path s) = false → Forall (λ x, proper x = true) (Path s).
Proof.
  pose proof (Path_parts s) as Hparts. unfold Path.
  destruct s as [|c s]; [done|]. by destruct (Ascii.eqb c "/").
Qed.

Lemma joinpath_well_formed p s : well_formed p → well_formed (joinpath p s).
Proof.
  intros Hp. unfold joinpath.
  destruct (is_absolute (Path s)) eqn:Habs; [apply Path_well_formed|].
  apply Path_relative in Habs. destruct p as [|r rest].
  - destruct Habs; [done|]. split; [by right|done].
  - destruct Hp as [Hr Hrest]. split; [done|]. by apply Forall_app.
Qed.

Lemma dest_well_formed file_path storage : well_formed (dest file_path storage).
Proof.
  unfold dest, storage_path. do 2 apply joinpath_well_formed.
  split; [by right|constructor].
Qed.

(** X17. After a call of [add_document] that returned, and unless the
    destination is a directory, the path text recorded in the new row
    leads back to the stored copy: read as a path it names a file with
    the content of the source. *)
Theorem recorded_path_leads_to_copy label file_path storage w w1 :
  add_document label file_path storage w = (Ok tt, w1) →
  is_dir (files w1) (dest file_path storage) = false →
  ∃ i c,
    document_rows w1
    = document_rows w
      ++ [(i, Sqlite.Document label (str (dest file_path storage)) storage)]
    ∧ read_file (Path (str (dest file_path storage))) (files w1) = Ok c
    ∧ read_file (Path file_path) (files w1) = Ok c.
Proof.
  rewrite add_document_spec. cbv zeta.
  destruct (mkdir _ (files w)) as [f1|?] eqn:Hmk; [|done].
  destruct (copy _ _ f1) as [f2|?] eqn:Hcp; [|done].
  destruct (db w) as [d|] eqn:Hd; [|done]. intros [= <-].
  cbn [files printed traced set_db set_files]. intros Hdir.
  rewrite (Path_str _ (dest_well_formed file_path storage)).
  pose proof Hcp as Hcp'. apply copy_Ok in Hcp' as (c & Hrd & Hwr).
  pose proof (copy_target_written _ (Path file_path) _ _ _ _ Hwr eq_refl)
    as Htarget.
  unfold copy_target at 1 in Htarget. rewrite Hdir in Htarget.
  rewrite <- Htarget in Hwr.
  assert (stat f1 (Path file_path) = Found (File c)) as Hsrc.
  { revert Hrd. unfold read_file. by repeat case_match; intros [= <-]. }
  assert (dest file_path storage ≠ Path file_path) as Hne.
  { intros Heq. revert Hcp. unfold copy, samefile. cbv zeta.
    rewrite <- Htarget, Heq, bool_decide_eq_true_2, Hsrc by done. done. }
  exists (S (Sqlite.seq (Sqlite.documents d))), c.
  split; [unfold document_rows; by rewrite Hd|].
  split; [by eapply write_file_read|].
  unfold read_file. by rewrite (write_file_keeps _ _ _ _ _ _ Hwr Hne Hsrc).
Qed.

Lemma recorded_path_leads_to_copy_witness :
  ∃ i c,
    document_rows stored_world
    = document_rows office_world
      ++ [(i, Sqlite.Document "Invoice" "storage/finance/inv.pdf"
                (Some "finance"))]
    ∧ read_file (Path "storage/finance/inv.pdf") (files stored_world) = Ok c
    ∧ read_file (Path "/tmp/inv.pdf") (files stored_world) = Ok c.
Proof.
  exact (recorded_path_leads_to_copy "Invoice" "/tmp/inv.pdf"
           (Some "finance") office_world stored_world eq_refl eq_refl).
Defined.
End PathFacts.

(* ===================================================================== *)
(** * The new event in the calendar *)
(* ===================================================================== *)

Module EntryFacts.
Import Py Datetime DatetimeFacts App Spec AppFacts CalendarFacts.

(** X18. After a call of [add_event] that returned, the calendar file
    holds a component with the name given and, as its begin, the datetime
    that [fromisoformat] read from the time given: the text stored in the
    row in between is read back to the same datetime. *)
Theorem new_event_in_calendar name time w w' :
  add_event name time w = (Ok tt, w') →
  ∃ dt entries e,
    datetime_fromisoformat time = Some dt
    ∧ datetime_fromisoformat (datetime_isoformat dt) = Some dt
    ∧ Fs.read_file CALENDAR_PATH (files w') = Ok (Fs.Calendar_text entries)
    ∧ e ∈ entries ∧ Ics.name e = name ∧ Ics.begin e = dt.
Proof.
  rewrite add_event_spec.
  destruct (datetime_fromisoformat time) as [dt|] eqn:Hparse; [|done].
  assert (datetime_fromisoformat (datetime_isoformat dt) = Some dt) as Hback.
  { apply datetime_fromisoformat_isoformat.
    by eapply datetime_fromisoformat_valid. }
  unfold bind. rewrite insert_event_spec. cbn [traced db].
  destruct (db w) as [d|] eqn:Hd; [|done].
  set (d' := Sqlite.Database _ _ _ _). set (w1 := traced _ _).
  pose proof (generate_calendar_spec w1 d' eq_refl) as Hgen.
  destruct (entries_from (uid_next w1) (Sqlite.rows (Sqlite.events d')))
    as [es|] eqn:Hes; [|by destruct Hgen as [u ->]].
  cbv zeta in Hgen.
  destruct (Fs.write_file CALENDAR_PATH _ (files w1)) as [f|e] eqn:Hwrite;
    rewrite Hgen; [|done].
  intros [= <-].
  pose proof (serialize_entries _ _ _ Hes) as Hperm.
  pose proof (entries_from_rows _ _ _ Hes) as Hrows.
  assert ((name, Some dt)
          ∈ map (λ e, (Ics.name e, Some (Ics.begin e))) es) as Hin.
  { rewrite Hrows. subst d'. cbn [Sqlite.events Sqlite.rows Sqlite.insert].
    rewrite map_app. apply elem_of_app. right.
    cbn -[datetime_isoformat datetime_fromisoformat].
    rewrite Hback. apply list_elem_of_here. }
  apply list_elem_of_fmap in Hin as (e & [= Hname Hbegin] & He).
  exists dt, (Ics.serialize (foldl (λ c e, Ics.add e c) Ics.empty es)), e.
  split; [done|]. split; [done|].
  split; [by eapply read_calendar_after_write|].
  split; [by rewrite Hperm|]. done.
Qed.

Lemma new_event_in_calendar_witness :
  ∃ entries e,
    Fs.read_file CALENDAR_PATH (files once_world)
    = Ok (Fs.Calendar_text entries)
    ∧ e ∈ entries ∧ Ics.name e = "Standup"%string
    ∧ Ics.begin e = Mk_datetime (Date 2024 1 2) 9 0 0 0 None.
Proof.
  destruct (new_event_in_calendar "Standup" "2024-01-02 09:00"
              (started initial_world) once_world eq_refl)
    as (dt & entries & e & Hdt & _ & Hread & He & Hname & Hbegin).
  exists entries, e. injection Hdt as <-. by rewrite Hbegin.
Defined.
End EntryFacts.

(* ===================================================================== *)
(** * Events in the order of their texts *)
(* ===================================================================== *)

Module EventOrderFacts.
Import Py App Spec SqliteFacts AppFacts OrderByFacts.

(** X19. Whatever texts the event rows hold, [list_events] returns and
    prints every event exactly once, in ascending order of the stored
    time texts compared as byte strings, events with the same text in the
    order they were added. *)
Theorem list_events_in_text_order w d :
  db w = Some d → dense (Sqlite.events d) →
  (list_events w).1 = Ok tt
  ∧ console (list_events w).2
    = console w ++ map (λ r, Line (event_line r)) (listed_events d)
  ∧ listed_events d ≡ₚ Sqlite.rows (Sqlite.events d)
  ∧ Sorted event_before (listed_events d).
Proof.
  intros Hd Hdense. rewrite (list_events_spec w d Hd).
  split; [done|]. split; [done|]. split; [apply order_by_Permutation|].
  exact (order_by_stable (λ r : nat * Sqlite.event_row, Sqlite.time r.2)
           fst _ (dense_StronglySorted _ Hdense)).
Qed.

Lemma list_events_in_text_order_witness :
  console (list_events offsets_world).2
  = console offsets_world
    ++ [Line "2: B at 2024-01-01T09:00:00+00:00";
        Line "1: A at 2024-01-01T10:00:00+05:00"]
  ∧ Sorted event_before (listed_events offsets_db).
Proof.
  destruct (list_events_in_text_order offsets_world offsets_db eq_refl
              eq_refl) as (_ & Hconsole & _ & Hsorted).
  split; [|exact Hsorted]. rewrite Hconsole. reflexivity.
Defined.
End EventOrderFacts.

(* ===================================================================== *)
(** * Texts that fromisoformat rejects, and texts that it reads *)
(* ===================================================================== *)

Module ParseFacts.
Import Py Text TextFacts Datetime DatetimeFacts App Spec AppFacts.
Local Open Scope Z_scope.

(** ** The functions over any [fromisoformat] *)

Lemma add_task_with_model text s :
  add_task_with datetime_fromisoformat text s = add_task text s.
Proof. done. Qed.

Lemma generate_calendar_with_model :
  generate_calendar_with datetime_fromisoformat = generate_calendar.
Proof. done. Qed.

Lemma add_event_with_model name time :
  add_event_with datetime_fromisoformat name time = add_event name time.
Proof. done. Qed.

Lemma add_task_with_spec fromisoformat text s w :
  add_task_with fromisoformat text s w
  = match fromisoformat s with
    | None => (Raise ValueError, traced [Call F_add_task] w)
    | Some dt =>
        insert_task (Sqlite.Task text (date_isoformat (dt_date dt)))
                    (traced [Call F_add_task] w)
    end.
Proof.
  unfold add_task_with, bind, log, from_option, traced.
  cbn -[date_isoformat]. by destruct (fromisoformat s).
Qed.


Lemma insert_task_spec r w d :
  db w = Some d →
  insert_task r w
  = (Ok tt,
     traced [Sql_insert T_tasks]
       (set_db (Sqlite.Database (Sqlite.insert r (Sqlite.tasks d))
                  (Sqlite.notes d) (Sqlite.events d) (Sqlite.documents d))
               w)).
Proof.
  intros Hd. unfold insert_task, bind, get_db, put_db, log, traced, set_db.
  by rewrite Hd.
Qed.



(** ** Date-times that [add_task] takes *)

Lemma find_time_text c p h mi s us :
  time_char c → check_time_fields h mi s us = true →
  find c (time_text p h mi s us) = None.
Proof.
  intros Hc (Hh & Hmi & Hs & Hus)%time_field_bounds.
  pose proof Hc as (Hd & Hcolon & Hdot).
  assert (0 ≤ us / 1000 < 10 ^ Z.of_nat 3) as Hms.
  { change (10 ^ Z.of_nat 6) with 1000000 in Hus.
    change (10 ^ Z.of_nat 3) with 1000. Z.div_mod_to_equations. lia. }
  destruct p; unfold time_text.
  - by apply find_zfill_None.
  - rewrite find_zfill, app_String, app_empty_l, find_String_ne by done.
    by rewrite find_zfill_None.
  - rewrite <- (app_empty_r (zfill 2 s)). by apply find_hh_mm_ss.
  - apply find_hh_mm_ss; [done..|].
    rewrite app_String, app_empty_l, find_String_ne by done.
    by rewrite find_zfill_None.
  - apply find_hh_mm_ss; [done..|].
    rewrite app_String, app_empty_l, find_String_ne by done.
    by rewrite find_zfill_None.
Qed.

(** The time that is read is the time written, cut where the text ends. *)
Lemma parse_time_text p h mi s us :
  check_time_fields h mi s us = true →
  ∃ h' mi' s' us',
    parse_hh_mm_ss_ff (time_text p h mi s us) = Some (h', mi', s', us')
    ∧ check_time_fields h' mi' s' us' = true.
Proof.
  intros Ht. pose proof Ht as (Hh & Hmi & Hs & Hus)%time_field_bounds.
  apply check_time_fields_spec in Ht.
  assert (0 ≤ us / 1000 < 10 ^ Z.of_nat 3 ∧ 0 ≤ us / 1000 * 1000 ≤ 999999)
    as [Hms Hcut].
  { change (10 ^ Z.of_nat 3) with 1000. Z.div_mod_to_equations. lia. }
  destruct p; unfold time_text, parse_hh_mm_ss_ff.
  - rewrite <- (app_empty_r (zfill 2 h)).
    rewrite parse_digits_zfill by done. cbn [mbind option_bind].
    exists h, 0, 0, 0. split; [done|]. apply check_time_fields_spec. lia.
  - rewrite parse_digits_zfill by done. cbn [mbind option_bind].
    rewrite app_String, app_empty_l. cbn [Ascii.eqb Bool.eqb negb].
    rewrite <- (app_empty_r (zfill 2 mi)).
    rewrite parse_digits_zfill by done. cbn [mbind option_bind].
    exists h, mi, 0, 0. split; [done|]. apply check_time_fields_spec. lia.
  - rewrite parse_digits_zfill by done. cbn [mbind option_bind].
    rewrite app_String, app_empty_l. cbn [Ascii.eqb Bool.eqb negb].
    rewrite parse_digits_zfill by done. cbn [mbind option_bind].
    rewrite app_String, app_empty_l. cbn [Ascii.eqb Bool.eqb negb].
    rewrite <- (app_empty_r (zfill 2 s)).
    rewrite parse_digits_zfill by done. cbn [mbind option_bind].
    exists h, mi, s, 0. split; [done|]. apply check_time_fields_spec. lia.
  - rewrite parse_digits_zfill by done. cbn [mbind option_bind].
    rewrite app_String, app_empty_l. cbn [Ascii.eqb Bool.eqb negb].
    rewrite parse_digits_zfill by done. cbn [mbind option_bind].
    rewrite app_String, app_empty_l. cbn [Ascii.eqb Bool.eqb negb].
    rewrite parse_digits_zfill by done. cbn [mbind option_bind].
    rewrite app_String, app_empty_l. cbn [Ascii.eqb Bool.eqb negb].
    unfold parse_fraction. rewrite length_zfill.
    rewrite <- (app_empty_r (zfill 3 (us / 1000))).
    rewrite parse_digits_zfill by done. cbn [mbind option_bind].
    exists h, mi, s, (us / 1000 * 1000). split; [done|].
    apply check_time_fields_spec. lia.
  - rewrite parse_digits_zfill by done. cbn [mbind option_bind].
    rewrite app_String, app_empty_l. cbn [Ascii.eqb Bool.eqb negb].
    rewrite parse_digits_zfill by done. cbn [mbind option_bind].
    rewrite app_String, app_empty_l. cbn [Ascii.eqb Bool.eqb negb].
    rewrite parse_digits_zfill by done. cbn [mbind option_bind].
    rewrite app_String, app_empty_l. cbn [Ascii.eqb Bool.eqb negb].
    rewrite parse_fraction_zfill by done. cbn [mbind option_bind].
    exists h, mi, s, us. split; [done|]. apply check_time_fields_spec. lia.
Qed.

Lemma length_time_text p h mi s us :
  String.length (time_text p h mi s us)
  = match p with
    | Hours => 2 | Minutes => 5 | Seconds => 8
    | Milliseconds => 12 | Microseconds => 15
    end%nat.
Proof.
  destruct p; unfold time_text; by rewrite ?length_app, ?length_zfill.
Qed.

(** An offset with its fields in range is shorter than a day. *)
Lemma check_tzinfo_fields th tm ts tu (neg : bool) :
  check_time_fields th tm ts tu = true →
  let tzoffset := th * 3600 + tm * 60 + ts in
  let td := if tzoffset =? 0 then 0 else tzoffset * 1000000 + tu in
  check_tzinfo (Some (if neg then - td else td)) = true.
Proof.
  intros Ht%check_time_fields_spec tzoffset td.
  cbn [check_tzinfo]. unfold DAY_US. apply andb_true_iff.
  rewrite !Z.ltb_lt. unfold td, tzoffset.
  destruct (_ =? 0), neg; lia.
Qed.

Lemma parse_isoformat_time_texts p h mi s us o :
  check_time_fields h mi s us = true → check_offset o = true →
  ∃ h' mi' s' us' tz,
    parse_isoformat_time (time_text p h mi s us +:+ offset_text o)
    = Some (h', mi', s', us', tz)
    ∧ check_time_fields h' mi' s' us' = true ∧ check_tzinfo tz = true.
Proof.
  intros Ht Ho.
  destruct (parse_time_text p h mi s us Ht) as (h' & mi' & s' & us' & Hp & Ht').
  pose proof (find_time_text "-" p h mi s us time_char_minus Ht) as Fm.
  pose proof (find_time_text "+" p h mi s us time_char_plus Ht) as Fp.
  exists h', mi', s', us'. unfold parse_isoformat_time, split_tz.
  destruct o as [[neg q th tm ts tu]|]; cbn [offset_text].
  - cbn [check_offset off_spec off_h off_mi off_s off_us] in Ho.
    apply andb_true_iff in Ho as [Hq Hto].
    cbn [off_minus off_spec off_h off_mi off_s off_us].
    destruct (parse_time_text q th tm ts tu Hto)
      as (th' & tm' & ts' & tu' & Hpo & Hto').
    pose proof (find_time_text "-" q th tm ts tu time_char_minus Hto) as Fom.
    assert (negb ((String.length (time_text q th tm ts tu) =? 5)%nat
                  || (String.length (time_text q th tm ts tu) =? 8)%nat
                  || (String.length (time_text q th tm ts tu) =? 15)%nat)
            = false) as Hlen.
    { rewrite length_time_text. by destruct q. }
    rewrite (find_app_None "-") by done. destruct neg.
    + cbn [find Ascii.eqb Bool.eqb mbind option_bind]. rewrite app_empty_r.
      rewrite Hp. cbn [mbind option_bind]. rewrite Hlen, Hpo.
      cbn [mbind option_bind]. eexists. split; [done|]. split; [done|].
      by apply (check_tzinfo_fields th' tm' ts' tu' true).
    + rewrite find_String_ne by done. rewrite Fom. cbn [mbind option_bind].
      rewrite (find_app_None "+") by done.
      cbn [find Ascii.eqb Bool.eqb mbind option_bind]. rewrite app_empty_r.
      rewrite Hp. cbn [mbind option_bind]. rewrite Hlen, Hpo.
      cbn [mbind option_bind]. eexists. split; [done|]. split; [done|].
      by apply (check_tzinfo_fields th' tm' ts' tu' false).
  - rewrite app_empty_r, Fm, Fp, Hp. cbn [mbind option_bind].
    by exists None.
Qed.

Lemma datetime_fromisoformat_texts d c p h mi s us o t :
  valid_date d = true → check_time_fields h mi s us = true →
  check_offset o = true →
  t ∈ date_time_texts d c p h mi s us o →
  ∃ dt, datetime_fromisoformat t = Some dt ∧ dt_date dt = d.
Proof.
  intros Hd Ht Ho Hin.
  assert (∀ h' mi' s' us' tz',
            check_time_fields h' mi' s' us' = true →
            check_tzinfo tz' = true →
            check_datetime (Mk_datetime (Date (year d) (month d) (day d))
                              h' mi' s' us' tz') = true) as Hvalid.
  { intros h' mi' s' us' tz' Ht' Htz'. unfold check_datetime, valid_date.
    cbn [dt_date hour minute second microsecond tzinfo year month day].
    unfold valid_date in Hd. by rewrite Hd, Ht', Htz'. }
  assert (Date (year d) (month d) (day d) = d) as Heta by by destruct d.
  unfold date_time_texts in Hin.
  apply elem_of_cons in Hin as [->|Hin];
    [|apply list_elem_of_singleton in Hin as ->];
    unfold datetime_fromisoformat.
  - rewrite <- (app_empty_r (date_isoformat d)).
    rewrite parse_isoformat_date_isoformat by done. cbn [mbind option_bind].
    rewrite Hvalid by done. eexists. split; [done|]. exact Heta.
  - rewrite parse_isoformat_date_isoformat by done. cbn [mbind option_bind].
    destruct (parse_isoformat_time_texts p h mi s us o Ht Ho)
      as (h' & mi' & s' & us' & tz & -> & Ht' & Htz).
    cbn [mbind option_bind].
    rewrite Hvalid by done. eexists. split; [done|]. exact Heta.
Qed.

(** C10, amended.  [add_task] takes more than plain dates, yet not every
    ISO 8601 date-time.  It takes every text
    [YYYY-MM-DD[*HH[:MM[:SS[.fff[fff]]]][+HH:MM[:SS[.ffffff]]]]] whose date,
    time and offset have their fields in range, with any byte for the
    separator [*], and the row holds the date alone.  In general, whatever
    text the [datetime.fromisoformat] of the installed Python reads, the
    row holds the date part of the datetime read. *)
Theorem add_task_stores_date_of_date_time text d c p h mi s us o w db0 :
  db w = Some db0 →
  valid_date d = true → check_time_fields h mi s us = true →
  check_offset o = true →
  (∀ t, t ∈ date_time_texts d c p h mi s us o →
     ∃ w', add_task text t w = (Ok tt, w')
           ∧ db w' = Some (with_task text (date_isoformat d) db0))
  ∧ (∀ (fromisoformat : string → option datetime) t dt,
       fromisoformat t = Some dt →
       ∃ w', add_task_with fromisoformat text t w = (Ok tt, w')
             ∧ db w'
               = Some (with_task text (date_isoformat (dt_date dt)) db0)).
Proof.
  intros Hdb Hd Ht Ho. split.
  - intros t Hin.
    destruct (datetime_fromisoformat_texts _ _ _ _ _ _ _ _ _ Hd Ht Ho Hin)
      as (dt & Hparse & <-).
    rewrite add_task_spec, Hparse.
    rewrite (insert_task_spec _ _ db0) by done. by eexists.
  - intros fromisoformat t dt Hparse.
    rewrite add_task_with_spec, Hparse.
    rewrite (insert_task_spec _ _ db0) by done. by eexists.
Qed.

Lemma add_task_stores_date_of_date_time_witness :
  ∃ w', add_task "Pay rent" "2024-01-02 15:30" ready_world = (Ok tt, w')
        ∧ db w'
          = Some (with_task "Pay rent" "2024-01-02" Sqlite.empty_database).
Proof.
  apply (proj1 (add_task_stores_date_of_date_time "Pay rent"
                  (Date 2024 1 2) " " Minutes 15 30 0 0 None ready_world
                  Sqlite.empty_database eq_refl eq_refl eq_refl eq_refl)).
  unfold date_time_texts. set_unfold. right. left. reflexivity.
Defined.

(** C10, as stated, fails: not every ISO 8601 date-time is taken.  With
    the date given as an ordinal date (the second day of 2024),
    [fromisoformat] raises [ValueError] and nothing is stored. *)
Lemma add_task_rejects_ordinal_date :
  datetime_fromisoformat "2024-002T15:30" = None
  ∧ add_task "Pay rent" "2024-002T15:30" ready_world
    = (Raise ValueError, traced [Call F_add_task] ready_world)
  ∧ db (add_task "Pay rent" "2024-002T15:30" ready_world).2
    = db ready_world.
Proof. by vm_compute. Qed.
End ParseFacts.
